(** * knowledge-sherpa: Obsidian to WordPress synchronisation

    A shallow embedding of the pairing and publish-reconciliation engine
    ([scripts/markdown_processor.py], [scripts/obsidian_to_wp_v2.py],
    [scripts/wp_polylang_publisher.py], [scripts/language_manager.py])
    and the properties established about it.

    Layout: Part I holds the embedding (Python values, path functions,
    document discovery, the metadata store, the pairing resolver, the
    remote publisher and the reconciler); Part II holds the lemmas and
    theorems; worked examples on small vaults close the file.

    How the program's surroundings are modelled:
    - front-matter values are the scalars [None], booleans, integers and
      strings, with Python's truth test and Python's [==];
    - strings are sequences of characters with codes below 256, compared
      by character code, which is the order [sorted] uses; [len] is
      [String.length];
    - the file system is a tree of names for [os.walk], a finite map from
      paths to texts for reading and writing, and a set of directories
      for [os.path.exists];
    - [frontmatter] and [markdown] are an interface ([Frontmatter]);
    - the REST gateway and the faults of the disk are an environment
      ([Environment]) that answers from the events of the run so far;
    - an exception that escapes a function is the result [Raised]. *)

From Stdlib Require Import ZArith Ascii String DecimalString.
From stdpp Require Import base option list strings sorting gmap.

Local Open Scope string_scope.
Local Open Scope list_scope.

(* ================================================================== *)
(** * Part I: the embedding                                            *)
(* ================================================================== *)

(** ** Python values

    The scalars that YAML front matter and JSON bodies put into the
    program: [None], booleans, integers and strings. *)

Inductive pyval : Type :=
  | PNone
  | PBool (b : bool)
  | PInt (z : Z)
  | PStr (s : string).

Global Instance pyval_eq_dec : EqDecision pyval.
Proof. solve_decision. Defined.

Global Instance pyval_inhabited : Inhabited pyval := populate PNone.

(** [bool(v)]: what [if v:] and [not v] test. *)
Definition truthy (v : pyval) : bool :=
  match v with
  | PNone => false
  | PBool b => b
  | PInt z => negb (z =? 0)%Z
  | PStr s => negb (String.eqb s "")
  end.

(** The number a value stands for under [==]: [True == 1], [False == 0]. *)
Definition py_num (v : pyval) : option Z :=
  match v with
  | PBool b => Some (if b then 1 else 0)%Z
  | PInt z => Some z
  | _ => None
  end.

(** [a == b], which is also the equality dictionary keys are found by. *)
Definition py_eqb (a b : pyval) : bool :=
  match a, b with
  | PNone, PNone => true
  | PStr s, PStr t => String.eqb s t
  | _, _ =>
      match py_num a, py_num b with
      | Some x, Some y => (x =? y)%Z
      | _, _ => false
      end
  end.

(** [d.get(k)] on a mapping from strings: a missing key reads as [None]. *)
Definition py_get (d : gmap string pyval) (k : string) : pyval :=
  default PNone (d !! k).

(** The characters that [str.strip()] removes, those [str.isspace]
    accepts: among the characters with codes below 256 these are the
    codes 9 to 13, 28 to 32, 133 and 160. *)
Definition py_isspace (c : ascii) : bool :=
  let n := N_of_ascii c in
  ((9 <=? n) && (n <=? 13) || (28 <=? n) && (n <=? 32) ||
   (n =? 133) || (n =? 160))%N.

(** ** Insertion-ordered dictionaries

    A Python [dict] iterates in insertion order and assigning to a key it
    already holds keeps the key's place.  [all_files], [post_id_to_file]
    and [group_id_to_files] are such dictionaries. *)

Section odict.
Context {K V : Type} (keq : K → K → bool).

Fixpoint od_get (d : list (K * V)) (k : K) : option V :=
  match d with
  | [] => None
  | (k', v) :: d' => if keq k' k then Some v else od_get d' k
  end.

Fixpoint od_set (d : list (K * V)) (k : K) (v : V) : list (K * V) :=
  match d with
  | [] => [(k, v)]
  | (k', v') :: d' =>
      if keq k' k then (k', v) :: d' else (k', v') :: od_set d' k v
  end.

Definition od_mem (d : list (K * V)) (k : K) : bool :=
  bool_decide (is_Some (od_get d k)).
End odict.

(** ** Paths: [str] tests and [os.path] (posixpath) *)

Module Path.

Definition chars : string → list ascii := list_ascii_of_string.
Definition str : list ascii → string := string_of_list_ascii.

Definition is_sep (c : ascii) : bool := Ascii.eqb c "/".

Fixpoint take_while {A} (f : A → bool) (l : list A) : list A :=
  match l with
  | [] => []
  | x :: l' => if f x then x :: take_while f l' else []
  end.

Fixpoint drop_while {A} (f : A → bool) (l : list A) : list A :=
  match l with
  | [] => []
  | x :: l' => if f x then drop_while f l' else l
  end.

Fixpoint starts_with (pre l : list ascii) : bool :=
  match pre, l with
  | [], _ => true
  | _ :: _, [] => false
  | a :: pre', b :: l' => Ascii.eqb a b && starts_with pre' l'
  end.

Fixpoint has_sub (needle hay : list ascii) : bool :=
  starts_with needle hay ||
  match hay with
  | [] => false
  | _ :: hay' => has_sub needle hay'
  end.

(** [s.startswith(pre)], [s.endswith(suf)], [needle in s]. *)
Definition startswith (pre s : string) : bool :=
  starts_with (chars pre) (chars s).
Definition endswith (suf s : string) : bool :=
  starts_with (rev (chars suf)) (rev (chars s)).
Definition contains (needle s : string) : bool :=
  has_sub (chars needle) (chars s).

(** [i = p.rfind('/') + 1; head, tail = p[:i], p[i:]] *)
Definition head_part (p : list ascii) : list ascii :=
  rev (drop_while (λ c, negb (is_sep c)) (rev p)).
Definition tail_part (p : list ascii) : list ascii :=
  rev (take_while (λ c, negb (is_sep c)) (rev p)).

(** [head.rstrip('/')] *)
Definition rstrip_sep (l : list ascii) : list ascii :=
  rev (drop_while is_sep (rev l)).

(** [os.path.basename] *)
Definition basename (p : string) : string := str (tail_part (chars p)).

(** [os.path.dirname]: the head, without its trailing slashes unless it
    consists of slashes only. *)
Definition dirname (p : string) : string :=
  let head := head_part (chars p) in
  if forallb is_sep head then str head else str (rstrip_sep head).

(** [os.path.join(a, b)] *)
Definition join (a b : string) : string :=
  if startswith "/" b then b
  else if String.eqb a "" || endswith "/" a then a +:+ b
  else a +:+ "/" +:+ b.

(** [Path(p).stem]: the final component without its last suffix. *)
Definition stem (p : string) : string :=
  let name := tail_part (chars p) in
  let ext := take_while (λ c, negb (Ascii.eqb c ".")) (rev name) in
  let base := rev (drop (S (length ext)) (rev name)) in
  if bool_decide (length ext < length name) &&
     negb (bool_decide (ext = [])) && negb (bool_decide (base = []))
  then str base else str name.

End Path.


(** ** Document discovery ([get_markdown_files])

    The directory tree as [os.walk] sees it: every directory lists its
    entries in the order [os.scandir] reports them. *)

#[warnings="-register-all"]
Inductive entry : Type :=
  | File (name : string)
  | Dir (name : string) (children : list entry).

Definition default_exclude_folders : list string :=
  ["templates"; "drafts"; ".obsidian"].

(** [file.endswith('.md') and not file.startswith('.')] *)
Definition is_markdown_name (file : string) : bool :=
  Path.endswith ".md" file && negb (Path.startswith "." file).

(** The names [os.walk] hands out as [files] for one directory. *)
Definition file_names (children : list entry) : list string :=
  flat_map (λ e, match e with File n => [n] | Dir _ _ => [] end) children.

(** The body of the [for file in files] loop for one [root]. *)
Definition markdown_in (root : string) (children : list entry) : list string :=
  map (Path.join root) (filter (λ n, is_markdown_name n = true) (file_names children)).

(** [os.walk(root)], top-down, with [dirs[:]] pruned by the loop body
    before the walk descends; [e] is the node found at [root].  Walking
    something that is not a directory yields nothing. *)
Fixpoint walk (exclude_folders : list string) (root : string) (e : entry)
  : list string :=
  match e with
  | File _ => []
  | Dir _ children =>
      markdown_in root children ++
      flat_map (λ c,
        match c with
        | File _ => []
        | Dir d _ =>
            if bool_decide (d ∈ exclude_folders) then []
            else walk exclude_folders (Path.join root d) c
        end) children
  end.

(** [sorted(markdown_files)] on strings. *)
Definition sorted (l : list string) : list string := merge_sort String.le l.

Definition get_markdown_files (tree : entry) (folder_path : string)
    (exclude_folders : option (list string)) : list string :=
  let exclude_folders := default default_exclude_folders exclude_folders in
  sorted (walk exclude_folders folder_path tree).

(** Notions the discovery properties are stated with. *)

(** Every file below a directory, with the names of the directories that
    lead to it from the directory walked. *)
Fixpoint located (e : entry) : list (list string * string) :=
  match e with
  | File _ => []
  | Dir _ children =>
      map (λ n, ([], n)) (file_names children) ++
      flat_map (λ c,
        match c with
        | File _ => []
        | Dir d _ => map (λ x, (d :: x.1, x.2)) (located c)
        end) children
  end.

(** The path [os.walk] builds for such a file: [root] joined with every
    directory name in turn, then with the file name. *)
Definition path_under (root : string) (x : list string * string) : string :=
  Path.join (fold_left Path.join x.1 root) x.2.

(** A located file the walk reaches and keeps: a markdown name, below
    directories none of which is excluded. *)
Definition reachable (exclude_folders : list string)
    (x : list string * string) : Prop :=
  is_markdown_name x.2 = true ∧ Forall (λ d, d ∉ exclude_folders) x.1.

Global Instance reachable_dec exclude_folders x :
  Decision (reachable exclude_folders x).
Proof. unfold reachable. apply _. Defined.

(** File names as directory entries have them: without a slash. *)
Definition plain_name (n : string) : bool :=
  forallb (λ c, negb (Path.is_sep c)) (Path.chars n).

Fixpoint plain_files (e : entry) : bool :=
  match e with
  | File n => plain_name n
  | Dir _ children => forallb plain_files children
  end.

(** The same tree listed in another order: [os.scandir] promises none. *)
Inductive relisted : entry → entry → Prop :=
  | relisted_refl e : relisted e e
  | relisted_swap n l1 a b l2 :
      relisted (Dir n (l1 ++ a :: b :: l2)) (Dir n (l1 ++ b :: a :: l2))
  | relisted_inside n l1 c c' l2 :
      relisted c c' → relisted (Dir n (l1 ++ c :: l2)) (Dir n (l1 ++ c' :: l2))
  | relisted_trans e1 e2 e3 :
      relisted e1 e2 → relisted e2 e3 → relisted e1 e3.

(** ** External libraries

    [frontmatter] and [markdown] are not part of the repository: the
    front-matter codec and the renderer are taken as an interface.
    [fm_loads] and [fm_dumps] answer [None] where the library raises. *)

Record post : Type := {
  post_metadata : gmap string pyval;
  post_content : string
}.

Class Frontmatter : Type := {
  fm_loads : string → option post;
  fm_dumps : post → option string;
  (** [markdown_to_html]: [markdown.markdown] and then [convert_wiki_links] *)
  markdown_to_html : string → string
}.

(** ** The file store *)

Record world : Type := {
  files : gmap string string;   (* regular files: path to text *)
  dirs : gset string            (* directories that exist *)
}.

(** [os.path.exists] *)
Definition path_exists (w : world) (p : string) : bool :=
  bool_decide (p ∈ dirs w) || bool_decide (is_Some (files w !! p)).

(** ** Reading a document ([parse_markdown_file]) *)

Record metadata : Type := {
  title : pyval;
  publish : pyval;
  language : pyval;
  wp_post_id : pyval;
  mirror_post_id : pyval;
  group_id : pyval;
  raw_metadata : gmap string pyval;
  content : string
}.

Section parse.
Context `{Frontmatter}.

(** Every exception (unreadable file, malformed front matter) is caught
    and turned into [None]. *)
Definition parse_markdown_file (w : world) (file_path : string)
  : option metadata :=
  match files w !! file_path with
  | None => None
  | Some text =>
      match fm_loads text with
      | None => None
      | Some p =>
          let md := post_metadata p in
          if bool_decide (md !! "publish" = None) then None
          else
            let publish := py_get md "publish" in
            if negb (truthy publish) then None
            else Some
              {| title := default (PStr (Path.stem file_path)) (md !! "title");
                 publish := publish;
                 language := default (PStr "ko") (md !! "language");
                 wp_post_id := py_get md "wp-post-id";
                 mirror_post_id := py_get md "mirror_post_id";
                 group_id := py_get md "group-id";
                 raw_metadata := md;
                 content := markdown_to_html (post_content p) |}
      end
  end.
End parse.

(** ** The metadata store ([save_metadata_to_file])

    What the disk does during one call is an input: which operations
    raise, which name the temporary file gets and what text a write
    leaves behind. *)

Inductive outcome (A : Type) : Type :=
  | Returned (a : A)
  | Raised.
Global Arguments Returned {A} a.
Global Arguments Raised {A}.

Global Instance outcome_eq_dec `{EqDecision A} : EqDecision (outcome A).
Proof. solve_decision. Defined.

Inductive write_result : Type :=
  | WriteDone (stored : string)     (* the write returns; [stored] is on disk *)
  | WriteRaised (stored : string).  (* the write raises, leaving [stored] *)

Record disk : Type := {
  read_raises : bool;                 (* reading the original raises *)
  tmp_random : option string;         (* None: NamedTemporaryFile raises *)
  tmp_write : string → write_result;  (* effect of [tmp.write(new_content)] *)
  reread_raises : bool;               (* reading the temporary file back raises *)
  unlink_raises : bool;               (* [os.unlink] after the failed re-check raises *)
  cleanup_raises : bool;              (* [os.unlink] in the handler raises *)
  move_raises : bool                  (* [shutil.move] raises, moving nothing *)
}.

(** [not new_content or len(new_content) < len(original_content) - 100] *)
Definition implausible (original_content new_content : string) : bool :=
  String.eqb new_content "" ||
  (Z.of_nat (String.length new_content)
     <? Z.of_nat (String.length original_content) - 100)%Z.

(** The name [NamedTemporaryFile(dir=..., suffix='.md')] gives its file. *)
Definition temp_path (file_path random : string) : string :=
  Path.join (Path.dirname file_path) ("tmp" +:+ random +:+ ".md").

(** [post.metadata[metadata_key] = metadata_value] *)
Definition with_key (p : post) (k : string) (v : pyval) : post :=
  {| post_metadata := <[k := v]> (post_metadata p);
     post_content := post_content p |}.

Section save.
Context `{Frontmatter}.

(** The [except Exception] handler. *)
Definition save_handler (d : disk) (fs : gmap string string)
    (temp_file : option string) : gmap string string * outcome bool :=
  match temp_file with
  | Some t =>
      if negb (String.eqb t "") && bool_decide (is_Some (fs !! t)) then
        if cleanup_raises d then (fs, Raised)
        else (delete t fs, Returned false)
      else (fs, Returned false)
  | None => (fs, Returned false)
  end.

Definition save_metadata_to_file (d : disk) (fs : gmap string string)
    (file_path metadata_key : string) (metadata_value : pyval)
  : gmap string string * outcome bool :=
  (* 1. read the original *)
  match (if read_raises d then None else fs !! file_path) with
  | None => save_handler d fs None
  | Some original_content =>
  (* 2. parse *)
  match fm_loads original_content with
  | None => save_handler d fs None
  | Some p =>
  (* 3. update, 4. serialise *)
  match fm_dumps (with_key p metadata_key metadata_value) with
  | None => save_handler d fs None
  | Some new_content =>
  (* 5. first check *)
  if implausible original_content new_content then (fs, Returned false)
  else
  (* 6. temporary file in the directory of the original; a name that is
     taken is refused (the file is opened exclusively) *)
  match tmp_random d with
  | None => save_handler d fs None
  | Some r =>
  let temp_file := temp_path file_path r in
  if bool_decide (is_Some (fs !! temp_file)) then save_handler d fs None
  else
  match tmp_write d new_content with
  | WriteRaised stored => save_handler d (<[temp_file := stored]> fs) (Some temp_file)
  | WriteDone stored =>
  let fs1 := <[temp_file := stored]> fs in
  (* 7. read back and check again *)
  if reread_raises d then save_handler d fs1 (Some temp_file)
  else
  let written_content := stored in
  if implausible original_content written_content then
    if unlink_raises d then save_handler d fs1 (Some temp_file)
    else (delete temp_file fs1, Returned false)
  else
  (* 8. move over the original *)
  if move_raises d then save_handler d fs1 (Some temp_file)
  else (<[file_path := written_content]> (delete temp_file fs1), Returned true)
  end end end end end.

(** Every run of [save_metadata_to_file] ends in one of three ways. *)
Inductive save_end (d : disk) (fs : gmap string string) (file_path key : string)
    (v : pyval) : gmap string string * outcome bool → Prop :=
  | save_refused :
      save_end d fs file_path key v (fs, Returned false)
  | save_escaped original_content r s :
      fs !! file_path = Some original_content →
      tmp_random d = Some r →
      fs !! temp_path file_path r = None →
      cleanup_raises d = true →
      save_end d fs file_path key v (<[temp_path file_path r := s]> fs, Raised)
  | save_replaced original_content p new_content stored :
      fs !! file_path = Some original_content →
      fm_loads original_content = Some p →
      fm_dumps (with_key p key v) = Some new_content →
      implausible original_content new_content = false →
      tmp_write d new_content = WriteDone stored →
      implausible original_content stored = false →
      save_end d fs file_path key v (<[file_path := stored]> fs, Returned true).
End save.

(** ** The pairing resolver ([collect_language_pairs]) *)

Record pair : Type := {
  pair_title : pyval;
  ko_file : string;
  en_file : option string;
  ko_existing_id : pyval;
  en_existing_id : pyval
}.

(** The three lookup tables built from the discovered files. *)
Record index : Type := {
  all_files : list (string * metadata);          (* file_path to metadata *)
  post_id_to_file : list (pyval * string);       (* post id to file_path *)
  group_id_to_files : list (pyval * list string) (* group id to file paths *)
}.

Definition empty_index : index :=
  {| all_files := []; post_id_to_file := []; group_id_to_files := [] |}.

(** The loop state of the pairing loop. *)
Record pairing : Type := {
  pairs : list pair;
  processed_files : gset string
}.

(** The state of the pairing loop before any file is looked at:
    [pairs = []], [processed_files = set()]. *)
Definition no_pairs : pairing := {| pairs := []; processed_files := ∅ |}.

(** ['/english/' in f or '/en/' in f] *)
Definition is_english (f : string) : bool :=
  Path.contains "/english/" f || Path.contains "/en/" f.

(** [if en_file:] and [if not en_file:] on a path that may be [None]. *)
Definition path_truthy (f : option string) : bool :=
  match f with
  | Some s => negb (String.eqb s "")
  | None => false
  end.

(** [all_files[f].get('wp-post-id')]; in strategy 2 the lookup is guarded
    by [if en_file in all_files] and [en_post_id] stays [None] otherwise;
    in strategies 1 and 3 the file is always a key. *)
Definition post_id_of (ix : index) (f : string) : pyval :=
  match od_get String.eqb (all_files ix) f with
  | Some m => wp_post_id m
  | None => PNone
  end.

Section resolver.
Context `{Frontmatter}.
Variable w : world.

(** One round of the indexing loop. *)
Definition index_file (ix : index) (file_path : string) : index :=
  match parse_markdown_file w file_path with
  | None => ix
  | Some m =>
      if negb (truthy (publish m)) then ix
      else
        {| all_files := od_set String.eqb (all_files ix) file_path m;
           post_id_to_file :=
             (let post_id := wp_post_id m in
              if truthy post_id
              then od_set py_eqb (post_id_to_file ix) post_id file_path
              else post_id_to_file ix);
           group_id_to_files :=
             (let g := group_id m in
              if truthy g
              then od_set py_eqb (group_id_to_files ix) g
                     (default [] (od_get py_eqb (group_id_to_files ix) g)
                        ++ [file_path])
              else group_id_to_files ix) |}
  end.

Definition build_index (markdown_files : list string) : index :=
  fold_left index_file markdown_files empty_index.

(** Strategy 1: the first file of the same group, other than [ko_file],
    that lies in an English folder and is not processed yet. *)
Definition group_match (ix : index) (processed : gset string)
    (ko_file : string) (ko_metadata : metadata) : option string :=
  let ko_group_id := group_id ko_metadata in
  if truthy ko_group_id then
    match od_get py_eqb (group_id_to_files ix) ko_group_id with
    | Some group_files =>
        find (λ candidate_file,
                negb (String.eqb candidate_file ko_file) &&
                is_english candidate_file &&
                negb (bool_decide (candidate_file ∈ processed)))
             group_files
    | None => None
    end
  else None.

(** Strategy 2: the file that holds the post id [mirror_post_id] names. *)
Definition mirror_match (ix : index) (ko_metadata : metadata) : option string :=
  let mirror := mirror_post_id ko_metadata in
  if truthy mirror then od_get py_eqb (post_id_to_file ix) mirror else None.

(** Strategy 3: the file of the same name in the [english] folder next
    to [ko_file]. *)
Definition folder_match (ix : index) (processed : gset string)
    (ko_file : string) : option string :=
  let ko_dir := Path.dirname ko_file in
  let en_dir := Path.join ko_dir "english" in
  let ko_basename := Path.basename ko_file in
  if path_exists w en_dir then
    let en_candidate_path := Path.join en_dir ko_basename in
    if od_mem String.eqb (all_files ix) en_candidate_path &&
       negb (bool_decide (en_candidate_path ∈ processed))
    then Some en_candidate_path
    else None
  else None.

(** The three strategies in turn: [(en_file, en_post_id)]. *)
Definition find_english (ix : index) (processed : gset string)
    (ko_file : string) (ko_metadata : metadata) : option string * pyval :=
  let found (f : string) := (Some f, post_id_of ix f) in
  let s1 :=
    match group_match ix processed ko_file ko_metadata with
    | Some f => found f
    | None => (None, PNone)
    end in
  let s2 :=
    if path_truthy s1.1 then s1
    else match mirror_match ix ko_metadata with
         | Some f => found f
         | None => s1
         end in
  if path_truthy s2.1 then s2
  else match folder_match ix processed ko_file with
       | Some f => found f
       | None => s2
       end.

(** One round of the pairing loop. *)
Definition pair_file (ix : index) (st : pairing)
    (item : string * metadata) : pairing :=
  let ko_file := item.1 in
  let ko_metadata := item.2 in
  if bool_decide (ko_file ∈ processed_files st) then st
  else if is_english ko_file then st
  else
    let found := find_english ix (processed_files st) ko_file ko_metadata in
    let pair :=
      {| pair_title := title ko_metadata;
         ko_file := ko_file;
         en_file := found.1;
         ko_existing_id := wp_post_id ko_metadata;
         en_existing_id := found.2 |} in
    let processed := {[ko_file]} ∪ processed_files st in
    {| pairs := pairs st ++ [pair];
       processed_files :=
         match found.1 with
         | Some e => if path_truthy found.1 then {[e]} ∪ processed else processed
         | None => processed
         end |}.

Definition pair_all (ix : index) (items : list (string * metadata))
    (st : pairing) : pairing :=
  fold_left (pair_file ix) items st.

(** The function from the list [get_markdown_files] has returned on. *)
Definition collect_pairs (markdown_files : list string) : list pair :=
  let ix := build_index markdown_files in
  pairs (pair_all ix (all_files ix) no_pairs).
End resolver.

Definition collect_language_pairs `{Frontmatter} (w : world) (tree : entry)
    (publish_folder : string) : list pair :=
  collect_pairs w (get_markdown_files tree publish_folder None).

(** Notions the pairing properties are stated with. *)

Section resolver_notions.
Context `{Frontmatter}.
Variables (w : world) (markdown_files : list string).

(** A discovered file that [parse_markdown_file] reads. *)
Definition eligible (f : string) : Prop :=
  f ∈ markdown_files ∧ is_Some (parse_markdown_file w f).

(** An eligible file whose [group-id] is [g]. *)
Definition in_group (g : pyval) (f : string) : bool :=
  match parse_markdown_file w f with
  | Some m => truthy (group_id m) && py_eqb (group_id m) g
  | None => false
  end.

(** An eligible file whose [wp-post-id] is [k]. *)
Definition has_post_id (k : pyval) (f : string) : bool :=
  match parse_markdown_file w f with
  | Some m => truthy (wp_post_id m) && py_eqb (wp_post_id m) k
  | None => false
  end.

(** No document names, as its mirror, a post id that a document holds:
    strategy 2 never applies. *)
Definition mirror_free : bool :=
  let ix := build_index w markdown_files in
  forallb (λ item, negb (bool_decide (is_Some (mirror_match ix item.2))))
          (all_files ix).

(** The pair the loop makes for [k] when it does not skip it. *)
Definition pair_for (processed : gset string) (k : string) (m : metadata)
  : pair :=
  let found := find_english w (build_index w markdown_files) processed k m in
  {| pair_title := title m; ko_file := k; en_file := found.1;
     ko_existing_id := wp_post_id m; en_existing_id := found.2 |}.
End resolver_notions.

(** The documents a pair binds: its Korean file and, when it has one,
    its English file. *)
Definition pair_docs (p : pair) : list string :=
  ko_file p ::
  match en_file p with
  | Some e => if path_truthy (en_file p) then [e] else []
  | None => []
  end.

Definition docs_of (ps : list pair) : list string := flat_map pair_docs ps.

(** What holds of the state of the pairing loop all along. *)
Record paired_ok `{Frontmatter} (w : world) (markdown_files : list string)
    (st : pairing) : Prop := {
  ok_processed : ∀ f, f ∈ processed_files st ↔ f ∈ docs_of (pairs st);
  ok_eligible : ∀ d, d ∈ docs_of (pairs st) → eligible w markdown_files d;
  ok_primary : NoDup (map ko_file (pairs st));
  ok_korean : ∀ p, p ∈ pairs st → is_english (ko_file p) = false;
  ok_nodup : mirror_free w markdown_files = true → NoDup (docs_of (pairs st));
  ok_ids : ∀ p, p ∈ pairs st →
    (∃ m, parse_markdown_file w (ko_file p) = Some m ∧
          ko_existing_id p = wp_post_id m) ∧
    (∀ e, en_file p = Some e →
          eligible w markdown_files e ∧
          en_existing_id p = post_id_of (build_index w markdown_files) e)
}.

(** ** The remote gateway

    The REST surface is outside the program.  A request names its
    endpoint and what it carries; what comes back is decided by the
    environment from everything that has happened so far. *)

Inductive endpoint : Type :=
  | Posts                          (* rest_url + 'posts' *)
  | PostsPage                      (* rest_url + 'posts?per_page=1' *)
  | PostNo (post_id : pyval)       (* rest_url + f'posts/{post_id}' *)
  | CategorySearch (name : string) (* rest_url + f'categories?search={name}&per_page=1' *)
  | Categories                     (* rest_url + 'categories' *)
  | Media                          (* rest_url + 'media' *)
  | SetLanguage                    (* pll_rest_url + 'set-language' *)
  | LinkTranslations               (* pll_rest_url + 'link-translations' *)
  | PolylangPost.                  (* pll_rest_url + 'post/1' *)

Inductive http_method : Type := GET | POST.

Inductive payload : Type :=
  | NoBody
  | PostData (title : pyval) (content : string) (language : string)
             (obsidian_file_path : option string) (categories : option pyval)
  | CategoryData (name : string)
  | ImageFile (file_path : string)
  | FeaturedMedia (media_id : pyval)
  | LanguageData (post_id : pyval) (language : string)
  | LinkData (ko_post_id en_post_id : pyval).

Record request : Type := {
  req_method : http_method;
  req_url : endpoint;
  req_body : payload
}.

(** [response.json()]: an object, an array of objects, or an exception. *)
Inductive json : Type :=
  | JObject (fields : gmap string pyval)
  | JArray (items : list (gmap string pyval)).

Record response : Type := {
  status_code : Z;
  body : option json     (* None: [response.json()] raises *)
}.

(** What a run leaves behind, in order. *)
Inductive event : Type :=
  | Sent (r : request) (answer : option response) (* None: [requests] raised *)
  | Saved (file_path key : string) (value : pyval) (result : outcome bool).

(** A request for a new post: a [POST] to [posts]. *)
Definition creates_post (ev : event) : bool :=
  match ev with
  | Sent {| req_method := POST; req_url := Posts |} _ => true
  | _ => false
  end.

Class Environment : Type := {
  (** the answer to a request, given what happened before it *)
  server : list event → request → option response;
  (** how the disk behaves during the next [save_metadata_to_file] *)
  disk_now : list event → disk
}.

Record stats : Type := {
  total : nat;
  ko_created : nat;
  ko_updated : nat;
  en_created : nat;
  en_updated : nat;
  linked : nat;
  failed : nat;
  thumbnail_set : nat
}.

Record run : Type := {
  store : world;
  trace : list event;
  counters : stats
}.

(** Computations of a run: they thread the state and may let an
    exception escape. *)
Definition Run (A : Type) : Type := run → outcome A * run.

Global Instance run_ret : MRet Run := λ A a st, (Returned a, st).
Global Instance run_bind : MBind Run := λ A B f m st,
  match m st with
  | (Returned a, st') => f a st'
  | (Raised, st') => (Raised, st')
  end.

Definition raise {A} : Run A := λ st, (Raised, st).

Definition read_counters : Run stats := λ st, (Returned (counters st), st).

Definition with_counters (f : stats → stats) : Run unit := λ st,
  (Returned (), {| store := store st; trace := trace st; counters := f (counters st) |}).

(** Notions the properties of runs are stated with: the events a
    computation adds all pass a test; a computation leaves the store
    alone. *)
Definition is_send (ev : event) : bool :=
  match ev with Sent _ _ => true | Saved _ _ _ _ => false end.

Definition adds (P : event → bool) {A} (m : Run A) : Prop :=
  ∀ st, ∃ evs, trace (m st).2 = trace st ++ evs ∧ forallb P evs = true.

Definition keeps_store {A} (m : Run A) : Prop :=
  ∀ st, store (m st).2 = store st.

(** A test that lets through everything except, at most, what is sent
    to [posts] itself. *)
Definition lets_through (P : event → bool) : Prop :=
  ∀ r answer, req_url r ≠ Posts → P (Sent r answer) = true.

Definition count_failed (c : stats) : stats :=
  {| total := total c; ko_created := ko_created c; ko_updated := ko_updated c;
     en_created := en_created c; en_updated := en_updated c;
     linked := linked c; failed := S (failed c); thumbnail_set := thumbnail_set c |}.
Definition count_linked (c : stats) : stats :=
  {| total := total c; ko_created := ko_created c; ko_updated := ko_updated c;
     en_created := en_created c; en_updated := en_updated c;
     linked := S (linked c); failed := failed c; thumbnail_set := thumbnail_set c |}.
Definition count_thumbnail (c : stats) : stats :=
  {| total := total c; ko_created := ko_created c; ko_updated := ko_updated c;
     en_created := en_created c; en_updated := en_updated c;
     linked := linked c; failed := failed c; thumbnail_set := S (thumbnail_set c) |}.
Definition count_ko (existing : pyval) (c : stats) : stats :=
  {| total := total c;
     ko_created := (if truthy existing then ko_created c else S (ko_created c));
     ko_updated := (if truthy existing then S (ko_updated c) else ko_updated c);
     en_created := en_created c; en_updated := en_updated c;
     linked := linked c; failed := failed c; thumbnail_set := thumbnail_set c |}.
Definition count_en (existing : pyval) (c : stats) : stats :=
  {| total := total c; ko_created := ko_created c; ko_updated := ko_updated c;
     en_created := (if truthy existing then en_created c else S (en_created c));
     en_updated := (if truthy existing then S (en_updated c) else en_updated c);
     linked := linked c; failed := failed c; thumbnail_set := thumbnail_set c |}.

(** [response.status_code in [200, 201]] *)
Definition ok_status (r : response) : bool :=
  bool_decide (status_code r = 200%Z) || bool_decide (status_code r = 201%Z).

(** The dictionary [publish_post] returns. *)
Record publish_result : Type := {
  success : bool;
  result_post_id : pyval
}.

Section publisher.
Context `{Environment}.

(** [requests.get] and [requests.post]: the answer is recorded. *)
Definition http (r : request) : Run (option response) := λ st,
  let answer := server (trace st) r in
  (Returned answer,
   {| store := store st; trace := trace st ++ [Sent r answer];
      counters := counters st |}).

(** [get_or_create_category]: the category id, or [None].  Everything
    inside its [try] is caught; [category_name.strip()] comes before the
    [try] and raises on a name that is not a string. *)
Definition get_or_create_category (category_name : pyval) : Run pyval :=
  if negb (truthy category_name) then mret PNone
  else match category_name with
  | PStr name =>
      if forallb py_isspace (Path.chars name) then mret PNone
      else
        found ← http {| req_method := GET; req_url := CategorySearch name;
                        req_body := NoBody |};
        let create : Run pyval :=
          created ← http {| req_method := POST; req_url := Categories;
                            req_body := CategoryData name |};
          mret (match created with
                | Some r =>
                    if ok_status r then
                      match body r with
                      | Some (JObject o) => default PNone (o !! "id")
                      | _ => PNone
                      end
                    else PNone
                | None => PNone
                end) in
        match found with
        | None => mret PNone
        | Some r =>
            if bool_decide (status_code r = 200%Z) then
              match body r with
              | None => mret PNone
              | Some (JArray (o :: _)) => mret (default PNone (o !! "id"))
              | Some (JArray []) => create
              | Some (JObject o) =>
                  if bool_decide (o = ∅) then create else mret PNone
              end
            else create
        end
  | _ => raise
  end.

(** [_set_polylang_language]: the answer is only printed. *)
Definition set_polylang_language (post_id : pyval) (language : string)
  : Run unit :=
  _ ← http {| req_method := POST; req_url := SetLanguage;
              req_body := LanguageData post_id language |};
  mret ().

Definition polylang_code (language : string) : string :=
  if String.eqb language "ko" then "ko_KR"
  else if String.eqb language "en" then "en_US"
  else language.

(** The request [publish_post] sends for the post itself: an update of
    [posts/{post_id}] when [post_id] is given, a new post otherwise. *)
Definition post_request (post_id : pyval) (post_data : payload) : request :=
  if truthy post_id
  then {| req_method := POST; req_url := PostNo post_id; req_body := post_data |}
  else {| req_method := POST; req_url := Posts; req_body := post_data |}.

(** [publish_post].  [metadata] is the path that the dictionary
    [{'obsidian_file_path': ...}] carries, when one is passed.  The
    category is looked up before the [try]: what escapes
    [get_or_create_category] escapes [publish_post]. *)
Definition publish_post (title : pyval) (content : string) (language : string)
    (metadata : option string) (post_id : pyval) (category_name : pyval)
  : Run publish_result :=
  categories ←
    (if truthy category_name then
       category_id ← get_or_create_category category_name;
       mret (if truthy category_id then Some category_id else None)
     else mret None);
  let post_data := PostData title content language metadata categories in
  answer ← http (post_request post_id post_data);
  match answer with
  | Some r =>
      if ok_status r then
        match body r with
        | Some (JObject result) =>
            let new_id := py_get result "id" in
            _ ← set_polylang_language new_id (polylang_code language);
            mret {| success := true; result_post_id := new_id |}
        | _ => mret {| success := false; result_post_id := post_id |}
        end
      else mret {| success := false; result_post_id := post_id |}
  | None => mret {| success := false; result_post_id := post_id |}
  end.

(** [link_translations]: whether the link was made. *)
Definition link_translations (ko_post_id en_post_id : pyval) : Run bool :=
  answer ← http {| req_method := POST; req_url := LinkTranslations;
                   req_body := LinkData ko_post_id en_post_id |};
  mret (match answer with
        | Some r =>
            if ok_status r then
              match body r with
              | Some (JObject data) => truthy (py_get data "success")
              | _ => false
              end
            else false
        | None => false
        end).

(** [set_featured_image]: whether the thumbnail was set. *)
Definition set_featured_image (post_id : pyval) (file_path : string)
  : Run bool := λ st,
  if negb (path_exists (store st) file_path) then (Returned false, st)
  else if negb (bool_decide (is_Some (files (store st) !! file_path)))
  then (Returned false, st)   (* [open] raises on a directory *)
  else
    (upload ← http {| req_method := POST; req_url := Media;
                      req_body := ImageFile file_path |};
     match upload with
     | Some r =>
         if negb (ok_status r) then mret false
         else match body r with
              | Some (JObject media_data) =>
                  let media_id := py_get media_data "id" in
                  update ← http {| req_method := POST; req_url := PostNo post_id;
                                   req_body := FeaturedMedia media_id |};
                  mret (match update with
                        | Some r' => ok_status r'
                        | None => false
                        end)
              | _ => mret false
              end
     | None => mret false
     end) st.
End publisher.

(** ** The reconciler ([find_cover_image], [process_pairs]) *)

Definition cover_extensions : list string :=
  [".jpg"; ".jpeg"; ".png"; ".gif"; ".webp"].

Definition find_cover_image (w : world) (folder_path : string) : option string :=
  let cover_in (folder : string) :=
    find (path_exists w) (map (λ ext, Path.join folder ("cover" +:+ ext)) cover_extensions) in
  let current_folder := Path.dirname folder_path in
  match cover_in current_folder with
  | Some cover_path => Some cover_path
  | None =>
      let parent_folder := Path.dirname current_folder in
      if negb (String.eqb parent_folder current_folder)
      then cover_in parent_folder
      else None
  end.

Definition initial_stats (n : nat) : stats :=
  {| total := n; ko_created := 0; ko_updated := 0; en_created := 0;
     en_updated := 0; linked := 0; failed := 0; thumbnail_set := 0 |}.

(** The state after [stats['failed'] += 1]. *)
Definition after_failure (st : run) : run :=
  {| store := store st; trace := trace st;
     counters := count_failed (counters st) |}.

(** Any event but a request for a new post. *)
Definition no_create (ev : event) : bool := negb (creates_post ev).

Section reconciler.
Context `{Frontmatter} `{Environment}.

(** A call of [save_metadata_to_file] from the loop: its result is not
    looked at; an exception that escapes it ends the run. *)
Definition save_step (file_path key : string) (value : pyval) : Run unit :=
  λ st,
  let res := save_metadata_to_file (disk_now (trace st)) (files (store st))
               file_path key value in
  let st' := {| store := {| files := res.1; dirs := dirs (store st) |};
                trace := trace st ++ [Saved file_path key value res.2];
                counters := counters st |} in
  match res.2 with
  | Returned _ => (Returned (), st')
  | Raised => (Raised, st')
  end.

(** Looking for a cover image next to [file_path] and attaching it. *)
Definition cover_step (post_id : pyval) (file_path : string) : Run unit :=
  λ st,
  match find_cover_image (store st) file_path with
  | Some cover_image =>
      (done ← set_featured_image post_id cover_image;
       if done : bool then with_counters count_thumbnail else mret ()) st
  | None => (Returned (), st)
  end.

(** Step 1 of the loop body, for the Korean file.  [None] stands for
    the [continue] after a failed publish. *)
Definition publish_ko (p : pair) : Run (option pyval) := λ st,
  match parse_markdown_file (store st) (ko_file p) with
  | None => (Raised, st)   (* [ko_metadata.get] on [None] *)
  | Some ko_metadata =>
      (let ko_category := py_get (raw_metadata ko_metadata) "ko-category" in
       ko_result ← publish_post (title ko_metadata) (content ko_metadata) "ko"
                     (Some (ko_file p)) (ko_existing_id p) ko_category;
       if negb (success ko_result) then
         _ ← with_counters count_failed; mret None
       else
         let ko_post_id := result_post_id ko_result in
         _ ← with_counters (count_ko (ko_existing_id p));
         _ ← save_step (ko_file p) "wp-post-id" ko_post_id;
         _ ← cover_step ko_post_id (ko_file p);
         mret (Some ko_post_id)) st
  end.

(** Steps 2 and 3, for the English file [e] of the pair. *)
Definition publish_en (p : pair) (e : string) (ko_post_id : pyval)
  : Run unit := λ st,
  match parse_markdown_file (store st) e with
  | None => (Raised, st)   (* [en_metadata.get] on [None] *)
  | Some en_metadata =>
      (let en_category := py_get (raw_metadata en_metadata) "en-category" in
       en_result ← publish_post (title en_metadata) (content en_metadata) "en"
                     (Some e) (en_existing_id p) en_category;
       if negb (success en_result) then with_counters count_failed
       else
         let en_post_id := result_post_id en_result in
         _ ← with_counters (count_en (en_existing_id p));
         _ ← save_step e "wp-post-id" en_post_id;
         _ ← cover_step en_post_id e;
         linked ← link_translations ko_post_id en_post_id;
         if linked : bool then with_counters count_linked
         else with_counters count_failed) st
  end.

(** The body of [for pair in pairs]. *)
Definition process_pair (p : pair) : Run unit :=
  ko ← publish_ko p;
  match ko with
  | None => mret ()
  | Some ko_post_id =>
      match en_file p with
      | Some e => if path_truthy (en_file p) then publish_en p e ko_post_id
                  else mret ()
      | None => mret ()
      end
  end.

Fixpoint process_loop (pairs : list pair) : Run unit :=
  match pairs with
  | [] => mret ()
  | p :: rest => _ ← process_pair p; process_loop rest
  end.

(** [process_pairs]: the counters it prints at the end are its result. *)
Definition process_pairs (pairs : list pair) : Run stats := λ st,
  (_ ← process_loop pairs; read_counters)
    {| store := store st; trace := trace st;
       counters := initial_stats (length pairs) |}.
End reconciler.

(** ** A small front-matter codec for worked examples

    Lines [key=value] up to a line [---], then the body; a line that
    starts with [#] is a comment and is dropped on reading, as YAML
    comments are.  [~] is [None], [true] and [false] are the booleans, a
    decimal numeral is an integer and anything else a string. *)

Module Toy.

Definition newline : ascii := "010".

(** [split c s]: the pieces of [s] between occurrences of [c]. *)
Fixpoint split (c : ascii) (s : string) : list string :=
  match s with
  | "" => [""]
  | String a s' =>
      if Ascii.eqb a c then "" :: split c s'
      else match split c s' with
           | piece :: rest => String a piece :: rest
           | [] => [String a ""]
           end
  end.

Definition unsplit (c : ascii) (l : list string) : string :=
  match l with
  | [] => ""
  | x :: l' => fold_left (λ acc y, acc +:+ String c y) l' x
  end.

Definition read_value (v : string) : pyval :=
  if String.eqb v "~" then PNone
  else if String.eqb v "true" then PBool true
  else if String.eqb v "false" then PBool false
  else match NilZero.int_of_string v with
       | Some i => PInt (Z.of_int i)
       | None => PStr v
       end.

Definition show_value (v : pyval) : string :=
  match v with
  | PNone => "~"
  | PBool true => "true"
  | PBool false => "false"
  | PInt z => NilZero.string_of_int (Z.to_int z)
  | PStr s => s
  end.

Definition read_line (l : string) : option (string * pyval) :=
  match split "=" l with
  | k :: v :: rest => Some (k, read_value (unsplit "=" (v :: rest)))
  | _ => None
  end.

Fixpoint read_front (ls : list string) (acc : gmap string pyval)
  : option post :=
  match ls with
  | [] => None
  | l :: ls' =>
      if String.eqb l "---" then
        Some {| post_metadata := acc; post_content := unsplit newline ls' |}
      else if Path.startswith "#" l then read_front ls' acc
      else match read_line l with
           | Some (k, v) => read_front ls' (<[k := v]> acc)
           | None => None
           end
  end.

Definition loads (text : string) : option post :=
  read_front (split newline text) ∅.

Definition dumps (p : post) : option string :=
  Some (unsplit newline
          (map (λ kv, kv.1 +:+ "=" +:+ show_value kv.2)
               (map_to_list (post_metadata p))
           ++ ["---"; post_content p])).

Definition frontmatter : Frontmatter :=
  {| fm_loads := loads; fm_dumps := dumps; markdown_to_html := λ s, s |}.

(** Text of a document from its front-matter lines. *)
Definition doc (front : list string) (body : string) : string :=
  unsplit newline (front ++ ["---"; body]).

(** A disk on which nothing goes wrong. *)
Definition sound_disk : disk :=
  {| read_raises := false; tmp_random := Some "k3x9";
     tmp_write := WriteDone; reread_raises := false;
     unlink_raises := false; cleanup_raises := false;
     move_raises := false |}.

(** How many posts the events so far have asked to create. *)
Definition created_so_far (tr : list event) : nat :=
  length (List.filter creates_post tr).

Definition answer (code : Z) (fields : list (string * pyval)) : option response :=
  Some {| status_code := code; body := Some (JObject (list_to_map fields)) |}.

(** A gateway on which nothing goes wrong: new posts get the ids 101,
    102, ...; an update answers with the id it was sent to. *)
Definition sound_server (tr : list event) (r : request) : option response :=
  match req_url r with
  | Posts => answer 201 [("id", PInt (101 + Z.of_nat (created_so_far tr)))]
  | PostNo post_id => answer 200 [("id", post_id)]
  | SetLanguage => answer 200 []
  | LinkTranslations => answer 200 [("success", PBool true)]
  | _ => answer 404 []
  end.

Definition sound : Environment :=
  {| server := sound_server; disk_now := λ _, sound_disk |}.

(** A gateway that answers every request with the same status. *)
Definition always (code : Z) : Environment :=
  {| server := λ _ _, answer code [("id", PInt 7)];
     disk_now := λ _, sound_disk |}.

Definition start (w : world) : run :=
  {| store := w; trace := []; counters := initial_stats 0 |}.

(** A gateway that refuses the English posts and is sound otherwise. *)
Definition english_refused : Environment :=
  {| server := λ tr r,
       match req_body r with
       | PostData _ _ "en" _ _ => answer 500 [("message", PStr "no")]
       | _ => sound_server tr r
       end;
     disk_now := λ _, sound_disk |}.



(** A disk that loses all but the first ten characters of what is
    written, without an error. *)
Definition lossy_disk : disk :=
  {| read_raises := false; tmp_random := Some "k3x9";
     tmp_write := λ s, WriteDone (String.substring 0 10 s);
     reread_raises := false;
     unlink_raises := false; cleanup_raises := false;
     move_raises := false |}.

(** A vault: a Korean chapter with an English sibling of the same name
    and, elsewhere, an English file of the same group; a file that is
    not to be published; a drafts folder, a hidden file and a text file
    that discovery leaves out. *)
Definition vault_tree : entry :=
  Dir "vault"
    [ File "notes.txt"; File ".hidden.md";
      Dir "w" [Dir "en" [File "b.md"]];
      Dir "v" [File "c.md"; File "a.md"; Dir "english" [File "a.md"]];
      Dir "drafts" [File "d.md"] ].

Definition vault : world :=
  {| files := list_to_map
       [ ("/vault/v/a.md", doc ["publish=true"; "group-id=g"] "A");
         ("/vault/v/c.md", doc ["publish=false"] "C");
         ("/vault/v/english/a.md", doc ["publish=true"] "A en");
         ("/vault/w/en/b.md", doc ["publish=true"; "group-id=g"] "B en");
         ("/vault/drafts/d.md", doc ["publish=true"] "D") ];
     dirs := {["/vault"; "/vault/v"; "/vault/v/english"; "/vault/w";
               "/vault/w/en"; "/vault/drafts"]} |}.

(** A vault in which [k2.md] names, as its mirror, the post of the
    Korean file [k1.md]. *)
Definition mirror_tree : entry := Dir "vault" [File "k2.md"; File "k1.md"].

Definition mirror_vault : world :=
  {| files := list_to_map
       [ ("/vault/k1.md", doc ["publish=true"; "wp-post-id=5"] "K1");
         ("/vault/k2.md", doc ["publish=true"; "mirror_post_id=5"] "K2") ];
     dirs := {["/vault"]} |}.

(** A vault with one document whose front matter carries a comment of
    more than a hundred characters. *)
Definition long_comment : string :=
  "# this front matter carries a long comment that the serializer drops when the metadata is written back to the document file".

Definition comment_tree : entry := Dir "vault" [File "a.md"].

Definition comment_vault : world :=
  {| files := list_to_map
       [ ("/vault/a.md", doc [long_comment; "publish=true"] "A") ];
     dirs := {["/vault"]} |}.

(** What the files of the vaults are read as, and pairs made of them. *)
Definition vault_a : metadata :=
  {| title := PStr "a"; publish := PBool true; language := PStr "ko";
     wp_post_id := PNone; mirror_post_id := PNone; group_id := PStr "g";
     raw_metadata := list_to_map [("publish", PBool true); ("group-id", PStr "g")];
     content := "A" |}.

Definition mirror_k1 : metadata :=
  {| title := PStr "k1"; publish := PBool true; language := PStr "ko";
     wp_post_id := PInt 5; mirror_post_id := PNone; group_id := PNone;
     raw_metadata := list_to_map [("publish", PBool true); ("wp-post-id", PInt 5)];
     content := "K1" |}.

Definition mirror_k2 : metadata :=
  {| title := PStr "k2"; publish := PBool true; language := PStr "ko";
     wp_post_id := PNone; mirror_post_id := PInt 5; group_id := PNone;
     raw_metadata := list_to_map [("publish", PBool true); ("mirror_post_id", PInt 5)];
     content := "K2" |}.

Definition vault_pair : pair :=
  {| pair_title := PStr "a"; ko_file := "/vault/v/a.md";
     en_file := Some "/vault/w/en/b.md";
     ko_existing_id := PNone; en_existing_id := PNone |}.

Definition lone_pair : pair :=
  {| pair_title := PStr "d"; ko_file := "/vault/drafts/d.md";
     en_file := None; ko_existing_id := PNone; en_existing_id := PNone |}.

(** A first run on a vault, from discovery to the end of the loop, and
    a second run started where the first has ended. *)
Definition first_run (w : world) (tree : entry) : run :=
  (@process_pairs frontmatter sound
     (@collect_language_pairs frontmatter w tree "/vault") (start w)).2.

Definition second_run (w : world) (tree : entry) : run :=
  let st1 := first_run w tree in
  (@process_pairs frontmatter sound
     (@collect_language_pairs frontmatter (store st1) tree "/vault") st1).2.

End Toy.

(** ** Notions for the accounts of a run *)

(** The calls of [save_metadata_to_file] among some events: the file,
    the key and the value of each, in order. *)
Definition saved_in (evs : list event) : list (string * string * pyval) :=
  flat_map (λ ev, match ev with
                  | Saved file_path key value _ => [(file_path, key, value)]
                  | Sent _ _ => []
                  end) evs.

(** A request to [link-translations]. *)
Definition is_link (ev : event) : bool :=
  match ev with
  | Sent {| req_url := LinkTranslations |} _ => true
  | _ => false
  end.

(** A request, and not one to [link-translations]. *)
Definition plain_send (ev : event) : bool := is_send ev && negb (is_link ev).

(** A computation that leaves store and counters alone and adds only
    events that pass the test [P]. *)
Definition only_adds (P : event → bool) {A} (m : Run A) : Prop :=
  ∀ st, ∃ evs,
    (m st).2 = {| store := store st; trace := trace st ++ evs;
                  counters := counters st |} ∧
    forallb P evs = true.

(** A computation that never lets an exception escape. *)
Definition returns {A} (m : Run A) : Prop :=
  ∀ st, (m st).1 ≠ Raised.

(** [stats['thumbnail_set'] += 1], or not. *)
Definition thumbs (ok : bool) (c : stats) : stats :=
  if ok then count_thumbnail c else c.

(** Posts published, of either language, as the counters have them. *)
Definition ko_done (c : stats) : nat := ko_created c + ko_updated c.
Definition en_done (c : stats) : nat := en_created c + en_updated c.

(** Pairs whose Korean (English) post is to be created: no id is known. *)
Definition ko_new (p : pair) : bool := negb (truthy (ko_existing_id p)).
Definition en_new (p : pair) : bool :=
  path_truthy (en_file p) && negb (truthy (en_existing_id p)).
(** What a run over the pairs [ps] that returns has added to the
    counters, from [c] to [c'], and to the events, [evs]. *)
Record tallies (ps : list pair) (c c' : stats) (evs : list event) : Prop := {
  tally_total : total c' = total c;
  tally_linked : (linked c' + en_done c ≤ en_done c' + linked c)%nat;
  tally_en : (en_done c' + ko_done c ≤ ko_done c' + en_done c)%nat;
  tally_ko : (ko_done c' ≤ ko_done c + length ps)%nat;
  tally_one : (failed c' + linked c' ≤ failed c + linked c + length ps)%nat;
  tally_all : (length ps + en_done c' + ko_done c + linked c + failed c
              ≤ ko_done c' + linked c' + failed c' + en_done c)%nat;
  tally_thumbnail : (thumbnail_set c' + ko_done c + en_done c
                    ≤ thumbnail_set c + ko_done c' + en_done c')%nat;
  tally_ko_created :
    (ko_created c' ≤ ko_created c + length (List.filter ko_new ps))%nat;
  tally_ko_updated :
    (ko_updated c' ≤ ko_updated c + length (List.filter (λ p, negb (ko_new p)) ps))%nat;
  tally_en_created :
    (en_created c' ≤ en_created c + length (List.filter en_new ps))%nat;
  tally_en_updated :
    (en_updated c' ≤ en_updated c
                    + length (List.filter (λ p, path_truthy (en_file p) && negb (en_new p)) ps))%nat;
  tally_grow :
    (ko_created c ≤ ko_created c' ∧ ko_updated c ≤ ko_updated c' ∧
     en_created c ≤ en_created c' ∧ en_updated c ≤ en_updated c' ∧
     linked c ≤ linked c' ∧ failed c ≤ failed c' ∧
     thumbnail_set c ≤ thumbnail_set c')%nat;
  tally_saved :
    length (saved_in evs) + ko_done c + en_done c = ko_done c' + en_done c';
  tally_links :
    length (List.filter is_link evs) + en_done c = en_done c';
  tally_keys :
    ∀ file_path key value, (file_path, key, value) ∈ saved_in evs →
      key = "wp-post-id" ∧ file_path ∈ docs_of ps
}.
(** ** Notions for what a run does to the store and how it can stop *)

(** From [w] to [w'] no file has appeared or gone, no directory either,
    and only files among [docs] may have another text. *)
Definition rewrites_only (docs : list string) (w w' : world) : Prop :=
  dirs w' = dirs w ∧
  ∀ f, (is_Some (files w' !! f) ↔ is_Some (files w !! f)) ∧
       (f ∉ docs → files w' !! f = files w !! f).

(** A computation that, when it returns, has rewritten files among
    [docs] at most. *)
Definition touches (docs : list string) {A} (m : Run A) : Prop :=
  ∀ st a st', m st = (Returned a, st') → rewrites_only docs (store st) (store st').

(** A category name on which [category_name.strip()] raises: it passes
    [if category_name:] and is not a string. *)
Definition bad_category (category_name : pyval) : bool :=
  truthy category_name &&
  match category_name with PStr _ => false | _ => true end.

(** A document the loop body cannot work on: [parse_markdown_file]
    returns [None] for it, or its category is not a string. *)
Definition unusable `{Frontmatter} (w : world) (file_path category_key : string)
  : Prop :=
  match parse_markdown_file w file_path with
  | None => True
  | Some m => bad_category (py_get (raw_metadata m) category_key) = true
  end.

(** The run has stopped in a call of [save_metadata_to_file] on
    [file_path] out of which an exception came, the handler's own
    [os.unlink] having failed. *)
Definition save_escapes `{Environment} (file_path : string) (st : run) : Prop :=
  ∃ tr value,
    trace st = tr ++ [Saved file_path "wp-post-id" value Raised] ∧
    cleanup_raises (disk_now tr) = true.
(** ** Notions for the publisher and the cover image *)

(** The requests of [get_or_create_category], [link_translations] and
    [set_featured_image]. *)
Definition category_search (name : string) : request :=
  {| req_method := GET; req_url := CategorySearch name; req_body := NoBody |}.
Definition category_create (name : string) : request :=
  {| req_method := POST; req_url := Categories; req_body := CategoryData name |}.
Definition link_request (ko_post_id en_post_id : pyval) : request :=
  {| req_method := POST; req_url := LinkTranslations;
     req_body := LinkData ko_post_id en_post_id |}.
Definition media_upload (file_path : string) : request :=
  {| req_method := POST; req_url := Media; req_body := ImageFile file_path |}.
Definition media_attach (post_id media_id : pyval) : request :=
  {| req_method := POST; req_url := PostNo post_id;
     req_body := FeaturedMedia media_id |}.

(** [category_name.strip() == ''] *)
Definition blank (name : string) : bool :=
  forallb py_isspace (Path.chars name).

(** A search that was answered and has found no category: any status
    but 200, or an empty list (or object) as the body. *)
Definition found_nothing (found : option response) : Prop :=
  ∃ r, found = Some r ∧
       (status_code r ≠ 200%Z ∨ body r = Some (JArray []) ∨ body r = Some (JObject ∅)).

(** The paths [find_cover_image] looks at, in the order it looks at
    them: the folder of the document first, its parent afterwards. *)
Definition cover_candidates (file_path : string) : list string :=
  let covers folder :=
    map (λ ext, Path.join folder ("cover" +:+ ext)) cover_extensions in
  let current_folder := Path.dirname file_path in
  let parent_folder := Path.dirname current_folder in
  covers current_folder ++
  (if String.eqb parent_folder current_folder then [] else covers parent_folder).

(** Every request to [link-translations] among the events carries two
    ids with which [save_metadata_to_file] was called among the same
    events: the first for the Korean file and the second for the English
    file of one of the pairs. *)
Definition links_follow_saves (ps : list pair) (evs : list event) : Prop :=
  ∀ ev, ev ∈ evs → is_link ev = true →
    ∃ p e ko_post_id en_post_id answer,
      ev = Sent (link_request ko_post_id en_post_id) answer ∧
      p ∈ ps ∧ en_file p = Some e ∧
      (ko_file p, "wp-post-id", ko_post_id) ∈ saved_in evs ∧
      (e, "wp-post-id", en_post_id) ∈ saved_in evs.

(** ** Further material for worked examples *)

Module Cases.

(** A pair whose Korean file is not in the vault. *)
Definition gone_pair : pair :=
  {| pair_title := PStr "z"; ko_file := "/vault/z.md"; en_file := None;
     ko_existing_id := PNone; en_existing_id := PNone |}.

(** A vault in which only the folder layout binds the two languages: a
    chapter with an English sibling that has been published, and a
    chapter without one. *)
Definition sibling_tree : entry :=
  Dir "vault" [Dir "v" [File "c.md"; File "a.md"; Dir "english" [File "a.md"]]].

Definition sibling_vault : world :=
  {| files := list_to_map
       [ ("/vault/v/a.md", Toy.doc ["publish=true"] "A");
         ("/vault/v/c.md", Toy.doc ["publish=true"] "C");
         ("/vault/v/english/a.md", Toy.doc ["publish=true"; "wp-post-id=9"] "A en") ];
     dirs := {["/vault"; "/vault/v"; "/vault/v/english"]} |}.

(** A pair of documents whose front matter carries a long comment: the
    text that would be written back is too short for the check, so that
    no id can be saved in them. *)
Definition unsaved_vault : world :=
  {| files := list_to_map
       [ ("/vault/a.md", Toy.doc [Toy.long_comment; "publish=true"] "A");
         ("/vault/en/a.md", Toy.doc [Toy.long_comment; "publish=true"] "A en") ];
     dirs := {["/vault"; "/vault/en"]} |}.

Definition unsaved_pair : pair :=
  {| pair_title := PStr "a"; ko_file := "/vault/a.md";
     en_file := Some "/vault/en/a.md";
     ko_existing_id := PNone; en_existing_id := PNone |}.

Definition sibling_a : metadata :=
  {| title := PStr "a"; publish := PBool true; language := PStr "ko";
     wp_post_id := PNone; mirror_post_id := PNone; group_id := PNone;
     raw_metadata := list_to_map [("publish", PBool true)];
     content := "A" |}.

End Cases.

(** ** Wiki links ([convert_wiki_links])

    [re.sub] with the two patterns of the function.  Neither pattern
    leaves the matcher a choice: after [\[\[] the class [[^\|]+] (or
    [[^\]]+]) takes every character up to the first [|] (or []]), and
    giving one back would put a character of the class where the
    pattern wants the delimiter.  So an attempt at a position either
    matches in one way or fails, and [re.sub] goes through the text from
    left to right, replacing a match and going on behind it. *)

Module Wiki.

Definition quote : ascii := "034".

Definition not_pipe (c : ascii) : bool := negb (Ascii.eqb c "|").
Definition not_close (c : ascii) : bool := negb (Ascii.eqb c "]").
Definition not_open (c : ascii) : bool := negb (Ascii.eqb c "[").

(** The templates [<a href="#\1">\2</a>] and [<a href="#\1">\1</a>]. *)
Definition anchor (target label : list ascii) : list ascii :=
  Path.chars "<a href=" ++ [quote] ++ Path.chars "#" ++ target ++ [quote]
  ++ Path.chars ">" ++ label ++ Path.chars "</a>".

(** One attempt of [\[\[([^\|]+)\|([^\]]+)\]\]] at the start of [s]:
    the replacement and the number of characters matched. *)
Definition match_piped (s : list ascii) : option (list ascii * nat) :=
  if Path.starts_with (Path.chars "[[") s then
    let s1 := drop 2 s in
    let g1 := Path.take_while not_pipe s1 in
    let r1 := Path.drop_while not_pipe s1 in
    if bool_decide (g1 = []) then None
    else if Path.starts_with (Path.chars "|") r1 then
      let s2 := drop 1 r1 in
      let g2 := Path.take_while not_close s2 in
      let r2 := Path.drop_while not_close s2 in
      if bool_decide (g2 = []) then None
      else if Path.starts_with (Path.chars "]]") r2
      then Some (anchor g1 g2, 2 + length g1 + 1 + length g2 + 2)
      else None
    else None
  else None.

(** One attempt of [\[\[([^\]]+)\]\]] at the start of [s]. *)
Definition match_plain (s : list ascii) : option (list ascii * nat) :=
  if Path.starts_with (Path.chars "[[") s then
    let s1 := drop 2 s in
    let g := Path.take_while not_close s1 in
    let r := Path.drop_while not_close s1 in
    if bool_decide (g = []) then None
    else if Path.starts_with (Path.chars "]]") r
    then Some (anchor g g, 2 + length g + 2)
    else None
  else None.

(** [re.sub]: [skip] characters of the last match are still to be
    passed over. *)
Fixpoint re_sub (attempt : list ascii → option (list ascii * nat))
    (skip : nat) (s : list ascii) : list ascii :=
  match s with
  | [] => []
  | c :: s' =>
      match skip with
      | S k => re_sub attempt k s'
      | O =>
          match attempt s with
          | Some (replacement, matched) =>
              replacement ++ re_sub attempt (matched - 1) s'
          | None => c :: re_sub attempt 0 s'
          end
      end
  end.

Definition convert (s : list ascii) : list ascii :=
  re_sub match_plain 0 (re_sub match_piped 0 s).

End Wiki.

Definition convert_wiki_links (html_content : string) : string :=
  Path.str (Wiki.convert (Path.chars html_content)).

(** [c not in s] for a character [c]. *)
Definition lacks (c : ascii) (s : string) : bool :=
  forallb (λ x, negb (Ascii.eqb x c)) (Path.chars s).

(** Text without the characters of the link syntax: [[], []] and [|]. *)
Definition no_markup (s : string) : bool :=
  lacks "[" s && lacks "]" s && lacks "|" s.

(** The anchor as a string. *)
Definition wiki_anchor (target label : string) : string :=
  Path.str (Wiki.anchor (Path.chars target) (Path.chars label)).

(** ** The language manager ([language_manager.py])

    [self.language_posts] is a dictionary from a language to a
    dictionary from file paths to post ids; the object is the value of
    that attribute, and a method that changes it returns the new value. *)

Definition language_posts : Type := list (pyval * list (string * pyval)).

(** [LanguageManager()] *)
Definition new_language_manager : language_posts :=
  [(PStr "ko", []); (PStr "en", [])].

(** [register_post] *)
Definition register_post (self : language_posts) (file_path : string)
    (language post_id : pyval) : language_posts :=
  let self1 :=
    if od_mem py_eqb self language then self else od_set py_eqb self language [] in
  od_set py_eqb self1 language
    (od_set String.eqb (default [] (od_get py_eqb self1 language)) file_path post_id).

(** [self.language_posts[language].get(file_path)], where the language
    is there. *)
Definition registered_id (self : language_posts) (language : pyval)
    (file_path : string) : pyval :=
  default PNone (od_get String.eqb (default [] (od_get py_eqb self language)) file_path).

Section language_manager.
Context `{Frontmatter}.

(** [link_mirror_posts]; [d_ko] and [d_en] are what the disk does during
    the first and the second call of [save_metadata_to_file].  A manager
    without the key ['ko'] or ['en'] raises [KeyError]. *)
Definition link_mirror_posts (d_ko d_en : disk) (self : language_posts)
    (fs : gmap string string) (ko_file_path en_file_path : string)
  : gmap string string * outcome bool :=
  match od_get py_eqb self (PStr "ko"), od_get py_eqb self (PStr "en") with
  | Some ko_posts, Some en_posts =>
      let ko_post_id := default PNone (od_get String.eqb ko_posts ko_file_path) in
      let en_post_id := default PNone (od_get String.eqb en_posts en_file_path) in
      if negb (truthy ko_post_id && truthy en_post_id) then (fs, Returned false)
      else
        let saved_ko :=
          save_metadata_to_file d_ko fs ko_file_path "mirror_post_id" en_post_id in
        match saved_ko.2 with
        | Raised => (saved_ko.1, Raised)
        | Returned ko_success =>
            let saved_en :=
              save_metadata_to_file d_en saved_ko.1 en_file_path "mirror_post_id"
                ko_post_id in
            match saved_en.2 with
            | Raised => (saved_en.1, Raised)
            | Returned en_success => (saved_en.1, Returned (ko_success && en_success))
            end
        end
  | _, _ => (fs, Raised)
  end.
End language_manager.

(** [find_mirror_file] *)
Definition find_mirror_file (w : world) (file_path : string)
    (target_language : pyval) : option string :=
  let file_name := Path.basename file_path in
  let file_dir := Path.dirname file_path in
  let mirror_path :=
    if py_eqb target_language (PStr "en") then
      Some (Path.join (Path.join file_dir "en") file_name)
    else if Path.endswith "/en" file_dir then
      Some (Path.join (Path.dirname file_dir) file_name)
    else None in
  match mirror_path with
  | Some p => if path_exists w p then Some p else None
  | None => None
  end.

(** A directory name as [os.path.dirname] returns it: slashes only, or
    without a slash at its end. *)
Definition settled (d : string) : bool :=
  forallb Path.is_sep (Path.chars d) || negb (Path.endswith "/" d).

(** The registrations made on a new manager, in order. *)
Definition registered (calls : list (string * pyval * pyval)) : language_posts :=
  fold_left (λ self call, register_post self call.1.1 call.1.2 call.2)
            calls new_language_manager.

(** Worked examples for the language manager and the command line. *)
Module Cases2.

(** A vault with a chapter and its mirror in the folder [en]. *)
Definition en_vault : world :=
  {| files := list_to_map
       [ ("/vault/v/a.md", Toy.doc ["publish=true"] "A");
         ("/vault/v/en/a.md", Toy.doc ["publish=true"] "A en") ];
     dirs := {["/vault"; "/vault/v"; "/vault/v/en"]} |}.

(** Two posts, as [publish_folder] registers them. *)
Definition two_posts : list (string * pyval * pyval) :=
  [ ("/vault/v/a.md", PStr "ko", PInt 101);
    ("/vault/w/en/b.md", PStr "en", PInt 102) ].

End Cases2.

(** ** The command line ([main])

    What the process finds around it is an input: the home directory
    behind [expanduser], the environment variables once [load_dotenv] has
    read the configuration file, and whether the log file can be opened.
    The two requests that probe the site before anything is published are
    sent like every other request: the environment answers them and they
    are recorded among the events of the run. *)

Record host : Type := {
  expanduser : string → string;      (* [os.path.expanduser] *)
  environ : gmap string string;      (* [os.environ] after [load_dotenv(config_file)] *)
  log_opens : string → bool          (* [logging.FileHandler(log_file)] opens the file *)
}.

(** [args] as [argparse] returns it. *)
Record arguments : Type := {
  folder : option string;            (* positional, [nargs='?'] *)
  config_path : string               (* [--config], default ['config.env'] *)
}.

Record config : Type := {
  WORDPRESS_URL : string;
  WORDPRESS_USERNAME : string;
  WORDPRESS_PASSWORD : string;
  LOG_FILE : string
}.

(** How [main] ends: it returns, [sys.exit(code)], or an exception. *)
Inductive ending : Type :=
  | Finished
  | Exited (code : Z)
  | Crashed.

(** [if not config[key]]: the variable is unset or empty. *)
Definition required (v : option string) : option string :=
  match v with
  | Some s => if String.eqb s "" then None else Some s
  | None => None
  end.

(** [load_config]; [None] stands for [sys.exit(1)]. *)
Definition load_config (h : host) (w : world) (config_file : string)
  : option config :=
  if negb (path_exists w config_file) then None
  else
    let getenv (key : string) := environ h !! key in
    match required (getenv "WORDPRESS_URL"),
          required (getenv "WORDPRESS_USERNAME"),
          required (getenv "WORDPRESS_PASSWORD") with
    | Some url, Some username, Some password =>
        Some {| WORDPRESS_URL := url;
                WORDPRESS_USERNAME := username;
                WORDPRESS_PASSWORD := password;
                LOG_FILE := default "logs/obsidian_to_wp.log" (getenv "LOG_FILE") |}
    | _, _, _ => None
    end.

(** [setup_logging]: the handler opens the log file for appending, which
    creates it when it is not there. *)
Definition setup_logging (log_file : string) (w : world) : world :=
  {| files := (match files w !! log_file with
               | Some _ => files w
               | None => <[log_file := ""]> (files w)
               end);
     dirs := dirs w |}.

(** The requests of [test_connection] and [test_polylang_endpoint]. *)
Definition connection_probe : request :=
  {| req_method := GET; req_url := PostsPage; req_body := NoBody |}.
Definition polylang_probe : request :=
  {| req_method := GET; req_url := PolylangPost; req_body := NoBody |}.

(** [response.status_code == 200], with an exception of [requests]
    caught as [False]. *)
Definition answered_200 (answer : option response) : bool :=
  match answer with
  | Some r => bool_decide (status_code r = 200%Z)
  | None => false
  end.

(** One of the two probes. *)
Definition is_probe (ev : event) : bool :=
  match ev with
  | Sent {| req_method := GET; req_url := PostsPage |} _ => true
  | Sent {| req_method := GET; req_url := PolylangPost |} _ => true
  | _ => false
  end.

(** The checks that [main] makes before it sends anything, with the
    folder [f] and the configuration [cfg] they yield. *)
Definition local_checks (h : host) (w : world) (args : arguments)
    (f : string) (cfg : config) : Prop :=
  folder args = Some f ∧ f ≠ "" ∧
  expanduser h f ∈ dirs w ∧
  path_exists w (config_path args) = true ∧
  environ h !! "WORDPRESS_URL" = Some (WORDPRESS_URL cfg) ∧
  WORDPRESS_URL cfg ≠ "" ∧
  environ h !! "WORDPRESS_USERNAME" = Some (WORDPRESS_USERNAME cfg) ∧
  WORDPRESS_USERNAME cfg ≠ "" ∧
  environ h !! "WORDPRESS_PASSWORD" = Some (WORDPRESS_PASSWORD cfg) ∧
  WORDPRESS_PASSWORD cfg ≠ "" ∧
  LOG_FILE cfg = default "logs/obsidian_to_wp.log" (environ h !! "LOG_FILE") ∧
  log_opens h (LOG_FILE cfg) = true.

Section command_line.
Context `{Frontmatter} `{Environment}.

(** [test_connection] and [test_polylang_endpoint]: success is an answer
    with status 200. *)
Definition test_connection : Run bool :=
  answer ← http connection_probe;
  mret (answered_200 answer).

Definition test_polylang_endpoint : Run bool :=
  answer ← http polylang_probe;
  mret (answered_200 answer).

(** What [main] does once the connection test has passed. *)
Definition publish_folder (tree : entry) (publish_folder_path : string)
  : Run unit :=
  usable ← test_polylang_endpoint;   (* a failure is only printed *)
  ((λ st,
     let pairs := collect_language_pairs (store st) tree publish_folder_path in
     match pairs with
     | [] => (Returned (), st)
     | _ :: _ => (_ ← process_pairs pairs; mret ()) st
     end) : Run unit).

(** [main]; [tree] is the directory tree found at the folder to publish. *)
Definition main (h : host) (tree : entry) (args : arguments) (st : run)
  : ending * run :=
  match folder args with
  | None => (Exited 1, st)
  | Some f =>
      if String.eqb f "" then (Exited 1, st)
      else
        let publish_folder_path := expanduser h f in
        if negb (bool_decide (publish_folder_path ∈ dirs (store st)))
        then (Exited 1, st)
        else
          match load_config h (store st) (config_path args) with
          | None => (Exited 1, st)
          | Some config =>
              if negb (log_opens h (LOG_FILE config)) then (Crashed, st)
              else
                let st1 := {| store := setup_logging (LOG_FILE config) (store st);
                              trace := trace st; counters := counters st |} in
                match test_connection st1 with
                | (Returned true, st2) =>
                    match publish_folder tree publish_folder_path st2 with
                    | (Returned _, st3) => (Finished, st3)
                    | (Raised, st3) => (Crashed, st3)
                    end
                | (Returned false, st2) => (Exited 1, st2)
                | (Raised, st2) => (Crashed, st2)
                end
          end
  end.
End command_line.

Module Cases3.

(** A host on which everything is in place, with a configuration file
    next to the vault. *)
Definition ready : host :=
  {| expanduser := λ p, p;
     environ := list_to_map [("WORDPRESS_URL", "http://localhost");
                             ("WORDPRESS_USERNAME", "admin");
                             ("WORDPRESS_PASSWORD", "secret")];
     log_opens := λ _, true |}.

Definition configured : world :=
  {| files := <["config.env" := "WORDPRESS_URL=http://localhost"]> (files Toy.vault);
     dirs := dirs Toy.vault |}.

Definition command : arguments :=
  {| folder := Some "/vault"; config_path := "config.env" |}.

(** A site that answers the connection test, has no Polylang connector
    (the second probe is answered with 404) and is sound otherwise. *)
Definition site : Environment :=
  {| server := λ tr r,
       match req_url r with
       | PostsPage => Toy.answer 200 []
       | _ => Toy.sound_server tr r
       end;
     disk_now := λ _, Toy.sound_disk |}.

End Cases3.

(* ================================================================== *)
(** * Part II: properties                                              *)
(* ================================================================== *)

Local Set Warnings "-clear-no-such-hyp".
Local Arguments Ascii.eqb : simpl never.
Local Arguments String.eqb : simpl never.

(** ** Paths *)

Example basename_ex : Path.basename "/v/book/ch1.md" = "ch1.md".
Proof. reflexivity. Qed.
Example dirname_ex : Path.dirname "/v/book/ch1.md" = "/v/book".
Proof. reflexivity. Qed.
Example dirname_root_ex : Path.dirname "/ch1.md" = "/".
Proof. reflexivity. Qed.
Example dirname_rel_ex : Path.dirname "ch1.md" = "".
Proof. reflexivity. Qed.
Example join_ex : Path.join (Path.join "/v/book" "english") "ch1.md" = "/v/book/english/ch1.md".
Proof. reflexivity. Qed.
Example join_abs_ex : Path.join "/v" "/w" = "/w".
Proof. reflexivity. Qed.
Example join_slash_ex : Path.join "/" "a.md" = "/a.md".
Proof. reflexivity. Qed.
Example stem_ex : Path.stem "/v/book/ch1.md" = "ch1".
Proof. reflexivity. Qed.
Example stem_hidden_ex : Path.stem "/v/.hidden" = ".hidden".
Proof. reflexivity. Qed.
Example stem_dot_ex : Path.stem "/v/a." = "a.".
Proof. reflexivity. Qed.

Section path_facts.
Import Path.

Lemma chars_app a b : chars (a +:+ b) = chars a ++ chars b.
Proof. induction a as [|c a IH]; simpl; [done|]. by rewrite <- IH. Qed.

Lemma str_chars s : str (chars s) = s.
Proof. apply string_of_list_ascii_of_string. Qed.

Lemma chars_str l : chars (str l) = l.
Proof. apply list_ascii_of_string_of_list_ascii. Qed.

Lemma chars_inj a b : chars a = chars b → a = b.
Proof. intros E. by rewrite <- (str_chars a), <- (str_chars b), E. Qed.

Lemma take_drop_while {A} (f : A → bool) l :
  take_while f l ++ drop_while f l = l.
Proof. induction l as [|x l IH]; simpl; [done|]. destruct (f x); simpl; congruence. Qed.

Lemma take_while_all {A} (f : A → bool) l r :
  forallb f l = true →
  match r with [] => True | x :: _ => f x = false end →
  take_while f (l ++ r) = l.
Proof.
  induction l as [|x l IH]; simpl; intros Hl Hr.
  - destruct r as [|y r]; simpl; [done|]. by rewrite Hr.
  - apply andb_true_iff in Hl as [-> Hl]. f_equal. by apply IH.
Qed.

Lemma forallb_rev {A} (f : A → bool) l : forallb f (rev l) = forallb f l.
Proof.
  induction l as [|x l IH]; simpl; [done|].
  rewrite forallb_app, IH. simpl. rewrite andb_true_r. apply andb_comm.
Qed.

Lemma starts_with_app pre l : starts_with pre (pre ++ l) = true.
Proof.
  induction pre as [|c pre IH]; simpl; [done|].
  by rewrite Ascii.eqb_refl, IH.
Qed.

Lemma starts_with_inv pre l :
  starts_with pre l = true → ∃ r, l = pre ++ r.
Proof.
  revert l. induction pre as [|c pre IH]; intros l; simpl.
  - intros _. by exists l.
  - destruct l as [|d l]; [done|]. intros [Hc Hp]%andb_true_iff.
    apply Ascii.eqb_eq in Hc as ->. destruct (IH _ Hp) as [r ->]. by exists r.
Qed.

Lemma has_sub_here needle hay :
  starts_with needle hay = true → has_sub needle hay = true.
Proof. intros E. destruct hay; simpl; by rewrite E. Qed.

Lemma has_sub_app needle a b : has_sub needle (a ++ needle ++ b) = true.
Proof.
  induction a as [|c a IH]; simpl.
  - apply has_sub_here, starts_with_app.
  - rewrite IH. apply orb_true_r.
Qed.

Lemma has_sub_inv needle hay :
  has_sub needle hay = true → ∃ a b, hay = a ++ needle ++ b.
Proof.
  induction hay as [|c hay IH]; simpl.
  - rewrite orb_false_r. intros [r ->]%starts_with_inv. by exists [], r.
  - intros [Hp|Hs]%orb_true_iff.
    + apply starts_with_inv in Hp as [r ->]. by exists [], r.
    + destruct (IH Hs) as (a & b & ->). by exists (c :: a), b.
Qed.

Lemma plain_not_abs n : plain_name n = true → startswith "/" n = false.
Proof.
  unfold plain_name, startswith. destruct (chars n) as [|c l]; simpl; [done|].
  intros [Hc _]%andb_true_iff. unfold is_sep in Hc.
  rewrite andb_true_r, Ascii.eqb_sym. by apply negb_true_iff.
Qed.

(** [join] puts a plain name behind a prefix that is empty or ends in a
    slash. *)
Lemma join_plain d n :
  plain_name n = true →
  ∃ x, chars (join d n) = x ++ chars n ∧
       match rev x with [] => True | c :: _ => is_sep c = true end.
Proof.
  intros Hn. unfold join. rewrite (plain_not_abs _ Hn).
  destruct (String.eqb_spec d "") as [->|Hd]; simpl.
  { by exists []. }
  destruct (endswith "/" d) eqn:He.
  - exists (chars d). rewrite chars_app. split; [done|].
    unfold endswith in He. simpl in He.
    destruct (rev (chars d)) as [|c l]; [done|].
    simpl in He. rewrite andb_true_r, Ascii.eqb_sym in He. done.
  - exists (chars d ++ ["/"%char]). rewrite !chars_app. simpl.
    rewrite <- app_assoc. split; [done|]. by rewrite rev_app_distr.
Qed.

Lemma basename_join d n : plain_name n = true → basename (join d n) = n.
Proof.
  intros Hn. destruct (join_plain d n Hn) as (x & E & Hx).
  unfold basename, tail_part. rewrite E, rev_app_distr.
  rewrite take_while_all.
  - by rewrite rev_involutive, str_chars.
  - unfold plain_name in Hn. by rewrite forallb_rev.
  - destruct (rev x); [done|]. by rewrite Hx.
Qed.

Lemma head_tail p : head_part p ++ tail_part p = p.
Proof.
  unfold head_part, tail_part. rewrite <- rev_app_distr, take_drop_while.
  apply rev_involutive.
Qed.

Lemma take_while_forallb {A} (f : A → bool) l : forallb f (take_while f l) = true.
Proof. induction l as [|x l IH]; simpl; [done|]. destruct (f x) eqn:E; simpl; [by rewrite E|done]. Qed.

Lemma basename_plain p : plain_name (basename p) = true.
Proof.
  unfold plain_name, basename. rewrite chars_str.
  unfold tail_part. rewrite forallb_rev. apply take_while_forallb.
Qed.

(** The head is the directory name followed by slashes only. *)
Lemma dirname_head p :
  ∃ ss, head_part (chars p) = chars (dirname p) ++ ss ∧ forallb is_sep ss = true.
Proof.
  unfold dirname. destruct (forallb is_sep (head_part (chars p))) eqn:E.
  - exists []. by rewrite chars_str, app_nil_r.
  - exists (rev (take_while is_sep (rev (head_part (chars p))))).
    rewrite chars_str. unfold rstrip_sep. split.
    + rewrite <- rev_app_distr, take_drop_while. by rewrite rev_involutive.
    + rewrite forallb_rev. apply take_while_forallb.
Qed.

Lemma join_english d :
  ∃ e1, chars (join d "english") = chars d ++ e1 ++ chars "h" ∧
        existsb (λ c, negb (is_sep c)) e1 = true.
Proof.
  unfold join. change (startswith "/" "english") with false. cbv iota.
  destruct (String.eqb d "" || endswith "/" d).
  - exists (chars "englis"). by rewrite chars_app.
  - exists (chars "/englis"). by rewrite !chars_app.
Qed.

Lemma english_folder_nonempty d : join d "english" ≠ "".
Proof.
  intros E0. apply (f_equal chars) in E0.
  destruct (join_english d) as (e1 & He & _). rewrite He in E0.
  by destruct (chars d), e1.
Qed.

Lemma join_nonempty a b : a ≠ "" → join a b ≠ "".
Proof.
  intros Ha. unfold join. destruct (startswith "/" b) eqn:Hb.
  - intros ->. done.
  - destruct a as [|c a]; [done|]. by destruct (_ || _).
Qed.

(** The English sibling of a file is another file. *)
Lemma english_sibling_ne k :
  join (join (dirname k) "english") (basename k) ≠ k.
Proof.
  intros E. apply (f_equal chars) in E.
  destruct (join_english (dirname k)) as (e1 & He & Hne).
  pose proof (basename_plain k) as Hb.
  unfold join at 1 in E. rewrite (plain_not_abs _ Hb) in E.
  assert (String.eqb (join (dirname k) "english") "" = false) as Hnonempty
    by apply String.eqb_neq, english_folder_nonempty.
  assert (endswith "/" (join (dirname k) "english") = false) as Hend.
  { unfold endswith. rewrite He, !rev_app_distr. done. }
  rewrite Hnonempty, Hend in E. simpl in E.
  rewrite !chars_app, He in E.
  destruct (dirname_head k) as (ss & Hh & Hss).
  pose proof (head_tail (chars k)) as Hk. rewrite Hh in Hk.
  assert (chars (basename k) = tail_part (chars k)) as Hbase
    by (unfold basename; apply chars_str).
  rewrite Hbase in E. clear Hbase.
  remember (tail_part (chars k)) as t eqn:Ht. clear Ht.
  rewrite <- Hk in E. clear Hk.
  rewrite <- !app_assoc in E. apply app_inv_head in E.
  rewrite !app_assoc in E. apply app_inv_tail in E. subst ss.
  rewrite !forallb_app in Hss. apply andb_true_iff in Hss as [[_ Hss]%andb_true_iff _].
  done.
Qed.
End path_facts.

(** ** Document discovery *)

Lemma entry_nested_ind (P : entry → Prop) :
  (∀ n, P (File n)) →
  (∀ n children, Forall P children → P (Dir n children)) →
  ∀ e, P e.
Proof.
  intros HF HD. fix IH 1. intros [n|n children]; [apply HF|].
  apply HD. induction children as [|c children IHc]; constructor; [apply IH|apply IHc].
Qed.

Section discovery.
Variable exclude_folders : list string.

Lemma markdown_in_located root children :
  markdown_in root children =
  map (path_under root)
      (filter (reachable exclude_folders) (map (λ n, ([], n)) (file_names children))).
Proof.
  unfold markdown_in. induction (file_names children) as [|n l IH]; [done|].
  simpl. rewrite !filter_cons. simpl.
  destruct (decide (is_markdown_name n = true)) as [Hn|Hn].
  - rewrite decide_True by (split; [done|constructor]). simpl. by rewrite IH.
  - rewrite decide_False by (intros [? _]; done). done.
Qed.

Lemma filter_reachable_cons d l :
  filter (reachable exclude_folders) (map (λ x : list string * string, (d :: x.1, x.2)) l) =
  if bool_decide (d ∈ exclude_folders) then []
  else map (λ x, (d :: x.1, x.2)) (filter (reachable exclude_folders) l).
Proof.
  induction l as [|x l IH]; simpl.
  - by destruct (bool_decide _).
  - rewrite !filter_cons, IH. unfold reachable at 1 3. simpl.
    case_bool_decide as Hd.
    + rewrite decide_False; [done|]. intros [_ Hf]. by inversion Hf.
    + destruct (decide (reachable exclude_folders x)) as [[H1 H2]|Hn].
      * rewrite decide_True by (split; [done|by constructor]). done.
      * rewrite decide_False; [done|]. intros [H1 H2]. apply Hn.
        split; [done|]. by inversion H2.
Qed.

(** The walk returns the reachable files, in the order of the listing. *)
Lemma walk_located e : ∀ root,
  walk exclude_folders root e =
  map (path_under root) (filter (reachable exclude_folders) (located e)).
Proof.
  induction e as [n|n children IH] using entry_nested_ind; intros root; [done|].
  simpl. rewrite filter_app, map_app, <- markdown_in_located. f_equal.
  clear n. induction IH as [|c children Hc _ IHl]; [done|].
  simpl. rewrite filter_app, map_app, IHl. f_equal.
  destruct c as [d|d cs]; [done|].
  rewrite filter_reachable_cons. case_bool_decide; [done|].
  rewrite Hc, !map_map. done.
Qed.

Lemma relisted_kind e e' :
  relisted e e' →
  match e, e' with
  | File n, File n' => n = n'
  | Dir d _, Dir d' _ => d = d'
  | _, _ => False
  end.
Proof.
  induction 1 as [[]| | |e1 e2 e3 _ IH1 _ IH2]; try done.
  destruct e1, e2, e3; naive_solver.
Qed.

Lemma relisted_walk e e' :
  relisted e e' →
  ∀ root, walk exclude_folders root e ≡ₚ walk exclude_folders root e'.
Proof.
  induction 1 as [e|n l1 a b l2|n l1 c c' l2 Hc IH|e1 e2 e3 _ IH1 _ IH2];
    intros root.
  - done.
  - assert (l1 ++ a :: b :: l2 ≡ₚ l1 ++ b :: a :: l2) as Hp.
    { apply Permutation_app; [done|]. apply perm_swap. }
    simpl. unfold markdown_in, file_names. apply Permutation_app.
    + apply Permutation_map, filter_Permutation, Permutation_flat_map, Hp.
    + apply Permutation_flat_map, Hp.
  - simpl. apply relisted_kind in Hc as Hk.
    assert (∀ {B} (f : entry → list B) l, flat_map f (l1 ++ l) = flat_map f l1 ++ flat_map f l) as Happ.
    { intros B f l. induction l1 as [|x l1' IHl]; simpl; [done|]. by rewrite IHl, app_assoc. }
    apply Permutation_app.
    + unfold markdown_in, file_names. rewrite !Happ. simpl.
      destruct c, c'; try done. by subst.
    + rewrite !Happ. simpl. apply Permutation_app; [done|].
      apply Permutation_app; [|done].
      destruct c as [|d cs], c' as [|d' cs']; try done. subst d'.
      case_bool_decide; [done|]. apply IH.
  - etrans; [apply IH1|apply IH2].
Qed.

Lemma sorted_unique l1 l2 : l1 ≡ₚ l2 → sorted l1 = sorted l2.
Proof.
  intros Hp. unfold sorted.
  apply (Sorted_unique String.le); try apply Sorted_merge_sort; try apply _.
  by rewrite !merge_sort_Permutation.
Qed.

Lemma located_plain e :
  plain_files e = true → ∀ x, x ∈ located e → plain_name x.2 = true.
Proof.
  induction e as [n|n children IH] using entry_nested_ind; [by intros _ x ?%elem_of_nil|].
  simpl. intros Hp x [Hx|Hx]%elem_of_app.
  - apply list_elem_of_In, in_map_iff in Hx as (f & <- & Hf). simpl.
    unfold file_names in Hf. apply in_flat_map in Hf as (c & Hc & Hf).
    rewrite forallb_forall in Hp. specialize (Hp c Hc).
    destruct c; simpl in Hf; [|done]. destruct Hf as [->|[]]. done.
  - apply list_elem_of_In, in_flat_map in Hx as (c & Hc & Hx).
    rewrite forallb_forall in Hp. specialize (Hp c Hc).
    rewrite Forall_forall in IH. apply list_elem_of_In in Hc.
    specialize (IH c Hc Hp).
    destruct c as [|d cs]; [done|].
    apply in_map_iff in Hx as (y & <- & Hy). simpl.
    apply IH. by apply list_elem_of_In.
Qed.
End discovery.

(** C8. [get_markdown_files] returns its paths in lexicographic order;
    a path is returned exactly when it is the path of a file of the tree
    whose name ends in [.md] and does not start with a dot and that is
    reached from the walked folder through directories none of which is
    named in the exclusion list (by default [templates], [drafts] and
    [.obsidian]); the basename of every returned path therefore ends in
    [.md] and does not start with a dot; and the result depends on the
    tree only, not on the order in which directories list their entries. *)
Theorem get_markdown_files_spec tree folder_path exclude_folders :
  let excluded := default ["templates"; "drafts"; ".obsidian"] exclude_folders in
  let result := get_markdown_files tree folder_path exclude_folders in
  StronglySorted String.le result ∧
  (∀ p, p ∈ result ↔
        ∃ x, x ∈ located tree ∧ p = path_under folder_path x ∧
             is_markdown_name x.2 = true ∧ Forall (λ d, d ∉ excluded) x.1) ∧
  (plain_files tree = true →
   ∀ p, p ∈ result →
        Path.endswith ".md" (Path.basename p) = true ∧
        Path.startswith "." (Path.basename p) = false) ∧
  (∀ tree', relisted tree tree' →
            get_markdown_files tree' folder_path exclude_folders = result).
Proof.
  intros excluded result.
  assert (∀ p, p ∈ result ↔
        ∃ x, x ∈ located tree ∧ p = path_under folder_path x ∧
             is_markdown_name x.2 = true ∧ Forall (λ d, d ∉ excluded) x.1) as Hchar.
  { intros p. unfold result, get_markdown_files, sorted.
    rewrite merge_sort_Permutation, walk_located.
    rewrite list_elem_of_In, in_map_iff. split.
    - intros (x & <- & Hx). apply list_elem_of_In, list_elem_of_filter in Hx as [[H1 H2] Hx].
      by exists x.
    - intros (x & Hx & -> & H1 & H2). exists x. split; [done|].
      apply list_elem_of_In, list_elem_of_filter. by split. }
  split; [|split; [exact Hchar|split]].
  - apply StronglySorted_merge_sort; apply _.
  - intros Hplain p (x & Hx & -> & Hmd & _)%Hchar.
    unfold path_under. rewrite basename_join by (by eapply located_plain).
    unfold is_markdown_name in Hmd. apply andb_true_iff in Hmd as [H1 H2].
    split; [done|]. by apply negb_true_iff.
  - intros tree' Hre. unfold result, get_markdown_files. symmetry.
    by apply sorted_unique, relisted_walk.
Qed.

(** ** The metadata store *)

Section save_facts.
Context `{Frontmatter}.

(** The handler removes the temporary file or lets its own exception
    escape; it never touches another file. *)
Lemma save_handler_fresh d (fs : gmap string string) t s :
  fs !! t = None → t ≠ "" →
  save_handler d (<[t := s]> fs) (Some t) =
  if cleanup_raises d then (<[t := s]> fs, Raised) else (fs, Returned false).
Proof.
  intros Hfresh Ht. unfold save_handler.
  apply String.eqb_neq in Ht as ->. simpl.
  rewrite bool_decide_eq_true_2 by (rewrite lookup_insert_eq; eauto).
  destruct (cleanup_raises d); [done|]. by rewrite delete_insert_id.
Qed.

Lemma length_append a b :
  String.length (a +:+ b) = String.length a + String.length b.
Proof. induction a as [|c a IH]; simpl; [done|]. by rewrite <- IH. Qed.

Lemma temp_path_nonempty file_path r : temp_path file_path r ≠ "".
Proof.
  unfold temp_path, Path.join.
  assert (∀ a b, a +:+ String "t" b ≠ "") as Happ.
  { intros a b E. apply (f_equal String.length) in E.
    rewrite length_append in E. simpl in E. lia. }
  change ("tmp" +:+ r +:+ ".md") with (String "t" ("mp" +:+ r +:+ ".md")).
  destruct (Path.startswith _ _) eqn:E; [done|].
  destruct (_ || _).
  - apply Happ.
  - intros E'. apply (f_equal String.length) in E'.
    rewrite !length_append in E'. simpl in E'. lia.
Qed.

Lemma save_metadata_to_file_end d fs file_path key v :
  save_end d fs file_path key v (save_metadata_to_file d fs file_path key v).
Proof.
  unfold save_metadata_to_file.
  destruct (read_raises d) eqn:Hread; [constructor|].
  destruct (fs !! file_path) as [original_content|] eqn:Horig; [|constructor].
  destruct (fm_loads original_content) as [p|] eqn:Hload; [|constructor].
  destruct (fm_dumps (with_key p key v)) as [new_content|] eqn:Hdump; [|constructor].
  destruct (implausible original_content new_content) eqn:Hc1; [constructor|].
  destruct (tmp_random d) as [r|] eqn:Hr; [|constructor].
  case_bool_decide as Hfresh; [constructor|].
  assert (fs !! temp_path file_path r = None) as Hnone.
  { destruct (fs !! temp_path file_path r) eqn:E; [|done]. destruct Hfresh; eauto. }
  pose proof (temp_path_nonempty file_path r) as Hne.
  assert (∀ s, save_end d fs file_path key v
                 (save_handler d (<[temp_path file_path r := s]> fs)
                    (Some (temp_path file_path r)))) as Hhandler.
  { intros s. rewrite save_handler_fresh by done.
    destruct (cleanup_raises d) eqn:Hcl; [by eapply save_escaped|constructor]. }
  destruct (tmp_write d new_content) as [stored|stored] eqn:Hw; [|apply Hhandler].
  destruct (reread_raises d); [apply Hhandler|].
  destruct (implausible original_content stored) eqn:Hc2.
  { destruct (unlink_raises d); [apply Hhandler|].
    rewrite delete_insert_id by done. constructor. }
  destruct (move_raises d); [apply Hhandler|].
  rewrite delete_insert_id by done. by eapply save_replaced.
Qed.

Lemma save_end_untouched d fs file_path key v res :
  save_end d fs file_path key v res →
  res.2 ≠ Returned true → res.1 !! file_path = fs !! file_path.
Proof.
  destruct 1 as [|orig r s Ho Hr Hfresh Hcl|]; simpl; intros Hres; [done| |done].
  apply lookup_insert_ne. intros E. rewrite E in Hfresh. congruence.
Qed.

Lemma implausible_short original_content new_content :
  (Z.of_nat (String.length new_content)
     < Z.of_nat (String.length original_content) - 100)%Z →
  implausible original_content new_content = true.
Proof.
  intros Hlt. unfold implausible. apply orb_true_iff. right. by apply Z.ltb_lt.
Qed.

Lemma plausible_long original_content new_content :
  implausible original_content new_content = false →
  (Z.of_nat (String.length original_content) - 100
     ≤ Z.of_nat (String.length new_content))%Z.
Proof.
  unfold implausible. intros [_ Hlt]%orb_false_iff. apply Z.ltb_ge in Hlt. lia.
Qed.
End save_facts.


(** C7. With the original read and the updated metadata serialised,
    [save_metadata_to_file] returns [False], changing nothing, when the
    new text is shorter than the original by more than 100 characters; the
    text read back from the temporary file is held to the same bound
    before the move, so a short text on disk never replaces the original;
    and the call returns [True] only if both lengths are at least the
    original length minus 100. *)
Theorem save_metadata_to_file_length_checks `{Frontmatter}
    d fs file_path key v original_content p new_content :
  read_raises d = false →
  fs !! file_path = Some original_content →
  fm_loads original_content = Some p →
  fm_dumps (with_key p key v) = Some new_content →
  let res := save_metadata_to_file d fs file_path key v in
  let len s := Z.of_nat (String.length s) in
  ((len new_content < len original_content - 100)%Z →
   res = (fs, Returned false)) ∧
  (∀ stored,
     tmp_write d new_content = WriteDone stored →
     (len stored < len original_content - 100)%Z →
     res.2 ≠ Returned true ∧ res.1 !! file_path = Some original_content ∧
     (cleanup_raises d = false → res = (fs, Returned false))) ∧
  (res.2 = Returned true →
   (len original_content - 100 ≤ len new_content)%Z ∧
   ∃ stored, tmp_write d new_content = WriteDone stored ∧
             (len original_content - 100 ≤ len stored)%Z ∧
             res.1 = <[file_path := stored]> fs).
Proof.
  intros Hread Horig Hload Hdump res len.
  pose proof (save_metadata_to_file_end d fs file_path key v) as Hend.
  fold res in Hend.
  assert (res.2 = Returned true →
          implausible original_content new_content = false ∧
          ∃ stored, tmp_write d new_content = WriteDone stored ∧
                    implausible original_content stored = false ∧
                    res.1 = <[file_path := stored]> fs) as Htrue.
  { intros Hres. destruct Hend as [| |o q n st Ho Hq Hn Hc1 Hw Hc2]; simpl in *; try done.
    assert (o = original_content) as -> by congruence.
    assert (q = p) as -> by congruence.
    assert (n = new_content) as -> by congruence.
    split; [done|]. by exists st. }
  split; [|split].
  - intros Hshort. apply implausible_short in Hshort.
    unfold res, save_metadata_to_file.
    by rewrite Hread, Horig, Hload, Hdump, Hshort.
  - intros stored Hw Hshort. apply implausible_short in Hshort.
    assert (res.2 ≠ Returned true) as Hres.
    { intros (_ & st & Hw' & Hc2 & _)%Htrue. congruence. }
    split; [done|]. split.
    + rewrite <- Horig. by eapply save_end_untouched.
    + intros Hcl. destruct Hend; simpl in *; try done; congruence.
  - intros (Hc1 & st & Hw & Hc2 & Hfs)%Htrue.
    split; [by apply plausible_long|].
    exists st. split; [done|]. split; [by apply plausible_long|done].
Qed.

(** ** Python equality and ordered dictionaries *)

Lemma py_eqb_refl a : py_eqb a a = true.
Proof.
  destruct a as [|b|z|s]; cbn [py_eqb py_num];
    [done|by destruct b|apply Z.eqb_refl|apply String.eqb_refl].
Qed.

Lemma py_eqb_sym a b : py_eqb a b = py_eqb b a.
Proof.
  destruct a as [|[]|x|s], b as [|[]|y|t]; cbn [py_eqb py_num]; try done;
    try apply Z.eqb_sym; apply String.eqb_sym.
Qed.

Lemma py_eqb_trans a b c :
  py_eqb a b = true → py_eqb b c = true → py_eqb a c = true.
Proof.
  destruct a as [|[]|x|s], b as [|[]|y|t], c as [|[]|z|u];
    cbn [py_eqb py_num]; try done;
    rewrite ?Z.eqb_eq, ?String.eqb_eq; congruence.
Qed.

Section odict_facts.
Context {K V : Type} (keq : K → K → bool).
Hypothesis keq_refl : ∀ a, keq a a = true.
Hypothesis keq_sym : ∀ a b, keq a b = keq b a.
Hypothesis keq_trans : ∀ a b c, keq a b = true → keq b c = true → keq a c = true.

Implicit Types (d : list (K * V)) (k : K) (v : V).

Lemma keq_congr a b c : keq a b = true → keq a c = keq b c.
Proof using keq_sym keq_trans.
  intros Hab. destruct (keq b c) eqn:Hbc.
  - by eapply keq_trans.
  - destruct (keq a c) eqn:Hac; [|done].
    rewrite <- Hbc. symmetry. eapply keq_trans; [|exact Hac]. by rewrite keq_sym.
Qed.

Lemma keq_congr_r a b c : keq b c = true → keq a b = keq a c.
Proof using keq_sym keq_trans.
  intros Hbc. rewrite (keq_sym a b), (keq_sym a c). by apply keq_congr.
Qed.

Lemma od_get_set_eq d k k' v :
  keq k k' = true → od_get keq (od_set keq d k v) k' = Some v.
Proof using keq_refl keq_sym keq_trans.
  intros Hk. induction d as [|[k0 v0] d IH]; simpl.
  - by rewrite Hk.
  - destruct (keq k0 k) eqn:E; simpl.
    + by rewrite (keq_congr _ _ _ E), Hk.
    + rewrite <- (keq_congr_r k0 k k') by done.
      rewrite E. apply IH.
Qed.

Lemma od_get_set_ne d k k' v :
  keq k k' = false → od_get keq (od_set keq d k v) k' = od_get keq d k'.
Proof using keq_sym keq_trans.
  intros Hk. induction d as [|[k0 v0] d IH]; simpl.
  - by rewrite Hk.
  - destruct (keq k0 k) eqn:E; simpl.
    + by rewrite (keq_congr _ _ _ E), Hk.
    + by rewrite IH.
Qed.

Lemma od_get_In d k v : od_get keq d k = Some v → ∃ k0, (k0, v) ∈ d ∧ keq k0 k = true.
Proof.
  induction d as [|[k0 v0] d IH]; simpl; [done|].
  destruct (keq k0 k) eqn:E.
  - intros [= ->]. exists k0. split; [left|done].
  - intros (k1 & Hin & Hk)%IH. exists k1. split; [by right|done].
Qed.

Lemma od_set_In d k v k0 v0 :
  (k0, v0) ∈ od_set keq d k v →
  (k0, v0) ∈ d ∨ (v0 = v ∧ keq k0 k = true).
Proof using keq_refl.
  induction d as [|[k1 v1] d IH]; simpl.
  - intros [= -> ->]%list_elem_of_singleton. right. by rewrite keq_refl.
  - destruct (keq k1 k) eqn:E.
    + intros [[= -> ->]|Hin]%elem_of_cons; [by right|]. left. by right.
    + intros [[= -> ->]|Hin]%elem_of_cons; [left; left|].
      destruct (IH Hin) as [?|?]; [left; by right|by right].
Qed.

Lemma od_set_keys d k v :
  map fst (od_set keq d k v) =
  if od_mem keq d k then map fst d else map fst d ++ [k].
Proof.
  unfold od_mem. induction d as [|[k1 v1] d IH]; simpl; [done|].
  destruct (keq k1 k) eqn:E; simpl.
  - done.
  - rewrite IH. by destruct (bool_decide _).
Qed.
End odict_facts.

Lemma od_mem_keys {V} (d : list (string * V)) k :
  od_mem String.eqb d k = true ↔ k ∈ map fst d.
Proof.
  unfold od_mem. rewrite bool_decide_eq_true.
  induction d as [|[k1 v1] d IH]; simpl.
  - split; [by intros [? ?]|by intros ?%elem_of_nil].
  - destruct (String.eqb_spec k1 k) as [->|Hne].
    + split; [left|eauto].
    + rewrite IH. split; [by right|]. intros [?|?]%elem_of_cons; [congruence|done].
Qed.

Lemma od_get_keys {V} (d : list (string * V)) k v :
  od_get String.eqb d k = Some v → (k, v) ∈ d.
Proof.
  intros (k0 & Hin & ->%String.eqb_eq)%od_get_In. done.
Qed.

Lemma od_set_NoDup {V} (d : list (string * V)) k v :
  NoDup (map fst d) → NoDup (map fst (od_set String.eqb d k v)).
Proof.
  intros Hd. rewrite od_set_keys.
  destruct (od_mem String.eqb d k) eqn:E; [done|].
  apply NoDup_app. split; [done|]. split; [|apply NoDup_singleton].
  intros x Hx ->%list_elem_of_singleton.
  apply od_mem_keys in Hx. congruence.
Qed.

Lemma od_get_str_set {V} (d : list (string * V)) k k' v :
  od_get String.eqb (od_set String.eqb d k v) k' =
  if String.eqb k k' then Some v else od_get String.eqb d k'.
Proof.
  destruct (String.eqb k k') eqn:E.
  - apply od_get_set_eq; [apply String.eqb_refl|apply String.eqb_sym| |done].
    intros a b c ->%String.eqb_eq. done.
  - apply od_get_set_ne; [apply String.eqb_sym| |done].
    intros a b c ->%String.eqb_eq. done.
Qed.

Lemma od_get_py_set {V} (d : list (pyval * V)) k k' v :
  od_get py_eqb (od_set py_eqb d k v) k' =
  if py_eqb k k' then Some v else od_get py_eqb d k'.
Proof.
  destruct (py_eqb k k') eqn:E.
  - apply od_get_set_eq; [apply py_eqb_refl|apply py_eqb_sym|apply py_eqb_trans|done].
  - apply od_get_set_ne; [apply py_eqb_sym|apply py_eqb_trans|done].
Qed.

Lemma od_get_NoDup {V} (d : list (string * V)) k v :
  NoDup (map fst d) → (k, v) ∈ d → od_get String.eqb d k = Some v.
Proof.
  induction d as [|[k1 v1] d IH]; simpl; [by intros _ ?%elem_of_nil|].
  intros [Hk Hnd]%NoDup_cons [[= -> ->]|Hin]%elem_of_cons.
  - by rewrite String.eqb_refl.
  - destruct (String.eqb_spec k1 k) as [->|_]; [|by apply IH].
    destruct Hk. apply list_elem_of_fmap. by exists (k, v).
Qed.

(** ** The index of the pairing resolver *)

Section index_facts.
Context `{Frontmatter}.
Variable w : world.

Lemma parse_publish f m :
  parse_markdown_file w f = Some m → truthy (publish m) = true.
Proof.
  unfold parse_markdown_file. intros Hp.
  destruct (files w !! f); [|done]. destruct (fm_loads _); [|done].
  case_bool_decide; [done|].
  destruct (truthy (py_get _ "publish")) eqn:E; [|done].
  by simplify_eq/=.
Qed.

Lemma index_file_eligible ix f m :
  parse_markdown_file w f = Some m →
  index_file w ix f =
  {| all_files := od_set String.eqb (all_files ix) f m;
     post_id_to_file :=
       (if truthy (wp_post_id m)
        then od_set py_eqb (post_id_to_file ix) (wp_post_id m) f
        else post_id_to_file ix);
     group_id_to_files :=
       (if truthy (group_id m)
        then od_set py_eqb (group_id_to_files ix) (group_id m)
               (default [] (od_get py_eqb (group_id_to_files ix) (group_id m)) ++ [f])
        else group_id_to_files ix) |}.
Proof.
  intros Hp. unfold index_file. by rewrite Hp, (parse_publish _ _ Hp).
Qed.

Lemma index_file_skipped ix f :
  parse_markdown_file w f = None → index_file w ix f = ix.
Proof. intros Hp. unfold index_file. by rewrite Hp. Qed.

Lemma build_index_snoc l f :
  build_index w (l ++ [f]) = index_file w (build_index w l) f.
Proof. unfold build_index. by rewrite fold_left_app. Qed.

(** [all_files] holds, once each, the discovered files that parse, with
    what they parse to. *)
Lemma all_files_NoDup l : NoDup (map fst (all_files (build_index w l))).
Proof.
  induction l as [|f l IH] using rev_ind; [constructor|].
  rewrite build_index_snoc.
  destruct (parse_markdown_file w f) as [m|] eqn:Hp.
  - rewrite (index_file_eligible _ _ _ Hp). simpl. by apply od_set_NoDup.
  - by rewrite (index_file_skipped _ _ Hp).
Qed.

Lemma all_files_get l f :
  od_get String.eqb (all_files (build_index w l)) f =
  if bool_decide (f ∈ l) then parse_markdown_file w f else None.
Proof.
  induction l as [|f' l IH] using rev_ind; [done|].
  rewrite build_index_snoc.
  destruct (parse_markdown_file w f') as [m|] eqn:Hp.
  - rewrite (index_file_eligible _ _ _ Hp). simpl. rewrite od_get_str_set, IH.
    destruct (String.eqb_spec f' f) as [->|Hne].
    + rewrite bool_decide_eq_true_2 by set_solver. done.
    + rewrite (bool_decide_ext (f ∈ l ++ [f']) (f ∈ l)) by set_solver. done.
  - rewrite (index_file_skipped _ _ Hp), IH.
    destruct (decide (f = f')) as [->|Hne].
    + rewrite Hp. by repeat case_bool_decide.
    + rewrite (bool_decide_ext (f ∈ l ++ [f']) (f ∈ l)) by set_solver. done.
Qed.

Lemma all_files_elem l f m :
  (f, m) ∈ all_files (build_index w l) ↔
  f ∈ l ∧ parse_markdown_file w f = Some m.
Proof.
  split.
  - intros Hin. apply od_get_NoDup in Hin; [|apply all_files_NoDup].
    rewrite all_files_get in Hin. by case_bool_decide.
  - intros [Hl Hp]. apply od_get_keys. rewrite all_files_get.
    by rewrite bool_decide_eq_true_2.
Qed.

Lemma all_files_keys l f :
  f ∈ map fst (all_files (build_index w l)) ↔
  f ∈ l ∧ is_Some (parse_markdown_file w f).
Proof.
  rewrite <- od_mem_keys. unfold od_mem. rewrite bool_decide_eq_true, all_files_get.
  case_bool_decide; [naive_solver|]. split; [by intros [? ?]|naive_solver].
Qed.

Lemma in_group_congr g g' f : py_eqb g g' = true → in_group w g f = in_group w g' f.
Proof.
  intros Hg. unfold in_group. destruct (parse_markdown_file w f); [|done].
  f_equal. apply keq_congr_r; [apply py_eqb_sym|apply py_eqb_trans|done].
Qed.

Lemma has_post_id_congr k k' f :
  py_eqb k k' = true → has_post_id w k f = has_post_id w k' f.
Proof.
  intros Hg. unfold has_post_id. destruct (parse_markdown_file w f); [|done].
  f_equal. apply keq_congr_r; [apply py_eqb_sym|apply py_eqb_trans|done].
Qed.

(** A group's list holds the discovered files of the group, in the
    order of discovery. *)
Lemma group_files_spec l g :
  default [] (od_get py_eqb (group_id_to_files (build_index w l)) g) =
  List.filter (in_group w g) l.
Proof.
  revert g. induction l as [|f l IH] using rev_ind; intros g; [done|].
  rewrite build_index_snoc, List.filter_app. simpl.
  destruct (parse_markdown_file w f) as [m|] eqn:Hp.
  - rewrite (index_file_eligible _ _ _ Hp). simpl. unfold in_group at 2. rewrite Hp.
    destruct (truthy (group_id m)) eqn:Ht; simpl.
    + rewrite od_get_py_set. destruct (py_eqb (group_id m) g) eqn:Hg; simpl.
      * rewrite IH. f_equal. apply List.filter_ext. intros a. by apply in_group_congr.
      * by rewrite IH, app_nil_r.
    + by rewrite IH, app_nil_r.
  - rewrite (index_file_skipped _ _ Hp). unfold in_group at 2. rewrite Hp.
    by rewrite IH, app_nil_r.
Qed.

Lemma group_files_get l g group_files :
  od_get py_eqb (group_id_to_files (build_index w l)) g = Some group_files →
  group_files = List.filter (in_group w g) l.
Proof. intros E. by rewrite <- group_files_spec, E. Qed.

(** A post id leads to the last discovered file that carries it. *)
Lemma post_id_to_file_spec l k :
  od_get py_eqb (post_id_to_file (build_index w l)) k =
  last (List.filter (has_post_id w k) l).
Proof.
  revert k. induction l as [|f l IH] using rev_ind; intros k; [done|].
  rewrite build_index_snoc, List.filter_app. simpl.
  destruct (parse_markdown_file w f) as [m|] eqn:Hp.
  - rewrite (index_file_eligible _ _ _ Hp). simpl. unfold has_post_id at 2. rewrite Hp.
    destruct (truthy (wp_post_id m)) eqn:Ht; simpl.
    + rewrite od_get_py_set. destruct (py_eqb (wp_post_id m) k) eqn:Hg; simpl.
      * by rewrite last_snoc.
      * by rewrite IH, app_nil_r.
    + by rewrite IH, app_nil_r.
  - rewrite (index_file_skipped _ _ Hp). unfold has_post_id at 2. rewrite Hp.
    by rewrite IH, app_nil_r.
Qed.
End index_facts.

(** ** The pairing loop *)

Lemma find_filter {A} (p q : A → bool) l :
  List.find p (List.filter q l) = List.find (λ x, q x && p x) l.
Proof.
  induction l as [|x l IH]; simpl; [done|].
  destruct (q x); simpl; [|done]. destruct (p x); [done|apply IH].
Qed.

Lemma is_english_nonempty f : is_english f = true → f ≠ "".
Proof. by intros E ->. Qed.

Lemma docs_of_snoc ps p : docs_of (ps ++ [p]) = docs_of ps ++ pair_docs p.
Proof.
  unfold docs_of. induction ps as [|q ps IH]; simpl; [by rewrite app_nil_r|].
  by rewrite IH, app_assoc.
Qed.

Section pairing_facts.
Context `{Frontmatter}.
Variables (w : world) (l : list string).

Local Abbreviation ix := (build_index w l).

Lemma in_group_eligible g f : f ∈ l → in_group w g f = true → eligible w l f.
Proof.
  intros Hl Hg. split; [done|]. unfold in_group in Hg.
  by destruct (parse_markdown_file w f).
Qed.

Lemma has_post_id_eligible k f : f ∈ l → has_post_id w k f = true → eligible w l f.
Proof.
  intros Hl Hg. split; [done|]. unfold has_post_id in Hg.
  by destruct (parse_markdown_file w f).
Qed.

(** Strategy 1 picks the first discovered file of the group that is
    another file, lies in an English folder and is not processed. *)
Lemma group_match_find processed k m :
  group_match ix processed k m =
  if truthy (group_id m) then
    List.find (λ f, in_group w (group_id m) f &&
                    (negb (String.eqb f k) && is_english f &&
                     negb (bool_decide (f ∈ processed)))) l
  else None.
Proof.
  unfold group_match. destruct (truthy (group_id m)); [|done].
  rewrite <- find_filter, <- group_files_spec.
  by destruct (od_get py_eqb _ _).
Qed.

Lemma group_match_Some processed k m c :
  group_match ix processed k m = Some c →
  eligible w l c ∧ in_group w (group_id m) c = true ∧
  c ≠ k ∧ is_english c = true ∧ (c ∉ processed).
Proof.
  rewrite group_match_find. destruct (truthy (group_id m)); [|done].
  intros [Hin Hc]%find_some. apply list_elem_of_In in Hin.
  apply andb_true_iff in Hc as [Hg [[Hk He]%andb_true_iff Hp]%andb_true_iff].
  split; [by eapply in_group_eligible|]. split; [done|].
  split; [by apply String.eqb_neq, negb_true_iff|]. split; [done|].
  by apply negb_true_iff, bool_decide_eq_false in Hp.
Qed.

Lemma mirror_match_Some m e :
  mirror_match ix m = Some e →
  eligible w l e ∧ truthy (mirror_post_id m) = true ∧
  last (List.filter (has_post_id w (mirror_post_id m)) l) = Some e.
Proof.
  unfold mirror_match. destruct (truthy (mirror_post_id m)); [|done].
  rewrite post_id_to_file_spec. intros Hlast.
  apply last_Some_elem_of in Hlast as Hin.
  apply list_elem_of_In, filter_In in Hin as [Hin He].
  split; [|done]. apply list_elem_of_In in Hin. by eapply has_post_id_eligible.
Qed.

Lemma folder_match_Some processed k c :
  folder_match w ix processed k = Some c →
  eligible w l c ∧ c ≠ k ∧ (c ∉ processed) ∧ (c ≠ "") ∧
  c = Path.join (Path.join (Path.dirname k) "english") (Path.basename k) ∧
  path_exists w (Path.join (Path.dirname k) "english") = true.
Proof.
  unfold folder_match. destruct (path_exists w _) eqn:Hex; [|done].
  destruct (od_mem _ _ _ && _) eqn:E; [|done]. intros [= <-].
  apply andb_true_iff in E as [Hmem Hp].
  apply od_mem_keys, all_files_keys in Hmem.
  apply negb_true_iff, bool_decide_eq_false in Hp.
  split; [done|]. split; [apply english_sibling_ne|]. split; [done|].
  split; [|done]. apply join_nonempty, english_folder_nonempty.
Qed.

Lemma mirror_free_spec :
  mirror_free w l = true →
  ∀ f m, (f, m) ∈ all_files ix → mirror_match ix m = None.
Proof.
  unfold mirror_free. rewrite forallb_forall. intros Hall f m Hin.
  apply list_elem_of_In, Hall in Hin. simpl in Hin.
  by destruct (mirror_match ix m).
Qed.

(** What the three strategies together find. *)
Lemma find_english_spec processed k m :
  let found := find_english w ix processed k m in
  found.2 = match found.1 with Some e => post_id_of ix e | None => PNone end ∧
  ∀ e, found.1 = Some e →
       eligible w l e ∧
       (mirror_match ix m = None → e ≠ k ∧ (e ∉ processed) ∧ (e ≠ "")).
Proof.
  unfold find_english.
  destruct (group_match ix processed k m) as [c|] eqn:Hg.
  - apply group_match_Some in Hg as (Hel & _ & Hk & Hen & Hp).
    pose proof (is_english_nonempty _ Hen) as Hne.
    cbn [fst snd path_truthy]. apply String.eqb_neq in Hne as Hne'. rewrite Hne'.
    cbn [negb fst snd path_truthy]. rewrite Hne'. cbn [negb fst snd].
    split; [done|]. intros e [= <-]. done.
  - cbn [fst snd path_truthy].
    destruct (mirror_match ix m) as [e2|] eqn:Hm.
    + apply mirror_match_Some in Hm as (Hel & _).
      cbn [fst snd path_truthy].
      destruct (negb (String.eqb e2 "")) eqn:Hne.
      * cbn [fst snd]. split; [done|]. intros e [= <-]. done.
      * destruct (folder_match w ix processed k) as [c|] eqn:Hf.
        -- apply folder_match_Some in Hf as (Hc & _).
           cbn [fst snd]. split; [done|]. intros e [= <-]. done.
        -- cbn [fst snd]. split; [done|]. intros e [= <-]. done.
    + cbn [fst snd path_truthy].
      destruct (folder_match w ix processed k) as [c|] eqn:Hf.
      * apply folder_match_Some in Hf as (Hc & Hk & Hp & Hne & _).
        cbn [fst snd]. split; [done|]. intros e [= <-]. done.
      * cbn [fst snd]. split; [done|]. by intros e.
Qed.

Lemma pair_file_skip st k m :
  k ∈ processed_files st ∨ is_english k = true →
  pair_file w ix st (k, m) = st.
Proof.
  intros Hskip. unfold pair_file. cbn [fst snd].
  case_bool_decide; [done|]. destruct Hskip as [?|Hen]; [done|]. by rewrite Hen.
Qed.

Lemma pair_file_emit st k m :
  k ∉ processed_files st → is_english k = false →
  let p := pair_for w l (processed_files st) k m in
  pairs (pair_file w ix st (k, m)) = pairs st ++ [p] ∧
  ∀ f, f ∈ processed_files (pair_file w ix st (k, m)) ↔
       f ∈ processed_files st ∨ f ∈ pair_docs p.
Proof.
  intros Hk Hen p. unfold pair_file. cbn [fst snd].
  rewrite bool_decide_eq_false_2, Hen by done. cbn [pairs processed_files].
  split; [done|]. intros f. unfold pair_docs, p, pair_for. cbn [ko_file en_file].
  destruct (find_english w ix (processed_files st) k m).1 as [e|];
    [destruct (path_truthy (Some e))|]; set_solver.
Qed.

Lemma pair_all_snoc items item st :
  pair_all w ix (items ++ [item]) st = pair_file w ix (pair_all w ix items st) item.
Proof. unfold pair_all. by rewrite fold_left_app. Qed.

Lemma pair_all_app items1 items2 st :
  pair_all w ix (items1 ++ items2) st =
  pair_all w ix items2 (pair_all w ix items1 st).
Proof. unfold pair_all. by rewrite fold_left_app. Qed.

Lemma pair_all_cons item items st :
  pair_all w ix (item :: items) st = pair_all w ix items (pair_file w ix st item).
Proof. done. Qed.

(** Pairs are only added, and only at the end. *)
Lemma pair_file_extends st item :
  ∃ more, pairs (pair_file w ix st item) = pairs st ++ more.
Proof.
  destruct item as [k m].
  destruct (decide (k ∈ processed_files st)) as [Hk|Hk].
  { exists []. rewrite pair_file_skip by auto. by rewrite app_nil_r. }
  destruct (is_english k) eqn:Hen.
  { exists []. rewrite pair_file_skip by auto. by rewrite app_nil_r. }
  destruct (pair_file_emit st k m Hk Hen) as [-> _]. eauto.
Qed.

Lemma pair_all_extends items st :
  ∃ more, pairs (pair_all w ix items st) = pairs st ++ more.
Proof.
  revert st. induction items as [|item items IH]; intros st.
  - exists []. by rewrite app_nil_r.
  - rewrite pair_all_cons. destruct (IH (pair_file w ix st item)) as [more ->].
    destruct (pair_file_extends st item) as [more' ->].
    exists (more' ++ more). by rewrite app_assoc.
Qed.

Lemma paired_ok_start : paired_ok w l no_pairs.
Proof.
  split; simpl; try set_solver; intros; constructor.
Qed.

Lemma paired_ok_step st item :
  item ∈ all_files ix → paired_ok w l st → paired_ok w l (pair_file w ix st item).
Proof.
  destruct item as [k m]. intros Hitem Hok.
  destruct (decide (k ∈ processed_files st)) as [Hk|Hk].
  { by rewrite pair_file_skip by auto. }
  destruct (is_english k) eqn:Hen.
  { by rewrite pair_file_skip by auto. }
  destruct (pair_file_emit st k m Hk Hen) as [Hpairs Hproc].
  destruct (find_english_spec (processed_files st) k m) as [_ Hfound].
  assert (eligible w l k) as Hkel.
  { apply all_files_elem in Hitem as [? ?]. split; eauto. }
  set (p := pair_for w l (processed_files st) k m) in *.
  assert (∀ d, d ∈ pair_docs p → eligible w l d) as Hdocs.
  { intros d. unfold pair_docs, p, pair_for. cbn [ko_file en_file].
    intros [->|Hd]%elem_of_cons; [done|].
    destruct (find_english w ix (processed_files st) k m).1 as [e|] eqn:Hf;
      [|by apply elem_of_nil in Hd].
    destruct (path_truthy (Some e)); [|by apply elem_of_nil in Hd].
    apply list_elem_of_singleton in Hd as ->. by destruct (Hfound e). }
  destruct Hok as [Hp He Hprim Hko Hnd Hids].
  split; rewrite Hpairs.
  - intros f. rewrite Hproc, docs_of_snoc, elem_of_app, Hp. done.
  - intros d. rewrite docs_of_snoc, elem_of_app. intros [?|?]; auto.
  - rewrite map_app. apply NoDup_app. split; [done|].
    split; [|apply NoDup_singleton].
    intros f Hf ->%list_elem_of_singleton. apply Hk, Hp.
    apply list_elem_of_fmap in Hf as (q & Hq & Hin). cbn [ko_file p pair_for] in Hq.
    subst k. unfold docs_of. apply list_elem_of_In, in_flat_map.
    exists q. split; [by apply list_elem_of_In|]. left. done.
  - intros q [Hq| ->%list_elem_of_singleton]%elem_of_app; [by apply Hko|done].
  - intros Hfree0. pose proof (mirror_free_spec Hfree0) as Hfree.
    rewrite docs_of_snoc. apply NoDup_app. split; [by apply Hnd|].
    specialize (Hfree _ _ Hitem).
    unfold pair_docs, p, pair_for. cbn [ko_file en_file]. split.
    + intros f Hf%Hp [->|Hd]%elem_of_cons; [done|].
      destruct (find_english w ix (processed_files st) k m).1 as [e|] eqn:Hfe;
        [|by apply elem_of_nil in Hd].
      destruct (path_truthy (Some e)); [|by apply elem_of_nil in Hd].
      apply list_elem_of_singleton in Hd as ->.
      destruct (Hfound e eq_refl) as [_ Hfresh]. by destruct (Hfresh Hfree) as (_ & ? & _).
    + destruct (find_english w ix (processed_files st) k m).1 as [e|] eqn:Hfe;
        [|apply NoDup_singleton].
      destruct (path_truthy (Some e)); [|apply NoDup_singleton].
      destruct (Hfound e eq_refl) as [_ Hfresh]. destruct (Hfresh Hfree) as (Hne & _).
      apply NoDup_cons. split; [|apply NoDup_singleton].
      by intros ->%list_elem_of_singleton.
  - intros q [Hq| ->%list_elem_of_singleton]%elem_of_app; [by apply Hids|].
    unfold p, pair_for. cbn [ko_file en_file ko_existing_id en_existing_id]. split.
    + exists m. split; [|done]. by apply all_files_elem in Hitem as [_ ?].
    + intros e Hfe. split; [by destruct (Hfound e Hfe)|].
      destruct (find_english_spec (processed_files st) k m) as [Hid _].
      cbn zeta in Hid. by rewrite Hfe in Hid.
Qed.

Lemma paired_ok_all items st :
  (∀ item, item ∈ items → item ∈ all_files ix) →
  paired_ok w l st → paired_ok w l (pair_all w ix items st).
Proof.
  revert st. induction items as [|item items IH]; intros st Hitems Hok; [done|].
  rewrite pair_all_cons. apply IH; [set_solver|].
  apply paired_ok_step; [set_solver|done].
Qed.

(** Files are never taken out of [processed_files]. *)
Lemma pair_file_processed st item f :
  f ∈ processed_files st → f ∈ processed_files (pair_file w ix st item).
Proof.
  intros Hf. destruct item as [k m].
  destruct (decide (k ∈ processed_files st)) as [Hk|Hk].
  { by rewrite pair_file_skip by auto. }
  destruct (is_english k) eqn:Hen.
  { by rewrite pair_file_skip by auto. }
  destruct (pair_file_emit st k m Hk Hen) as [_ Hproc]. apply Hproc. by left.
Qed.

Lemma pair_all_processed items st f :
  f ∈ processed_files st → f ∈ processed_files (pair_all w ix items st).
Proof.
  revert st. induction items as [|item items IH]; intros st Hf; [done|].
  rewrite pair_all_cons. by apply IH, pair_file_processed.
Qed.

(** Every file the loop has looked at is processed unless it lies in
    an English folder. *)
Lemma pair_all_covers items st k m :
  (k, m) ∈ items → is_english k = false →
  k ∈ processed_files (pair_all w ix items st).
Proof.
  revert st. induction items as [|item items IH]; intros st Hin Hen.
  { by apply elem_of_nil in Hin. }
  rewrite pair_all_cons. apply elem_of_cons in Hin as [<-|Hin]; [|by apply IH].
  apply pair_all_processed.
  destruct (decide (k ∈ processed_files st)) as [Hk|Hk].
  { by rewrite pair_file_skip by auto. }
  destruct (pair_file_emit st k m Hk Hen) as [_ Hproc]. apply Hproc.
  right. left.
Qed.
End pairing_facts.

(** ** The pairing resolver *)

Section resolver_facts.
Context `{Frontmatter}.
Variables (w : world) (l : list string).

Local Abbreviation ix := (build_index w l).

Lemma collect_pairs_ok :
  paired_ok w l (pair_all w ix (all_files ix) no_pairs).
Proof. apply paired_ok_all; [done|apply paired_ok_start]. Qed.

Lemma post_id_of_parse e me :
  eligible w l e → parse_markdown_file w e = Some me →
  post_id_of ix e = wp_post_id me.
Proof.
  intros [Hl _] Hp. unfold post_id_of.
  by rewrite all_files_get, bool_decide_eq_true_2, Hp.
Qed.

(** The pair made when the loop reaches [k] is in the result. *)
Lemma collect_pairs_turn before k m after :
  all_files ix = before ++ (k, m) :: after →
  let st := pair_all w ix before no_pairs in
  k ∉ processed_files st → is_english k = false →
  pair_for w l (processed_files st) k m ∈ collect_pairs w l.
Proof.
  intros Hsplit st Hk Hen. unfold collect_pairs.
  rewrite Hsplit, pair_all_app, pair_all_cons. fold st.
  destruct (pair_all_extends w l after (pair_file w ix st (k, m))) as [more ->].
  destruct (pair_file_emit w l st k m Hk Hen) as [-> _].
  set_solver.
Qed.
End resolver_facts.

(** C1 (as amended). The pairs [collect_language_pairs] returns bind
    eligible documents only; every eligible document outside the English
    folders is bound by a pair; no document is the Korean file of two
    pairs and no Korean file lies in an English folder; and when no
    document's [mirror_post_id] names a post id that a document holds, no
    document is bound twice, be it by two pairs or by both sides of one. *)
Theorem collect_language_pairs_partition `{Frontmatter} w tree publish_folder :
  let markdown_files := get_markdown_files tree publish_folder None in
  let ps := collect_language_pairs w tree publish_folder in
  (∀ d, d ∈ docs_of ps → eligible w markdown_files d) ∧
  (∀ f, eligible w markdown_files f → is_english f = false → f ∈ docs_of ps) ∧
  NoDup (map ko_file ps) ∧
  (∀ p, p ∈ ps → is_english (ko_file p) = false) ∧
  (mirror_free w markdown_files = true → NoDup (docs_of ps)).
Proof.
  intros l ps. pose proof (collect_pairs_ok w l) as [Hp He Hprim Hko Hnd Hids].
  split; [exact He|]. split; [|done].
  intros f [Hl [m Hm]] Hen. apply Hp. eapply pair_all_covers; [|done].
  apply all_files_elem. eauto.
Qed.

(** C9. A document whose front matter has no [publish] key, or a false
    one, is read as [None] by [parse_markdown_file]; and a file read as
    [None] is under no key of [all_files], is found under no post id and
    in no group list, and is neither the Korean nor the English file of
    any pair. *)
Theorem unpublished_never_paired `{Frontmatter} w tree publish_folder f :
  (∀ text p,
     files w !! f = Some text → fm_loads text = Some p →
     post_metadata p !! "publish" = None ∨
     truthy (py_get (post_metadata p) "publish") = false →
     parse_markdown_file w f = None) ∧
  (parse_markdown_file w f = None →
   let ix := build_index w (get_markdown_files tree publish_folder None) in
   od_get String.eqb (all_files ix) f = None ∧
   (∀ post_id, od_get py_eqb (post_id_to_file ix) post_id ≠ Some f) ∧
   (∀ g group_files,
      od_get py_eqb (group_id_to_files ix) g = Some group_files →
      f ∉ group_files) ∧
   (∀ p, p ∈ collect_language_pairs w tree publish_folder →
         ko_file p ≠ f ∧ en_file p ≠ Some f)).
Proof.
  split.
  - intros text p Htext Hload Hflag. unfold parse_markdown_file.
    rewrite Htext, Hload. case_bool_decide; [done|].
    destruct Hflag as [?| ->]; done.
  - intros Hnone ix. set (l := get_markdown_files tree publish_folder None) in *.
    split; [|split; [|split]].
    + unfold ix. rewrite all_files_get, Hnone. by case_bool_decide.
    + intros k Hk. unfold ix in Hk. rewrite post_id_to_file_spec in Hk.
      apply last_Some_elem_of, list_elem_of_In, filter_In in Hk as [_ Hk].
      unfold has_post_id in Hk. by rewrite Hnone in Hk.
    + intros g gf Hg Hin. apply group_files_get in Hg as ->.
      apply list_elem_of_In, filter_In in Hin as [_ Hin].
      unfold in_group in Hin. by rewrite Hnone in Hin.
    + intros p Hp. pose proof (collect_pairs_ok w l) as [_ _ _ _ _ Hids].
      destruct (Hids p Hp) as [(m & Hm & _) Hen]. split.
      * intros E. rewrite E in Hm. congruence.
      * intros E. destruct (Hen f E) as [[_ [m' Hm']] _]. congruence.
Qed.

(** C5. When the pairing loop reaches a Korean file [k] that it does
    not skip, and some eligible file of [k]'s group, other than [k], lies
    in an English folder and is not processed yet, the pair made for [k]
    has as its English file the first file in discovery order that is
    such a candidate, whatever file strategy 3 would find in the
    [english] folder next to [k]. *)
Theorem group_id_match_wins `{Frontmatter} w tree publish_folder before k m after c :
  let markdown_files := get_markdown_files tree publish_folder None in
  let ix := build_index w markdown_files in
  all_files ix = before ++ (k, m) :: after →
  let processed := processed_files (pair_all w ix before no_pairs) in
  let candidate f :=
    in_group w (group_id m) f &&
    (negb (String.eqb f k) && is_english f && negb (bool_decide (f ∈ processed))) in
  k ∉ processed → is_english k = false →
  truthy (group_id m) = true →
  c ∈ markdown_files → candidate c = true →
  ∃ p first,
    p ∈ collect_language_pairs w tree publish_folder ∧
    ko_file p = k ∧ en_file p = Some first ∧
    en_existing_id p = post_id_of ix first ∧
    List.find candidate markdown_files = Some first.
Proof.
  intros l ix Hsplit processed candidate Hk Hen Hg Hc Hcand.
  destruct (List.find candidate l) as [first|] eqn:Hfind.
  2:{ apply find_none with (x := c) in Hfind; [congruence|by apply list_elem_of_In]. }
  assert (group_match ix processed k m = Some first) as Hgm.
  { unfold ix. by rewrite group_match_find, Hg. }
  exists (pair_for w l processed k m), first.
  split; [by apply (collect_pairs_turn w l before k m after)|].
  apply group_match_Some in Hgm as Hfirst. destruct Hfirst as (_ & _ & _ & Hfe & _).
  apply is_english_nonempty, String.eqb_neq in Hfe.
  unfold pair_for, find_english. fold ix. rewrite Hgm.
  cbn [ko_file en_file en_existing_id fst snd path_truthy]. rewrite Hfe.
  cbn [negb fst snd path_truthy]. rewrite Hfe. done.
Qed.

(** C10. When the pairing loop reaches a Korean file [k] that it does
    not skip, strategy 1 finds nothing, and [k]'s [mirror_post_id] is
    under a key of [post_id_to_file], the pair made for [k] has as its
    English file the file found there: the last discovered eligible file
    whose [wp-post-id] equals the mirror id.  Nothing is asked of that
    file: it need not lie in an English folder and may be processed
    already. *)
Theorem mirror_match_unchecked `{Frontmatter} w tree publish_folder before k m after e :
  let markdown_files := get_markdown_files tree publish_folder None in
  let ix := build_index w markdown_files in
  all_files ix = before ++ (k, m) :: after →
  let processed := processed_files (pair_all w ix before no_pairs) in
  k ∉ processed → is_english k = false →
  group_match ix processed k m = None →
  truthy (mirror_post_id m) = true →
  od_get py_eqb (post_id_to_file ix) (mirror_post_id m) = Some e →
  e ≠ "" →
  ∃ p,
    p ∈ collect_language_pairs w tree publish_folder ∧
    ko_file p = k ∧ en_file p = Some e ∧
    en_existing_id p = post_id_of ix e ∧
    eligible w markdown_files e ∧
    last (List.filter (has_post_id w (mirror_post_id m)) markdown_files) = Some e.
Proof.
  intros l ix Hsplit processed Hk Hen Hgm Hmirror Hpost Hne.
  assert (mirror_match ix m = Some e) as Hmm.
  { unfold mirror_match. by rewrite Hmirror. }
  exists (pair_for w l processed k m).
  split; [by apply (collect_pairs_turn w l before k m after)|].
  apply mirror_match_Some in Hmm as Hspec. destruct Hspec as (Hel & _ & Hlast).
  apply String.eqb_neq in Hne.
  unfold pair_for, find_english. fold ix. rewrite Hgm, Hmm.
  cbn [ko_file en_file en_existing_id fst snd path_truthy]. rewrite Hne.
  cbn [negb fst snd path_truthy]. done.
Qed.

(** ** Runs *)

Section run_facts.
Context {A B : Type}.

Lemma bind_run (m : Run A) (f : A → Run B) st :
  (m ≫= f) st =
  match m st with
  | (Returned a, st') => f a st'
  | (Raised, st') => (Raised, st')
  end.
Proof. done. Qed.

Lemma ret_run (a : A) st : (mret a : Run A) st = (Returned a, st).
Proof. done. Qed.

Lemma adds_ret P (a : A) : adds P (mret a).
Proof. intros st. exists []. by rewrite app_nil_r. Qed.

Lemma adds_raise P : adds P (@raise A).
Proof. intros st. exists []. by rewrite app_nil_r. Qed.

Lemma adds_bind P (m : Run A) (f : A → Run B) :
  adds P m → (∀ a, adds P (f a)) → adds P (m ≫= f).
Proof.
  intros Hm Hf st. rewrite bind_run. destruct (Hm st) as (evs & Htr & Hevs).
  destruct (m st) as [[a|] st'] eqn:E; simpl in *.
  - destruct (Hf a st') as (evs' & Htr' & Hevs'). exists (evs ++ evs').
    rewrite Htr', Htr, app_assoc, forallb_app, Hevs, Hevs'. done.
  - by exists evs.
Qed.

Lemma keeps_store_ret (a : A) : keeps_store (mret a).
Proof. done. Qed.

Lemma keeps_store_bind (m : Run A) (f : A → Run B) :
  keeps_store m → (∀ a, keeps_store (f a)) → keeps_store (m ≫= f).
Proof.
  intros Hm Hf st. rewrite bind_run. specialize (Hm st).
  destruct (m st) as [[a|] st'] eqn:E; simpl in *; [|done].
  by rewrite Hf.
Qed.
End run_facts.

Lemma adds_weaken (P Q : event → bool) {A} (m : Run A) :
  (∀ ev, P ev = true → Q ev = true) → adds P m → adds Q m.
Proof.
  intros HPQ Hm st. destruct (Hm st) as (evs & Htr & Hevs). exists evs.
  split; [done|]. rewrite forallb_forall in *. auto.
Qed.

Lemma adds_with_counters P f : adds P (with_counters f).
Proof. intros st. exists []. simpl. by rewrite app_nil_r. Qed.

Lemma keeps_store_with_counters f : keeps_store (with_counters f).
Proof. done. Qed.

Section publisher_facts.
Context `{Environment}.

Lemma adds_http P r : (∀ answer, P (Sent r answer) = true) → adds P (http r).
Proof.
  intros HP st. exists [Sent r (server (trace st) r)]. simpl. by rewrite HP.
Qed.

Lemma keeps_store_http r : keeps_store (http r).
Proof. done. Qed.

Lemma adds_get_or_create_category P category_name :
  lets_through P → adds P (get_or_create_category category_name).
Proof.
  intros HP. unfold get_or_create_category.
  destruct (negb (truthy category_name)); [apply adds_ret|].
  destruct category_name as [| |z|name]; try apply adds_raise.
  destruct (forallb _ _); [apply adds_ret|].
  apply adds_bind; [apply adds_http; intros; by apply HP|].
  assert (adds P
    (created ← http {| req_method := POST; req_url := Categories;
                       req_body := CategoryData name |};
     mret (match created with
           | Some r =>
               if ok_status r then
                 match body r with
                 | Some (JObject o) => default PNone (o !! "id")
                 | _ => PNone
                 end
               else PNone
           | None => PNone
           end))) as Hcreate.
  { apply adds_bind; [apply adds_http; intros; by apply HP|]. intros. apply adds_ret. }
  intros [r|]; [|apply adds_ret].
  case_bool_decide; [|done].
  destruct (body r) as [[o|[|o items]]|]; try done; try apply adds_ret.
  case_bool_decide; [done|apply adds_ret].
Qed.

Lemma keeps_store_get_or_create_category category_name :
  keeps_store (get_or_create_category category_name).
Proof.
  unfold get_or_create_category.
  destruct (negb (truthy category_name)); [done|].
  destruct category_name as [| |z|name]; try done.
  destruct (forallb _ _); [done|].
  apply keeps_store_bind; [done|].
  intros [r|]; [|done].
  case_bool_decide; [|done].
  destruct (body r) as [[o|[|o items]]|]; try done.
  case_bool_decide; done.
Qed.

Lemma adds_set_polylang_language P post_id language :
  lets_through P → adds P (set_polylang_language post_id language).
Proof.
  intros HP. apply adds_bind; [apply adds_http; intros; by apply HP|].
  intros. apply adds_ret.
Qed.

(** [publish_post] adds what passes the test as soon as its own request
    for the post does. *)
Lemma adds_publish_post P title content language metadata post_id category_name :
  lets_through P →
  (∀ data answer, P (Sent (post_request post_id data) answer) = true) →
  adds P (publish_post title content language metadata post_id category_name).
Proof.
  intros HP Hpost. unfold publish_post. apply adds_bind.
  { destruct (truthy category_name); [|apply adds_ret].
    apply adds_bind; [by apply adds_get_or_create_category|]. intros. apply adds_ret. }
  intros categories. apply adds_bind; [by apply adds_http|].
  intros [r|]; [|apply adds_ret].
  destruct (ok_status r); [|apply adds_ret].
  destruct (body r) as [[result|]|]; try apply adds_ret.
  apply adds_bind; [by apply adds_set_polylang_language|]. intros. apply adds_ret.
Qed.

Lemma keeps_store_publish_post title content language metadata post_id category_name :
  keeps_store (publish_post title content language metadata post_id category_name).
Proof.
  unfold publish_post. apply keeps_store_bind.
  { destruct (truthy category_name); [|done].
    apply keeps_store_bind; [apply keeps_store_get_or_create_category|done]. }
  intros categories. apply keeps_store_bind; [done|].
  intros [r|]; [|done].
  destruct (ok_status r); [|done].
  destruct (body r) as [[result|]|]; try done.
Qed.

Lemma adds_link_translations P ko_post_id en_post_id :
  lets_through P → adds P (link_translations ko_post_id en_post_id).
Proof.
  intros HP. apply adds_bind; [apply adds_http; intros; by apply HP|].
  intros. apply adds_ret.
Qed.

Lemma adds_set_featured_image P post_id file_path :
  lets_through P → adds P (set_featured_image post_id file_path).
Proof.
  intros HP st. unfold set_featured_image.
  destruct (negb (path_exists _ _)); [exists []; by rewrite app_nil_r|].
  destruct (negb (bool_decide _)); [exists []; by rewrite app_nil_r|].
  revert st. apply adds_bind; [apply adds_http; intros; by apply HP|].
  intros [r|]; [|apply adds_ret].
  destruct (negb (ok_status r)); [apply adds_ret|].
  destruct (body r) as [[media_data|]|]; try apply adds_ret.
  apply adds_bind; [apply adds_http; intros; by apply HP|]. intros. apply adds_ret.
Qed.
End publisher_facts.

Lemma ok_status_iff r :
  ok_status r = true ↔ status_code r = 200%Z ∨ status_code r = 201%Z.
Proof.
  unfold ok_status. rewrite orb_true_iff, !bool_decide_eq_true. done.
Qed.

(** C6 (as amended). Whenever [publish_post] returns, it has sent its
    request for the post, and it reports success exactly when that
    request was answered with status 200 or 201 and a body that decodes
    to a JSON object; it then returns the [id] of that object.  On every
    other answer, other 2xx and all 3xx statuses included, and when no
    answer comes, it reports failure with the post id it was given. *)
Theorem publish_post_success_iff `{Environment}
    title content language metadata post_id category_name st r st' :
  publish_post title content language metadata post_id category_name st
    = (Returned r, st') →
  ∃ before categories answer after,
    let req := post_request post_id
                 (PostData title content language metadata categories) in
    trace st' = trace st ++ before ++ [Sent req answer] ++ after ∧
    answer = server (trace st ++ before) req ∧
    (success r = true ↔
     ∃ resp result, answer = Some resp ∧
                    (status_code resp = 200%Z ∨ status_code resp = 201%Z) ∧
                    body resp = Some (JObject result)) ∧
    (success r = true →
     ∀ resp result, answer = Some resp → body resp = Some (JObject result) →
                    result_post_id r = py_get result "id") ∧
    (success r = false → result_post_id r = post_id).
Proof.
  unfold publish_post. rewrite bind_run.
  set (phase := if truthy category_name then _ else _).
  assert (adds (λ _, true) phase) as Hphase.
  { unfold phase. destruct (truthy category_name); [|apply adds_ret].
    apply adds_bind; [by apply adds_get_or_create_category|]. intros. apply adds_ret. }
  destruct (Hphase st) as (before & Hbefore & _).
  destruct (phase st) as [[categories|] st1]; [|done]. simpl in Hbefore.
  rewrite bind_run. unfold http at 1. rewrite Hbefore.
  set (req := post_request post_id _).
  remember (server (trace st ++ before) req) as answer eqn:Hserver.
  intros Hrun. exists before, categories, answer.
  assert (∀ tr, st' = {| store := store st1; trace := tr; counters := counters st1 |} →
                r = {| success := false; result_post_id := post_id |} →
                tr = (trace st ++ before) ++ [Sent req answer] →
                (∀ resp result, answer = Some resp → ok_status resp = true →
                                body resp = Some (JObject result) → False) →
                ∃ after,
                  trace st' = trace st ++ before ++ [Sent req answer] ++ after ∧
                  answer = server (trace st ++ before) req ∧
                  (success r = true ↔
                   ∃ resp result, answer = Some resp ∧
                     (status_code resp = 200%Z ∨ status_code resp = 201%Z) ∧
                     body resp = Some (JObject result)) ∧
                  (success r = true →
                   ∀ resp result, answer = Some resp →
                                  body resp = Some (JObject result) →
                                  result_post_id r = py_get result "id") ∧
                  (success r = false → result_post_id r = post_id)) as Hfail.
  { intros tr -> -> -> Hno. exists []. simpl. rewrite <- app_assoc.
    split; [done|]. split; [done|]. split; [|done]. split; [done|].
    intros (resp & result & Ha & Hst%ok_status_iff & Hb). destruct (Hno _ _ Ha Hst Hb). }
  destruct answer as [resp|].
  2:{ rewrite ret_run in Hrun. eapply Hfail; [by simplify_eq|by simplify_eq|done|done]. }
  destruct (ok_status resp) eqn:Hok.
  2:{ rewrite ret_run in Hrun. eapply Hfail; [by simplify_eq|by simplify_eq|done|].
      intros ?? [= <-]. congruence. }
  destruct (body resp) as [[result|items]|] eqn:Hbody.
  - clear Hfail. rewrite bind_run in Hrun. unfold set_polylang_language in Hrun.
    rewrite bind_run in Hrun. unfold http in Hrun. rewrite !ret_run in Hrun.
    simplify_eq/=. eexists [_]. rewrite <- !app_assoc. split; [done|]. split; [done|].
    split; [|split; [|done]].
    + split; [|done]. intros _. exists resp, result. by apply ok_status_iff in Hok.
    + intros _ resp' result' [= <-] Hbody'. congruence.
  - rewrite ret_run in Hrun. eapply Hfail; [by simplify_eq|by simplify_eq|done|].
    intros ?? [= <-]. congruence.
  - rewrite ret_run in Hrun. eapply Hfail; [by simplify_eq|by simplify_eq|done|].
    intros ?? [= <-]. congruence.
Qed.

(** ** The reconciler *)

Section reconciler_facts.
Context `{Frontmatter} `{Environment}.

Lemma adds_save_step P file_path key value :
  (∀ res, P (Saved file_path key value res) = true) →
  adds P (save_step file_path key value).
Proof.
  intros HP st. unfold save_step.
  set (res := save_metadata_to_file _ _ _ _ _).
  exists [Saved file_path key value res.2].
  destruct res.2; simpl; by rewrite HP.
Qed.

Lemma adds_cover_step P post_id file_path :
  lets_through P → adds P (cover_step post_id file_path).
Proof.
  intros HP st. unfold cover_step.
  destruct (find_cover_image _ _); [|exists []; by rewrite app_nil_r].
  revert st. apply adds_bind; [by apply adds_set_featured_image|].
  intros [|]; [apply adds_with_counters|apply adds_ret].
Qed.

Lemma lets_through_no_create : lets_through no_create.
Proof.
  intros [meth url data] answer Hurl. simpl in Hurl.
  unfold no_create. simpl. by destruct meth, url.
Qed.

Lemma update_no_create post_id data answer :
  truthy post_id = true →
  no_create (Sent (post_request post_id data) answer) = true.
Proof. intros Hid. unfold post_request. by rewrite Hid. Qed.

(** A pair both of whose ids are there is processed without a request
    for a new post. *)
Lemma adds_process_pair p :
  truthy (ko_existing_id p) = true →
  (path_truthy (en_file p) = true → truthy (en_existing_id p) = true) →
  adds no_create (process_pair p).
Proof.
  intros Hko Hen. pose proof lets_through_no_create as HP.
  unfold process_pair. apply adds_bind.
  - intros st. unfold publish_ko.
    destruct (parse_markdown_file _ _) as [ko_metadata|];
      [|exists []; by rewrite app_nil_r].
    revert st. apply adds_bind.
    { apply adds_publish_post; [done|]. intros. by apply update_no_create. }
    intros r. destruct (negb (success r)).
    { apply adds_bind; [apply adds_with_counters|]. intros. apply adds_ret. }
    apply adds_bind; [apply adds_with_counters|]. intros _.
    apply adds_bind; [by apply adds_save_step|]. intros _.
    apply adds_bind; [by apply adds_cover_step|]. intros _. apply adds_ret.
  - intros [ko_post_id|]; [|apply adds_ret].
    destruct (en_file p) as [e|] eqn:He; [|apply adds_ret].
    destruct (path_truthy (Some e)) eqn:Ht; [|apply adds_ret].
    specialize (Hen eq_refl).
    intros st. unfold publish_en.
    destruct (parse_markdown_file _ _) as [en_metadata|];
      [|exists []; by rewrite app_nil_r].
    revert st. apply adds_bind.
    { apply adds_publish_post; [done|]. intros. by apply update_no_create. }
    intros r. destruct (negb (success r)); [apply adds_with_counters|].
    apply adds_bind; [apply adds_with_counters|]. intros _.
    apply adds_bind; [by apply adds_save_step|]. intros _.
    apply adds_bind; [by apply adds_cover_step|]. intros _.
    apply adds_bind; [by apply adds_link_translations|].
    intros [|]; apply adds_with_counters.
Qed.

Lemma adds_process_loop ps :
  (∀ p, p ∈ ps →
        truthy (ko_existing_id p) = true ∧
        (path_truthy (en_file p) = true → truthy (en_existing_id p) = true)) →
  adds no_create (process_loop ps).
Proof.
  induction ps as [|p ps IH]; intros Hids; [apply adds_ret|].
  simpl. apply adds_bind.
  - destruct (Hids p) as [? ?]; [left|]. by apply adds_process_pair.
  - intros _. apply IH. intros q Hq. apply Hids. by right.
Qed.

Lemma adds_process_pairs ps :
  (∀ p, p ∈ ps →
        truthy (ko_existing_id p) = true ∧
        (path_truthy (en_file p) = true → truthy (en_existing_id p) = true)) →
  adds no_create (process_pairs ps).
Proof.
  intros Hids st. unfold process_pairs.
  set (st0 := {| store := store st; trace := trace st; counters := _ |}).
  assert (adds no_create (_ ← process_loop ps; read_counters)) as Hadds.
  { apply adds_bind; [by apply adds_process_loop|]. intros _ st1.
    exists []. by rewrite app_nil_r. }
  apply (Hadds st0).
Qed.
End reconciler_facts.

Lemma publish_post_sends_only `{Environment}
    title content language metadata post_id category_name st :
  let res := publish_post title content language metadata post_id category_name st in
  store res.2 = store st ∧
  ∃ evs, trace res.2 = trace st ++ evs ∧ forallb is_send evs = true.
Proof.
  split; [apply keeps_store_publish_post|].
  apply adds_publish_post; [by intros ???|done].
Qed.

(** C4. When [publish_post] reports failure for the Korean file of a
    pair, the loop body ends there: between the start of the pair and the
    next pair only requests have happened, no call of
    [save_metadata_to_file], the file store is what it was, [failed] is
    one more, and the loop goes on with the remaining pairs.  When it
    reports failure for the English file, the same holds from the point
    where the Korean side was done: no call of [save_metadata_to_file]
    for the English side, no link request, and the remaining pairs are
    processed. *)
Theorem failed_publish_saves_nothing `{Frontmatter} `{Environment} p rest st :
  (∀ ko_metadata r st1,
     parse_markdown_file (store st) (ko_file p) = Some ko_metadata →
     publish_post (title ko_metadata) (content ko_metadata) "ko"
       (Some (ko_file p)) (ko_existing_id p)
       (py_get (raw_metadata ko_metadata) "ko-category") st = (Returned r, st1) →
     success r = false →
     store st1 = store st ∧
     (∃ evs, trace st1 = trace st ++ evs ∧ forallb is_send evs = true) ∧
     process_pair p st = (Returned (), after_failure st1) ∧
     process_loop (p :: rest) st = process_loop rest (after_failure st1)) ∧
  (∀ e ko_post_id st0 en_metadata r st1,
     publish_ko p st = (Returned (Some ko_post_id), st0) →
     en_file p = Some e → e ≠ "" →
     parse_markdown_file (store st0) e = Some en_metadata →
     publish_post (title en_metadata) (content en_metadata) "en"
       (Some e) (en_existing_id p)
       (py_get (raw_metadata en_metadata) "en-category") st0 = (Returned r, st1) →
     success r = false →
     store st1 = store st0 ∧
     (∃ evs, trace st1 = trace st0 ++ evs ∧ forallb is_send evs = true) ∧
     process_pair p st = (Returned (), after_failure st1) ∧
     process_loop (p :: rest) st = process_loop rest (after_failure st1)).
Proof.
  split.
  - intros ko_metadata r st1 Hparse Hpub Hfail.
    pose proof (publish_post_sends_only (title ko_metadata) (content ko_metadata) "ko"
                  (Some (ko_file p)) (ko_existing_id p)
                  (py_get (raw_metadata ko_metadata) "ko-category") st) as Hsends.
    rewrite Hpub in Hsends. destruct Hsends as [Hstore Htrace].
    assert (process_pair p st = (Returned (), after_failure st1)) as Hpair.
    { unfold process_pair. rewrite bind_run. unfold publish_ko.
      rewrite Hparse, bind_run, Hpub, Hfail. done. }
    split; [done|]. split; [done|]. split; [done|].
    simpl. by rewrite bind_run, Hpair.
  - intros e ko_post_id st0 en_metadata r st1 Hko He Hne Hparse Hpub Hfail.
    pose proof (publish_post_sends_only (title en_metadata) (content en_metadata) "en"
                  (Some e) (en_existing_id p)
                  (py_get (raw_metadata en_metadata) "en-category") st0) as Hsends.
    rewrite Hpub in Hsends. destruct Hsends as [Hstore Htrace].
    assert (process_pair p st = (Returned (), after_failure st1)) as Hpair.
    { unfold process_pair. rewrite bind_run, Hko, He.
      apply String.eqb_neq in Hne. cbn [path_truthy]. rewrite Hne. cbn [negb].
      unfold publish_en. rewrite Hparse, bind_run, Hpub, Hfail. done. }
    split; [done|]. split; [done|]. split; [done|].
    simpl. by rewrite bind_run, Hpair.
Qed.

(** After a call that returned [True], the file is read back with the
    value that was saved, provided the text now on disk parses to the
    updated front matter. *)
Lemma saved_id_read_back `{Frontmatter} d w f v m :
  parse_markdown_file w f = Some m →
  let res := save_metadata_to_file d (files w) f "wp-post-id" v in
  res.2 = Returned true →
  (∀ original_content p text,
     files w !! f = Some original_content →
     fm_loads original_content = Some p →
     res.1 !! f = Some text →
     fm_loads text = Some (with_key p "wp-post-id" v)) →
  ∃ m', parse_markdown_file {| files := res.1; dirs := dirs w |} f = Some m' ∧
        wp_post_id m' = v.
Proof.
  intros Hparse res Hres Hcodec.
  pose proof (save_metadata_to_file_end d (files w) f "wp-post-id" v) as Hend.
  fold res in Hend.
  destruct Hend as [| |original_content p new_content stored Ho Hl Hd Hc1 Hw Hc2];
    simpl in Hres; try done.
  simpl in *. specialize (Hcodec original_content p stored Ho Hl).
  rewrite lookup_insert_eq in Hcodec. specialize (Hcodec eq_refl).
  unfold parse_markdown_file in *. simpl. rewrite lookup_insert_eq, Hcodec.
  rewrite Ho, Hl in Hparse. simpl.
  rewrite lookup_insert_ne by done.
  case_bool_decide; [done|].
  unfold py_get in *. rewrite !lookup_insert_ne by done.
  destruct (truthy (default PNone (post_metadata p !! "publish"))); [|done].
  eexists. split; [done|]. simpl. by rewrite lookup_insert_eq.
Qed.

(** C2 (as amended). A post id that [save_metadata_to_file] has saved
    with result [True] is the [wp-post-id] the file is read back with
    (given that the text on disk parses to the updated front matter); the
    existing ids of every pair [collect_language_pairs] returns are the
    [wp-post-id] values read from its two files; [publish_post] sends its
    request to [posts/{id}] when it is given such an id and to [posts]
    when it is given none; so a run over the pairs of a store in which
    every bound document carries a post id sends no request for a new
    post.  A document whose id was not saved is created again. *)
Theorem persisted_ids_are_updated `{Frontmatter} `{Environment}
    tree publish_folder st :
  let w := store st in
  let ps := collect_language_pairs w tree publish_folder in
  (∀ d f v m,
     parse_markdown_file w f = Some m →
     let res := save_metadata_to_file d (files w) f "wp-post-id" v in
     res.2 = Returned true →
     (∀ original_content p text,
        files w !! f = Some original_content →
        fm_loads original_content = Some p →
        res.1 !! f = Some text →
        fm_loads text = Some (with_key p "wp-post-id" v)) →
     ∃ m', parse_markdown_file {| files := res.1; dirs := dirs w |} f = Some m' ∧
           wp_post_id m' = v) ∧
  (∀ p, p ∈ ps →
     (∃ m, parse_markdown_file w (ko_file p) = Some m ∧
           ko_existing_id p = wp_post_id m) ∧
     (∀ e, en_file p = Some e →
           ∃ me, parse_markdown_file w e = Some me ∧
                 en_existing_id p = wp_post_id me)) ∧
  (∀ post_id data,
     post_request post_id data =
     {| req_method := POST;
        req_url := (if truthy post_id then PostNo post_id else Posts);
        req_body := data |}) ∧
  ((∀ d m, d ∈ docs_of ps → parse_markdown_file w d = Some m →
           truthy (wp_post_id m) = true) →
   ∃ evs, trace (process_pairs ps st).2 = trace st ++ evs ∧
          forallb no_create evs = true).
Proof.
  intros w ps. set (l := get_markdown_files tree publish_folder None).
  pose proof (collect_pairs_ok w l) as [_ _ _ _ _ Hids].
  assert (∀ p, p ∈ ps →
     (∃ m, parse_markdown_file w (ko_file p) = Some m ∧
           ko_existing_id p = wp_post_id m) ∧
     (∀ e, en_file p = Some e →
           ∃ me, parse_markdown_file w e = Some me ∧
                 en_existing_id p = wp_post_id me)) as Hread.
  { intros p Hp. destruct (Hids p Hp) as [Hko Hen]. split; [done|].
    intros e He. destruct (Hen e He) as [Hel Hid]. destruct Hel as [Hl [me Hme]].
    exists me. split; [done|]. rewrite Hid. apply post_id_of_parse; [by split; eauto|done]. }
  split; [intros d f v m; apply saved_id_read_back|].
  split; [exact Hread|]. split.
  { intros post_id data. unfold post_request. by destruct (truthy post_id). }
  intros Hall. apply adds_process_pairs. intros p Hp.
  destruct (Hread p Hp) as [(m & Hm & Hko) Hen].
  assert (∀ d, d ∈ pair_docs p → d ∈ docs_of ps) as Hdocs.
  { intros d Hd. unfold docs_of. apply list_elem_of_In, in_flat_map.
    exists p. split; by apply list_elem_of_In. }
  split.
  - rewrite Hko. apply (Hall (ko_file p)); [|done]. apply Hdocs. left.
  - intros Ht. destruct (en_file p) as [e|] eqn:He; [|done].
    destruct (Hen e eq_refl) as (me & Hme & ->). apply (Hall e); [|done].
    apply Hdocs. unfold pair_docs. rewrite He, Ht. right. left.
Qed.

(** ** Computations that only send requests *)

Lemma run_eta (st : run) :
  st = {| store := store st; trace := trace st; counters := counters st |}.
Proof. by destruct st. Qed.

Section only_adds_facts.
Context {A B : Type}.

Lemma only_adds_ret P (a : A) : only_adds P (mret a).
Proof.
  intros st. exists []. rewrite app_nil_r. split; [|done]. apply run_eta.
Qed.

Lemma only_adds_raise P : only_adds P (@raise A).
Proof.
  intros st. exists []. rewrite app_nil_r. split; [|done]. apply run_eta.
Qed.

Lemma only_adds_bind P (m : Run A) (f : A → Run B) :
  only_adds P m → (∀ a, only_adds P (f a)) → only_adds P (m ≫= f).
Proof.
  intros Hm Hf st. rewrite bind_run. destruct (Hm st) as (evs & Hst & Hevs).
  destruct (m st) as [[a|] st'] eqn:E; simpl in *.
  - destruct (Hf a st') as (evs' & Hst' & Hevs'). exists (evs ++ evs').
    rewrite Hst', Hst, forallb_app, Hevs, Hevs'. simpl. by rewrite app_assoc.
  - by exists evs.
Qed.

Lemma only_adds_weaken (P Q : event → bool) (m : Run A) :
  (∀ ev, P ev = true → Q ev = true) → only_adds P m → only_adds Q m.
Proof.
  intros HPQ Hm st. destruct (Hm st) as (evs & Hst & Hevs). exists evs.
  split; [done|]. rewrite forallb_forall in *. auto.
Qed.

Lemma returns_ret (a : A) : returns (mret a).
Proof. by intros st. Qed.

Lemma returns_bind (m : Run A) (f : A → Run B) :
  returns m → (∀ a, returns (f a)) → returns (m ≫= f).
Proof.
  intros Hm Hf st. rewrite bind_run. specialize (Hm st).
  destruct (m st) as [[a|] st'] eqn:E; simpl in *; [apply Hf|done].
Qed.
End only_adds_facts.

Lemma plain_send_quiet evs :
  forallb plain_send evs = true →
  saved_in evs = [] ∧ List.filter is_link evs = [].
Proof.
  induction evs as [|ev evs IH]; [done|]. simpl.
  intros [Hev Hevs]%andb_true_iff. destruct (IH Hevs) as [IH1 IH2].
  unfold plain_send in Hev. apply andb_true_iff in Hev as [Hs Hl].
  apply negb_true_iff in Hl. rewrite Hl, IH2. split; [|done].
  destruct ev; [done|discriminate].
Qed.

Section publisher_sends.
Context `{Environment}.

Lemma only_adds_http P r :
  (∀ answer, P (Sent r answer) = true) → only_adds P (http r).
Proof.
  intros HP st. exists [Sent r (server (trace st) r)]. simpl. by rewrite HP.
Qed.

Lemma returns_http r : returns (http r).
Proof. by intros st. Qed.

Lemma only_adds_get_or_create_category category_name :
  only_adds plain_send (get_or_create_category category_name).
Proof.
  unfold get_or_create_category.
  destruct (negb (truthy category_name)); [apply only_adds_ret|].
  destruct category_name as [| |z|name]; try apply only_adds_raise.
  destruct (forallb _ _); [apply only_adds_ret|].
  apply only_adds_bind; [by apply only_adds_http|].
  assert (only_adds plain_send
    (created ← http {| req_method := POST; req_url := Categories;
                       req_body := CategoryData name |};
     mret (match created with
           | Some r =>
               if ok_status r then
                 match body r with
                 | Some (JObject o) => default PNone (o !! "id")
                 | _ => PNone
                 end
               else PNone
           | None => PNone
           end))) as Hcreate.
  { apply only_adds_bind; [by apply only_adds_http|]. intros. apply only_adds_ret. }
  intros [r|]; [|apply only_adds_ret].
  case_bool_decide; [|done].
  destruct (body r) as [[o|[|o items]]|]; try done; try apply only_adds_ret.
  case_bool_decide; [done|apply only_adds_ret].
Qed.

Lemma only_adds_publish_post title content language metadata post_id category_name :
  only_adds plain_send
    (publish_post title content language metadata post_id category_name).
Proof.
  unfold publish_post. apply only_adds_bind.
  { destruct (truthy category_name); [|apply only_adds_ret].
    apply only_adds_bind; [by apply only_adds_get_or_create_category|].
    intros. apply only_adds_ret. }
  intros categories. apply only_adds_bind.
  { apply only_adds_http. intros. unfold post_request. by destruct (truthy post_id). }
  intros [r|]; [|apply only_adds_ret].
  destruct (ok_status r); [|apply only_adds_ret].
  destruct (body r) as [[result|]|]; try apply only_adds_ret.
  apply only_adds_bind; [|intros; apply only_adds_ret].
  apply only_adds_bind; [by apply only_adds_http|]. intros. apply only_adds_ret.
Qed.

Lemma only_adds_set_featured_image post_id file_path :
  only_adds plain_send (set_featured_image post_id file_path).
Proof.
  intros st. unfold set_featured_image.
  destruct (negb (path_exists _ _)); [by apply (only_adds_ret plain_send false)|].
  destruct (negb (bool_decide _)); [by apply (only_adds_ret plain_send false)|].
  revert st. apply only_adds_bind; [by apply only_adds_http|].
  intros [r|]; [|apply only_adds_ret].
  destruct (negb (ok_status r)); [apply only_adds_ret|].
  destruct (body r) as [[media_data|]|]; try apply only_adds_ret.
  apply only_adds_bind; [by apply only_adds_http|]. intros. apply only_adds_ret.
Qed.

Lemma returns_set_featured_image post_id file_path :
  returns (set_featured_image post_id file_path).
Proof.
  intros st. unfold set_featured_image.
  destruct (negb (path_exists _ _)); [done|].
  destruct (negb (bool_decide _)); [done|].
  revert st. apply returns_bind; [apply returns_http|].
  intros [r|]; [|apply returns_ret].
  destruct (negb (ok_status r)); [apply returns_ret|].
  destruct (body r) as [[media_data|]|]; try apply returns_ret.
  apply returns_bind; [apply returns_http|]. intros. apply returns_ret.
Qed.
End publisher_sends.

(** ** The accounts of the loop body *)

Lemma saved_in_app evs1 evs2 : saved_in (evs1 ++ evs2) = saved_in evs1 ++ saved_in evs2.
Proof. unfold saved_in. induction evs1 as [|ev evs1 IH]; [done|]. simpl. by rewrite IH, app_assoc. Qed.

Section pair_accounts.
Context `{Frontmatter} `{Environment}.

Lemma cover_step_end post_id file_path st :
  ∃ evs shown,
    cover_step post_id file_path st =
      (Returned (), {| store := store st; trace := trace st ++ evs;
                       counters := thumbs shown (counters st) |}) ∧
    forallb plain_send evs = true.
Proof.
  unfold cover_step.
  destruct (find_cover_image _ _) as [cover_image|].
  2:{ exists [], false. rewrite app_nil_r. split; [|done]. simpl. by rewrite <- run_eta. }
  rewrite bind_run.
  destruct (only_adds_set_featured_image post_id cover_image st) as (evs & Hst & Hevs).
  pose proof (returns_set_featured_image post_id cover_image st) as Hret.
  destruct (set_featured_image post_id cover_image st) as [[shown|] st1]; [|done].
  simpl in Hst. subst st1. exists evs, shown. split; [|done]. by destruct shown.
Qed.

Lemma save_step_end file_path key value st :
  ∃ fs res,
    save_step file_path key value st =
      (match res with Returned _ => Returned () | Raised => Raised end,
       {| store := {| files := fs; dirs := dirs (store st) |};
          trace := trace st ++ [Saved file_path key value res];
          counters := counters st |}) ∧
    save_end (disk_now (trace st)) (files (store st)) file_path key value (fs, res).
Proof.
  unfold save_step.
  pose proof (save_metadata_to_file_end (disk_now (trace st)) (files (store st))
                file_path key value) as Hend.
  destruct (save_metadata_to_file _ _ _ _ _) as [fs res]. exists fs, res.
  split; [|done]. by destruct res.
Qed.

Lemma publish_ko_end p st r st1 :
  publish_ko p st = (Returned r, st1) →
  ∃ evs,
    trace st1 = trace st ++ evs ∧ List.filter is_link evs = [] ∧
    ((r = None ∧ counters st1 = count_failed (counters st) ∧ saved_in evs = []) ∨
     (∃ ko_post_id shown,
        r = Some ko_post_id ∧
        counters st1 = thumbs shown (count_ko (ko_existing_id p) (counters st)) ∧
        saved_in evs = [(ko_file p, "wp-post-id", ko_post_id)])).
Proof.
  unfold publish_ko. destruct (parse_markdown_file _ _) as [ko_metadata|]; [|done].
  rewrite bind_run.
  destruct (only_adds_publish_post (title ko_metadata) (content ko_metadata) "ko"
              (Some (ko_file p)) (ko_existing_id p)
              (py_get (raw_metadata ko_metadata) "ko-category") st)
    as (evs1 & Hst1 & Hevs1).
  destruct (publish_post _ _ _ _ _ _ st) as [[ko_result|] st0]; [|done].
  simpl in Hst1. subst st0. apply plain_send_quiet in Hevs1 as [Hs1 Hl1].
  destruct (success ko_result); simpl.
  - rewrite bind_run. unfold with_counters at 1. rewrite bind_run.
    match goal with |- context [save_step ?f ?k ?v ?s] =>
      destruct (save_step_end f k v s) as (fs & res & -> & _) end.
    destruct res as [saved|]; [|done]. rewrite bind_run.
    match goal with |- context [cover_step ?i ?f ?s] =>
      destruct (cover_step_end i f s) as (evs2 & shown & -> & Hevs2) end.
    apply plain_send_quiet in Hevs2 as [Hs2 Hl2].
    rewrite ret_run. intros [= <- <-]. simpl.
    eexists. rewrite <- !app_assoc. split; [done|].
    rewrite !List.filter_app, Hl1, Hl2. split; [done|]. right.
    eexists _, shown. split; [done|]. split; [done|].
    rewrite !saved_in_app, Hs1, Hs2. done.
  - rewrite bind_run. unfold with_counters. rewrite ret_run. intros [= <- <-]. simpl.
    exists evs1. split; [done|]. split; [done|]. by left.
Qed.

Lemma publish_en_end p e ko_post_id st st1 :
  publish_en p e ko_post_id st = (Returned (), st1) →
  ∃ evs,
    trace st1 = trace st ++ evs ∧
    ((counters st1 = count_failed (counters st) ∧ saved_in evs = [] ∧
      List.filter is_link evs = []) ∨
     (∃ en_post_id shown (linked : bool),
        counters st1 =
          (if linked then count_linked else count_failed)
            (thumbs shown (count_en (en_existing_id p) (counters st))) ∧
        saved_in evs = [(e, "wp-post-id", en_post_id)] ∧
        ∃ answer,
          List.filter is_link evs = [Sent (link_request ko_post_id en_post_id) answer])).
Proof.
  unfold publish_en. destruct (parse_markdown_file _ _) as [en_metadata|]; [|done].
  rewrite bind_run.
  destruct (only_adds_publish_post (title en_metadata) (content en_metadata) "en"
              (Some e) (en_existing_id p)
              (py_get (raw_metadata en_metadata) "en-category") st)
    as (evs1 & Hst1 & Hevs1).
  destruct (publish_post _ _ _ _ _ _ st) as [[en_result|] st0]; [|done].
  simpl in Hst1. subst st0. apply plain_send_quiet in Hevs1 as [Hs1 Hl1].
  destruct (success en_result); simpl.
  - rewrite bind_run. unfold with_counters at 1. rewrite bind_run.
    match goal with |- context [save_step ?f ?k ?v ?s] =>
      destruct (save_step_end f k v s) as (fs & res & -> & _) end.
    destruct res as [saved|]; [|done]. rewrite bind_run.
    match goal with |- context [cover_step ?i ?f ?s] =>
      destruct (cover_step_end i f s) as (evs2 & shown & -> & Hevs2) end.
    apply plain_send_quiet in Hevs2 as [Hs2 Hl2].
    rewrite bind_run. unfold link_translations. rewrite bind_run.
    unfold http at 1. rewrite ret_run. cbn [trace store counters].
    match goal with |- context [if ?b then with_counters count_linked else _] =>
      set (linked := b) end.
    intros Hrun. eexists. split.
    { destruct linked; unfold with_counters in Hrun; injection Hrun as <-;
        simpl; rewrite <- !app_assoc; done. }
    right. eexists _, shown, linked. split.
    { destruct linked; unfold with_counters in Hrun; by injection Hrun as <-. }
    rewrite !saved_in_app, !List.filter_app, Hs1, Hs2, Hl1, Hl2.
    split; [done|]. by eexists.
  - unfold with_counters. intros [= <-]. simpl.
    exists evs1. split; [done|]. by left.
Qed.
End pair_accounts.

Lemma tallies_nil c : tallies [] c c [].
Proof. split; simpl; try lia. intros ??? Hin. by apply elem_of_nil in Hin. Qed.

Lemma tallies_cons p ps c c1 c2 evs1 evs2 :
  tallies [p] c c1 evs1 → tallies ps c1 c2 evs2 →
  tallies (p :: ps) c c2 (evs1 ++ evs2).
Proof.
  intros [? ? ? ? ? ? ? ? ? ? ? ? ? ? Hkeys1] [? ? ? ? ? ? ? ? ? ? ? ? ? ? Hkeys2].
  assert (∀ q : pair → bool,
            length (List.filter q (p :: ps)) =
            length (List.filter q [p]) + length (List.filter q ps)) as Hfilter.
  { intros q. simpl. by destruct (q p). }
  split; rewrite ?saved_in_app, ?List.filter_app, ?length_app, ?Hfilter;
    try (simpl length in *; lia).
  intros f k v [Hin|Hin]%elem_of_app.
  - destruct (Hkeys1 f k v Hin) as [-> Hf]. split; [done|].
    unfold docs_of in *. simpl in Hf. rewrite app_nil_r in Hf.
    apply elem_of_app. by left.
  - destruct (Hkeys2 f k v Hin) as [-> Hf]. split; [done|].
    apply elem_of_app. by right.
Qed.

Ltac tally :=
  unfold ko_done, en_done, thumbs, count_ko, count_en, count_thumbnail,
    count_failed, count_linked;
  simpl;
  repeat match goal with H : en_file _ = _ |- _ => rewrite H end;
  repeat match goal with H : path_truthy _ = _ |- _ => rewrite H end;
  repeat match goal with |- context [truthy ?x] => destruct (truthy x) end;
  simpl;
  repeat match goal with |- context [if ?b then _ else _] => destruct b end;
  simpl; lia.

Section loop_accounts.
Context `{Frontmatter} `{Environment}.

Lemma process_pair_tallies p st st' :
  process_pair p st = (Returned (), st') →
  ∃ evs, trace st' = trace st ++ evs ∧ tallies [p] (counters st) (counters st') evs.
Proof.
  unfold process_pair. rewrite bind_run.
  destruct (publish_ko p st) as [[ko|] st1] eqn:Hko; [|done].
  apply publish_ko_end in Hko as (evs1 & Htr1 & Hl1 & Hko).
  destruct Hko as [(-> & Hc1 & Hs1)|(ko_post_id & shown & -> & Hc1 & Hs1)].
  { rewrite ret_run. intros [= <-]. exists evs1. split; [done|].
    rewrite Hc1. split; unfold ko_new, en_new; rewrite ?Hs1, ?Hl1; try solve [tally].
    intros ??? Hin. by apply elem_of_nil in Hin. }
  assert (ko_file p ∈ docs_of [p]) as Hdoc.
  { unfold docs_of. simpl. rewrite app_nil_r. left. }
  destruct (en_file p) as [e|] eqn:He.
  2:{ rewrite ret_run. intros [= <-]. exists evs1. split; [done|].
      rewrite Hc1. split; unfold ko_new, en_new; rewrite ?He, ?Hs1, ?Hl1; try solve [tally].
      intros f k v [= -> -> ->]%list_elem_of_singleton; done. }
  destruct (path_truthy (Some e)) eqn:Ht.
  2:{ rewrite ret_run. intros [= <-]. exists evs1. split; [done|].
      rewrite Hc1. split; unfold ko_new, en_new; rewrite ?He, ?Ht, ?Hs1, ?Hl1; try solve [tally].
      intros f k v [= -> -> ->]%list_elem_of_singleton; done. }
  intros Hen. apply publish_en_end in Hen as (evs2 & Htr2 & Hen).
  exists (evs1 ++ evs2). split; [by rewrite Htr2, Htr1, app_assoc|].
  assert (e ∈ docs_of [p]) as Hdoc2.
  { unfold docs_of, pair_docs. simpl. rewrite He, Ht. simpl. right. left. }
  destruct Hen as [(Hc2 & Hs2 & Hl2)|(en_post_id & shown2 & linked & Hc2 & Hs2 & answer & Hl2)].
  - rewrite Hc2, Hc1. split; unfold ko_new, en_new; rewrite ?He, ?Ht, ?saved_in_app, ?List.filter_app, ?length_app, ?Hs1, ?Hl1, ?Hs2, ?Hl2;
      try solve [tally].
    intros f k v [= -> -> ->]%list_elem_of_singleton; done.
  - rewrite Hc2, Hc1. split; unfold ko_new, en_new; rewrite ?He, ?Ht, ?saved_in_app, ?List.filter_app, ?length_app, ?Hs1, ?Hl1, ?Hs2, ?Hl2;
      try solve [tally].
    intros f k v [[= -> -> ->]|[= -> -> ->]%list_elem_of_singleton]%elem_of_cons; done.
Qed.

Lemma process_loop_tallies ps : ∀ st st',
  process_loop ps st = (Returned (), st') →
  ∃ evs, trace st' = trace st ++ evs ∧ tallies ps (counters st) (counters st') evs.
Proof.
  induction ps as [|p ps IH]; intros st st'.
  - simpl. rewrite ret_run. intros [= <-]. exists []. rewrite app_nil_r.
    split; [done|apply tallies_nil].
  - simpl. rewrite bind_run.
    destruct (process_pair p st) as [[[]|] st1] eqn:Hp; [|done].
    apply process_pair_tallies in Hp as (evs1 & Htr1 & Ht1).
    intros (evs2 & Htr2 & Ht2)%IH. exists (evs1 ++ evs2).
    split; [by rewrite Htr2, Htr1, app_assoc|]. by eapply tallies_cons.
Qed.

Lemma process_pairs_tallies ps st c st' :
  process_pairs ps st = (Returned c, st') →
  c = counters st' ∧
  ∃ evs, trace st' = trace st ++ evs ∧
         tallies ps (initial_stats (length ps)) c evs.
Proof.
  unfold process_pairs. rewrite bind_run.
  set (st0 := {| store := store st; trace := trace st; counters := _ |}).
  destruct (process_loop ps st0) as [[[]|] st1] eqn:Hloop; [|done].
  unfold read_counters. intros [= <- <-]. split; [done|].
  by apply process_loop_tallies in Hloop.
Qed.
End loop_accounts.

(** ** What a run rewrites *)

Lemma rewrites_only_refl docs w : rewrites_only docs w w.
Proof. by split. Qed.

Lemma rewrites_only_trans docs w1 w2 w3 :
  rewrites_only docs w1 w2 → rewrites_only docs w2 w3 → rewrites_only docs w1 w3.
Proof.
  intros [Hd1 Hf1] [Hd2 Hf2]. split; [congruence|]. intros f.
  destruct (Hf1 f) as [Hs1 Hk1], (Hf2 f) as [Hs2 Hk2]. split.
  - by rewrite Hs2.
  - intros Hf. by rewrite Hk2, Hk1.
Qed.

Lemma rewrites_only_more docs docs' w w' :
  (∀ f, f ∈ docs → f ∈ docs') → rewrites_only docs w w' → rewrites_only docs' w w'.
Proof.
  intros Hsub [Hd Hf]. split; [done|]. intros f. destruct (Hf f) as [Hs Hk].
  split; [done|]. intros Hout. apply Hk. intros Hin. by apply Hout, Hsub.
Qed.

Section touches_facts.
Context {A B : Type}.

Lemma touches_ret docs (a : A) : touches docs (mret a).
Proof. intros st a' st' [= _ <-]. apply rewrites_only_refl. Qed.

Lemma touches_bind docs (m : Run A) (f : A → Run B) :
  touches docs m → (∀ a, touches docs (f a)) → touches docs (m ≫= f).
Proof.
  intros Hm Hf st b st''. rewrite bind_run.
  destruct (m st) as [[a|] st'] eqn:E; [|done].
  intros Hfa. eapply rewrites_only_trans; [by eapply Hm|by eapply Hf].
Qed.

Lemma touches_more docs docs' (m : Run A) :
  (∀ f, f ∈ docs → f ∈ docs') → touches docs m → touches docs' m.
Proof. intros Hsub Hm st a st' Hrun. eapply rewrites_only_more; [done|by eapply Hm]. Qed.

Lemma only_adds_touches P docs (m : Run A) : only_adds P m → touches docs m.
Proof.
  intros Hm st a st' Hrun. destruct (Hm st) as (evs & Hst & _).
  rewrite Hrun in Hst. simpl in Hst. subst st'. apply rewrites_only_refl.
Qed.
End touches_facts.

Lemma touches_with_counters docs f : touches docs (with_counters f).
Proof. intros st a st' [= _ <-]. apply rewrites_only_refl. Qed.

Lemma docs_of_cons p ps : docs_of (p :: ps) = pair_docs p ++ docs_of ps.
Proof. done. Qed.

Section footprint.
Context `{Frontmatter} `{Environment}.

Lemma touches_save_step file_path key value :
  touches [file_path] (save_step file_path key value).
Proof.
  intros st a st'. destruct (save_step_end file_path key value st) as (fs & res & -> & Hend).
  destruct res as [saved|]; [|done]. intros [= <-]. simpl.
  inversion Hend as [| |original_content p new_content stored Ho]; subst.
  - by destruct (store st).
  - split; [done|]. simpl. intros f. destruct (decide (f = file_path)) as [->|Hne].
    + rewrite lookup_insert_eq, Ho. split; [by split; eauto|].
      intros Hout. destruct Hout. left.
    + rewrite lookup_insert_ne by done. done.
Qed.

Lemma touches_cover_step docs post_id file_path :
  touches docs (cover_step post_id file_path).
Proof.
  intros st a st'. destruct (cover_step_end post_id file_path st) as (evs & shown & -> & _).
  intros ?. simplify_eq. apply rewrites_only_refl.
Qed.

Lemma touches_publish_ko p : touches [ko_file p] (publish_ko p).
Proof.
  intros st. unfold publish_ko.
  destruct (parse_markdown_file _ _) as [ko_metadata|]; [|done].
  revert st. apply touches_bind.
  { eapply only_adds_touches, only_adds_publish_post. }
  intros r. destruct (negb (success r)).
  { apply touches_bind; [apply touches_with_counters|]. intros. apply touches_ret. }
  apply touches_bind; [apply touches_with_counters|]. intros _.
  apply touches_bind; [apply touches_save_step|]. intros _.
  apply touches_bind; [apply touches_cover_step|]. intros _. apply touches_ret.
Qed.

Lemma touches_publish_en p e ko_post_id : touches [e] (publish_en p e ko_post_id).
Proof.
  intros st. unfold publish_en.
  destruct (parse_markdown_file _ _) as [en_metadata|]; [|done].
  revert st. apply touches_bind.
  { eapply only_adds_touches, only_adds_publish_post. }
  intros r. destruct (negb (success r)); [apply touches_with_counters|].
  apply touches_bind; [apply touches_with_counters|]. intros _.
  apply touches_bind; [apply touches_save_step|]. intros _.
  apply touches_bind; [apply touches_cover_step|]. intros _.
  apply touches_bind.
  { eapply (only_adds_touches (λ _, true)).
    apply only_adds_bind; [by apply only_adds_http|]. intros. apply only_adds_ret. }
  intros [|]; apply touches_with_counters.
Qed.

Lemma touches_process_pair p : touches (pair_docs p) (process_pair p).
Proof.
  unfold process_pair. apply touches_bind.
  { eapply touches_more, touches_publish_ko.
    intros f ->%list_elem_of_singleton. left. }
  intros [ko_post_id|]; [|apply touches_ret].
  destruct (en_file p) as [e|] eqn:He; [|apply touches_ret].
  destruct (path_truthy (Some e)) eqn:Ht; [|apply touches_ret].
  eapply touches_more, touches_publish_en.
  intros f ->%list_elem_of_singleton. unfold pair_docs. rewrite He, Ht. right. left.
Qed.

Lemma touches_process_loop ps : touches (docs_of ps) (process_loop ps).
Proof.
  induction ps as [|p ps IH]; [apply touches_ret|].
  cbn [process_loop]. apply touches_bind.
  - eapply touches_more, touches_process_pair.
    intros f Hf. rewrite docs_of_cons. apply elem_of_app. by left.
  - intros _. eapply touches_more, IH.
    intros f Hf. rewrite docs_of_cons. apply elem_of_app. by right.
Qed.
End footprint.

(** ** How a run can stop *)

Section stops.
Context `{Frontmatter} `{Environment}.

Lemma get_or_create_category_stops category_name st :
  (get_or_create_category category_name st).1 = Raised ↔
  bad_category category_name = true.
Proof.
  unfold get_or_create_category, bad_category.
  destruct (truthy category_name) eqn:Ht; simpl; [|done].
  destruct category_name as [| |z|name]; try done.
  destruct (forallb _ _); [done|].
  rewrite bind_run. unfold http at 1.
  destruct (server (trace st) _) as [r|]; [|done].
  case_bool_decide; [|done].
  destruct (body r) as [[o|[|o items]]|]; try done.
  case_bool_decide; done.
Qed.

Lemma get_or_create_category_raised category_name st :
  bad_category category_name = true →
  get_or_create_category category_name st = (Raised, st).
Proof.
  unfold get_or_create_category, bad_category.
  destruct (truthy category_name) eqn:Ht; simpl; [|done].
  by destruct category_name.
Qed.

Lemma publish_post_stops title content language metadata post_id category_name st :
  publish_post title content language metadata post_id category_name st =
  (Raised, st) ∧ bad_category category_name = true
  ∨ (publish_post title content language metadata post_id category_name st).1 ≠ Raised
    ∧ bad_category category_name = false.
Proof.
  destruct (bad_category category_name) eqn:Hbad.
  - left. split; [|done]. unfold publish_post. rewrite bind_run.
    assert (truthy category_name = true) as ->.
    { unfold bad_category in Hbad. by destruct (truthy category_name). }
    rewrite bind_run. by rewrite get_or_create_category_raised.
  - right. split; [|done]. unfold publish_post. rewrite bind_run.
    assert (∀ A (k : option pyval → Run A) st0,
              (∀ c st1, (k c st1).1 ≠ Raised) →
              (match (if truthy category_name
                      then category_id ← get_or_create_category category_name;
                           mret (if truthy category_id then Some category_id else None)
                      else mret None) st0 with
               | (Returned a, st') => k a st'
               | (Raised, st') => (Raised, st')
               end).1 ≠ Raised) as Hphase.
    { intros A k st0 Hk. destruct (truthy category_name) eqn:Ht; [|apply Hk].
      rewrite bind_run.
      pose proof (get_or_create_category_stops category_name st0) as Hstop.
      destruct (get_or_create_category category_name st0) as [[category_id|] st1];
        [apply Hk|].
      simpl in Hstop. destruct Hstop as [Hstop _]. by rewrite Hstop in Hbad. }
    apply Hphase. intros categories st1. rewrite bind_run. unfold http at 1.
    destruct (server (trace st1) _) as [r|]; [|done].
    destruct (ok_status r); [|done].
    destruct (body r) as [[result|]|]; try done.
Qed.

Lemma save_step_stops file_path value st st' :
  save_step file_path "wp-post-id" value st = (Raised, st') →
  save_escapes file_path st'.
Proof.
  destruct (save_step_end file_path "wp-post-id" value st) as (fs & res & -> & Hend).
  destruct res as [saved|]; [done|]. intros [= <-]. simpl.
  exists (trace st), value. split; [done|]. by inversion Hend.
Qed.

Lemma publish_ko_stops p st st' :
  publish_ko p st = (Raised, st') →
  unusable (store st') (ko_file p) "ko-category" ∨ save_escapes (ko_file p) st'.
Proof.
  unfold publish_ko, unusable.
  destruct (parse_markdown_file (store st) (ko_file p)) as [ko_metadata|] eqn:Hparse.
  2:{ intros [= <-]. left. by rewrite Hparse. }
  rewrite bind_run.
  destruct (publish_post_stops (title ko_metadata) (content ko_metadata) "ko"
              (Some (ko_file p)) (ko_existing_id p)
              (py_get (raw_metadata ko_metadata) "ko-category") st)
    as [[-> Hbad]|[Hret _]].
  { intros [= <-]. left. by rewrite Hparse. }
  destruct (publish_post _ _ _ _ _ _ st) as [[ko_result|] st0]; [|done].
  destruct (success ko_result); simpl; [|done].
  rewrite bind_run. unfold with_counters at 1. rewrite bind_run.
  match goal with |- context [save_step ?f ?k ?v ?s] =>
    destruct (save_step f k v s) as [[[]|] st1] eqn:Hsave end.
  2:{ intros [= <-]. right. by eapply save_step_stops. }
  rewrite bind_run.
  match goal with |- context [cover_step ?i ?f ?s] =>
    destruct (cover_step_end i f s) as (evs2 & shown & -> & _) end.
  done.
Qed.

Lemma publish_en_stops p e ko_post_id st st' :
  publish_en p e ko_post_id st = (Raised, st') →
  unusable (store st') e "en-category" ∨ save_escapes e st'.
Proof.
  unfold publish_en, unusable.
  destruct (parse_markdown_file (store st) e) as [en_metadata|] eqn:Hparse.
  2:{ intros [= <-]. left. by rewrite Hparse. }
  rewrite bind_run.
  destruct (publish_post_stops (title en_metadata) (content en_metadata) "en"
              (Some e) (en_existing_id p)
              (py_get (raw_metadata en_metadata) "en-category") st)
    as [[-> Hbad]|[Hret _]].
  { intros [= <-]. left. by rewrite Hparse. }
  destruct (publish_post _ _ _ _ _ _ st) as [[en_result|] st0]; [|done].
  destruct (success en_result); simpl; [|done].
  rewrite bind_run. unfold with_counters at 1. rewrite bind_run.
  match goal with |- context [save_step ?f ?k ?v ?s] =>
    destruct (save_step f k v s) as [[[]|] st1] eqn:Hsave end.
  2:{ intros [= <-]. right. by eapply save_step_stops. }
  rewrite bind_run.
  match goal with |- context [cover_step ?i ?f ?s] =>
    destruct (cover_step_end i f s) as (evs2 & shown & -> & _) end.
  rewrite bind_run. unfold link_translations. rewrite bind_run. unfold http at 1.
  rewrite ret_run.
  match goal with |- context [if ?b then with_counters count_linked else _] =>
    destruct b end; done.
Qed.

Lemma process_pair_stops p st st' :
  process_pair p st = (Raised, st') →
  unusable (store st') (ko_file p) "ko-category" ∨
  (∃ e, en_file p = Some e ∧ e ≠ "" ∧ unusable (store st') e "en-category") ∨
  (∃ f, f ∈ pair_docs p ∧ save_escapes f st').
Proof.
  unfold process_pair. rewrite bind_run.
  destruct (publish_ko p st) as [[ko|] st1] eqn:Hko.
  2:{ intros [= <-]. apply publish_ko_stops in Hko as [?|?]; [by left|].
      right. right. exists (ko_file p). split; [left|done]. }
  destruct ko as [ko_post_id|]; [|done].
  destruct (en_file p) as [e|] eqn:He; [|done].
  destruct (path_truthy (Some e)) eqn:Ht; [|done].
  intros [?|?]%publish_en_stops; right.
  - left. exists e. split; [done|]. split; [|done].
    intros ->. done.
  - right. exists e. split; [|done]. unfold pair_docs. rewrite He, Ht. right. left.
Qed.

Lemma process_loop_stops ps : ∀ st st',
  process_loop ps st = (Raised, st') →
  ∃ p, p ∈ ps ∧
    (unusable (store st') (ko_file p) "ko-category" ∨
     (∃ e, en_file p = Some e ∧ e ≠ "" ∧ unusable (store st') e "en-category") ∨
     (∃ f, f ∈ pair_docs p ∧ save_escapes f st')).
Proof.
  induction ps as [|p ps IH]; intros st st'; [done|].
  cbn [process_loop]. rewrite bind_run.
  destruct (process_pair p st) as [[[]|] st1] eqn:Hp.
  - intros (q & Hq & Hstop)%IH. exists q. split; [by right|done].
  - intros [= <-]. exists p. split; [left|]. by apply process_pair_stops in Hp.
Qed.
End stops.

(** ** The reconciler as a whole *)

(** X1. When [process_pairs] returns, the summary it prints adds up.
    [total] is the number of pairs.  At most one Korean post is counted
    per pair, at most one English post per Korean post and at most one
    link per English post.  No pair is counted both as linked and as
    failed.  Every pair whose Korean post is not counted, and every
    English post that is not linked, has counted a failure.  At most one
    thumbnail is counted per post.  Posts are counted as created only for
    pairs that came without an id and as updated only for pairs that came
    with one. *)
Theorem process_pairs_accounts `{Frontmatter} `{Environment} ps st c st' :
  process_pairs ps st = (Returned c, st') →
  let ko := (ko_created c + ko_updated c)%nat in
  let en := (en_created c + en_updated c)%nat in
  total c = length ps ∧
  (linked c ≤ en ∧ en ≤ ko ∧ ko ≤ total c)%nat ∧
  (failed c + linked c ≤ total c)%nat ∧
  ((total c - ko) + (en - linked c) ≤ failed c)%nat ∧
  (thumbnail_set c ≤ ko + en)%nat ∧
  (ko_created c ≤ length (List.filter ko_new ps))%nat ∧
  (ko_updated c ≤ length (List.filter (λ p, negb (ko_new p)) ps))%nat ∧
  (en_created c ≤ length (List.filter en_new ps))%nat ∧
  (en_updated c
     ≤ length (List.filter (λ p, path_truthy (en_file p) && negb (en_new p)) ps))%nat.
Proof.
  intros (_ & evs & _ & [? ? ? ? ? ? ? ? ? ? ? ? ? ? Hkeys])%process_pairs_tallies.
  unfold ko_done, en_done in *. simpl in *. repeat split; lia.
Qed.

(** X2. When [process_pairs] returns, it has called
    [save_metadata_to_file] once for every post it counts as created or
    updated, each time with the key [wp-post-id] and on a document of the
    pairs, and it has sent one request to [link-translations] for every
    English post it counts. *)
Theorem process_pairs_saves_each_post `{Frontmatter} `{Environment} ps st c st' :
  process_pairs ps st = (Returned c, st') →
  ∃ evs,
    trace st' = trace st ++ evs ∧
    length (saved_in evs) =
      (ko_created c + ko_updated c + (en_created c + en_updated c))%nat ∧
    length (List.filter is_link evs) = (en_created c + en_updated c)%nat ∧
    ∀ file_path key value, (file_path, key, value) ∈ saved_in evs →
      key = "wp-post-id" ∧ file_path ∈ docs_of ps.
Proof.
  intros (_ & evs & Htr & [? ? ? ? ? ? ? ? ? ? ? ? ? ? Hkeys])%process_pairs_tallies. exists evs.
  unfold ko_done, en_done in *. simpl in *.
  split; [done|]. split; [lia|]. split; [lia|done].
Qed.

(** X3. When [process_pairs] returns, the file store holds the files
    and directories it held before, and every file that is not a
    document of the pairs has the text it had: the run creates nothing,
    deletes nothing and leaves no temporary file. *)
Theorem process_pairs_rewrites_documents_only `{Frontmatter} `{Environment}
    ps st c st' :
  process_pairs ps st = (Returned c, st') →
  dirs (store st') = dirs (store st) ∧
  ∀ f, (is_Some (files (store st') !! f) ↔ is_Some (files (store st) !! f)) ∧
       (f ∉ docs_of ps → files (store st') !! f = files (store st) !! f).
Proof.
  unfold process_pairs. rewrite bind_run.
  set (st0 := {| store := store st; trace := trace st; counters := _ |}).
  destruct (process_loop ps st0) as [[[]|] st1] eqn:Hloop; [|done].
  unfold read_counters. intros [= _ <-].
  by apply touches_process_loop in Hloop.
Qed.

(** X4. An exception leaves [process_pairs] in three cases only, each
    at a pair of the list: [parse_markdown_file] returns [None] for the
    pair's Korean or English file at that moment, or the category in its
    front matter is set and is not a string; or a call of
    [save_metadata_to_file] on one of the pair's documents has let the
    exception of its handler's [os.unlink] escape. *)
Theorem process_pairs_stops_only `{Frontmatter} `{Environment} ps st st' :
  process_pairs ps st = (Raised, st') →
  ∃ p, p ∈ ps ∧
    (unusable (store st') (ko_file p) "ko-category" ∨
     (∃ e, en_file p = Some e ∧ e ≠ "" ∧ unusable (store st') e "en-category") ∨
     (∃ f, f ∈ pair_docs p ∧ save_escapes f st')).
Proof.
  unfold process_pairs. rewrite bind_run.
  set (st0 := {| store := store st; trace := trace st; counters := _ |}).
  destruct (process_loop ps st0) as [[[]|] st1] eqn:Hloop; [done|].
  intros [= <-]. by apply process_loop_stops in Hloop.
Qed.

(** X5. [publish_post] lets an exception escape exactly when
    [category_name] passes [if category_name:] and is not a string (the
    call of [strip] in [get_or_create_category] comes before any [try]);
    nothing has been sent then.  With no category, or a string, it
    always returns. *)
Theorem publish_post_raises_iff `{Environment}
    title content language metadata post_id category_name st :
  let res := publish_post title content language metadata post_id category_name st in
  (res.1 = Raised ↔ bad_category category_name = true) ∧
  (res.1 = Raised → res.2 = st).
Proof.
  intros res. unfold res.
  destruct (publish_post_stops title content language metadata post_id
              category_name st) as [[-> Hbad]|[Hret Hgood]]; simpl.
  - done.
  - split; [|done]. split; [done|]. by rewrite Hgood.
Qed.

(** ** The order of the pairs and the last strategy *)

Lemma Forall_sublist {A} (P : A → Prop) (l k : list A) :
  l `sublist_of` k → Forall P k → Forall P l.
Proof.
  induction 1 as [|x l k Hlk IH|x l k Hlk IH]; [done| |].
  - intros [Hx Hk]%Forall_cons. apply Forall_cons. auto.
  - intros [Hx Hk]%Forall_cons. auto.
Qed.

Lemma StronglySorted_sublist {A} (R : relation A) (l k : list A) :
  l `sublist_of` k → StronglySorted R k → StronglySorted R l.
Proof.
  induction 1 as [|x l k Hlk IH|x l k Hlk IH]; [done| |].
  - intros [Hk Hx]%StronglySorted_inv. constructor; [auto|].
    by eapply Forall_sublist.
  - intros [Hk Hx]%StronglySorted_inv. auto.
Qed.

Section order_facts.
Context `{Frontmatter}.
Variables (w : world) (l : list string).

Local Abbreviation ix := (build_index w l).

Lemma all_files_sublist l0 :
  map fst (all_files (build_index w l0)) `sublist_of` l0.
Proof.
  induction l0 as [|f l0 IH] using rev_ind; [done|].
  rewrite build_index_snoc.
  destruct (parse_markdown_file w f) as [m|] eqn:Hparse.
  - rewrite (index_file_eligible w _ f m Hparse). simpl.
    rewrite od_set_keys by (intros; apply String.eqb_refl || apply String.eqb_sym || idtac).
    destruct (od_mem _ _ _).
    + by apply sublist_inserts_r.
    + by apply sublist_app.
  - rewrite index_file_skipped by done. by apply sublist_inserts_r.
Qed.

Lemma pair_all_sublist items : ∀ st,
  ∃ ks, map ko_file (pairs (pair_all w ix items st)) = map ko_file (pairs st) ++ ks ∧
        ks `sublist_of` map fst items.
Proof.
  induction items as [|[k m] items IH]; intros st.
  { exists []. by rewrite app_nil_r. }
  rewrite pair_all_cons. destruct (IH (pair_file w ix st (k, m))) as (ks & -> & Hks).
  unfold pair_file. cbn [fst snd].
  case_bool_decide.
  { exists ks. split; [done|]. by apply sublist_cons. }
  destruct (is_english k).
  { exists ks. split; [done|]. by apply sublist_cons. }
  exists (k :: ks). cbn [pairs]. rewrite map_app, <- app_assoc. split; [done|].
  by apply sublist_skip.
Qed.
End order_facts.
(** X6. The pairs come out in the order of discovery of their Korean
    files, which is the ascending order of their paths: [process_pairs]
    works through the documents in that order.  The title of a pair is
    the title its Korean file is read with. *)
Theorem collect_language_pairs_in_order `{Frontmatter} w tree publish_folder :
  let ps := collect_language_pairs w tree publish_folder in
  map ko_file ps `sublist_of` get_markdown_files tree publish_folder None ∧
  StronglySorted String.le (map ko_file ps) ∧
  ∀ p, p ∈ ps →
    ∃ m, parse_markdown_file w (ko_file p) = Some m ∧ pair_title p = title m.
Proof.
  intros ps. set (l := get_markdown_files tree publish_folder None).
  assert (map ko_file ps `sublist_of` l) as Hsub.
  { unfold ps, collect_language_pairs, collect_pairs. fold l.
    destruct (pair_all_sublist w l (all_files (build_index w l)) no_pairs)
      as (ks & -> & Hks).
    simpl. etrans; [exact Hks|]. apply all_files_sublist. }
  split; [exact Hsub|]. split.
  { eapply StronglySorted_sublist; [exact Hsub|].
    apply StronglySorted_merge_sort; apply _. }
  unfold ps, collect_language_pairs, collect_pairs. fold l.
  assert (∀ items st,
            (∀ item, item ∈ items → item ∈ all_files (build_index w l)) →
            (∀ p, p ∈ pairs st →
               ∃ m, parse_markdown_file w (ko_file p) = Some m ∧ pair_title p = title m) →
            ∀ p, p ∈ pairs (pair_all w (build_index w l) items st) →
               ∃ m, parse_markdown_file w (ko_file p) = Some m ∧ pair_title p = title m)
    as Hall.
  { induction items as [|[k m] items IH]; intros st Hitems Hst; [done|].
    rewrite pair_all_cons. apply IH.
    { intros item Hitem. apply Hitems. by right. }
    unfold pair_file. cbn [fst snd].
    case_bool_decide; [done|]. destruct (is_english k); [done|].
    cbn [pairs]. intros p [Hp|Hp%list_elem_of_singleton]%elem_of_app; [auto|].
    subst p. cbn [ko_file pair_title]. exists m. split; [|done].
    assert ((k, m) ∈ all_files (build_index w l)) as Hk by (apply Hitems; left).
    by apply all_files_elem in Hk as [_ Hk]. }
  apply Hall; [done|]. intros p Hp. by apply elem_of_nil in Hp.
Qed.

Lemma find_all_false {A} (q : A → bool) (l : list A) :
  (∀ x, x ∈ l → q x = false) → List.find q l = None.
Proof.
  induction l as [|x l IH]; [done|]. intros Hall. simpl.
  rewrite Hall by left. apply IH. intros y Hy. apply Hall. by right.
Qed.

Section last_strategy.
Context `{Frontmatter}.
Variables (w : world) (l : list string).

Local Abbreviation ix := (build_index w l).

Lemma group_match_none processed k m :
  (truthy (group_id m) = true →
   ∀ f, f ∈ l → in_group w (group_id m) f = true →
        f = k ∨ is_english f = false ∨ f ∈ processed) →
  group_match ix processed k m = None.
Proof.
  intros Hnone. rewrite group_match_find.
  destruct (truthy (group_id m)) eqn:Hg; [|done].
  apply find_all_false. intros f Hf.
  destruct (in_group w (group_id m) f) eqn:Hin; [|done]. simpl.
  destruct (Hnone eq_refl f Hf Hin) as [->|[->|Hp]].
  - by rewrite String.eqb_refl.
  - by rewrite andb_false_r.
  - rewrite bool_decide_eq_true_2 by done. by rewrite andb_false_r.
Qed.

Lemma mirror_match_none m :
  (truthy (mirror_post_id m) = true →
   ∀ f, f ∈ l → has_post_id w (mirror_post_id m) f = false) →
  mirror_match ix m = None.
Proof.
  intros Hnone. unfold mirror_match.
  destruct (truthy (mirror_post_id m)) eqn:Hm; [|done].
  rewrite post_id_to_file_spec.
  assert (List.filter (has_post_id w (mirror_post_id m)) l = []) as ->; [|done].
  specialize (Hnone eq_refl). induction l as [|f l0 IH]; [done|]. simpl.
  rewrite Hnone by left. apply IH. intros f' Hf'. apply Hnone. by right.
Qed.
End last_strategy.
(** X7. When the pairing loop reaches a Korean file [k] that it does
    not skip, no unprocessed file of [k]'s group lies in an English
    folder and no document holds the post id that [k] names as its
    mirror, the third strategy decides: if the folder [english] next to
    [k] exists and the file of [k]'s name in it is an eligible document
    that is not processed yet, that file is the English file of the pair,
    with the [wp-post-id] it carries; otherwise the pair has no English
    file and no English id. *)
Theorem folder_match_last_resort `{Frontmatter} w tree publish_folder before k m after :
  let markdown_files := get_markdown_files tree publish_folder None in
  let ix := build_index w markdown_files in
  all_files ix = before ++ (k, m) :: after →
  let processed := processed_files (pair_all w ix before no_pairs) in
  let en_dir := Path.join (Path.dirname k) "english" in
  let sibling := Path.join en_dir (Path.basename k) in
  k ∉ processed → is_english k = false →
  (truthy (group_id m) = true →
   ∀ f, f ∈ markdown_files → in_group w (group_id m) f = true →
        f = k ∨ is_english f = false ∨ f ∈ processed) →
  (truthy (mirror_post_id m) = true →
   ∀ f, f ∈ markdown_files → has_post_id w (mirror_post_id m) f = false) →
  ∃ p, p ∈ collect_language_pairs w tree publish_folder ∧ ko_file p = k ∧
    (∀ me, path_exists w en_dir = true → sibling ∈ markdown_files →
           parse_markdown_file w sibling = Some me → sibling ∉ processed →
           en_file p = Some sibling ∧ en_existing_id p = wp_post_id me) ∧
    (path_exists w en_dir = false ∨ sibling ∉ markdown_files ∨
     parse_markdown_file w sibling = None ∨ sibling ∈ processed →
     en_file p = None ∧ en_existing_id p = PNone).
Proof.
  intros l ix Hsplit processed en_dir sibling Hk Hen Hgroup Hmirror.
  exists (pair_for w l processed k m).
  split; [by apply (collect_pairs_turn w l before k m after)|].
  split; [done|].
  assert (group_match ix processed k m = None) as Hgm
    by apply (group_match_none w l processed k m Hgroup).
  assert (mirror_match ix m = None) as Hmm
    by apply (mirror_match_none w l m Hmirror).
  unfold pair_for, find_english. fold ix. rewrite Hgm, Hmm.
  cbn [ko_file en_file en_existing_id fst snd path_truthy].
  unfold folder_match. fold en_dir sibling. split.
  - intros me Hdir Hin Hparse Hfree. rewrite Hdir.
    assert (od_mem String.eqb (all_files ix) sibling = true) as ->.
    { apply od_mem_keys, all_files_keys. split; [done|by eexists]. }
    rewrite bool_decide_eq_false_2 by done. simpl. split; [done|].
    apply post_id_of_parse; [by split; eauto|done].
  - intros Hno. destruct (path_exists w en_dir) eqn:Hdir; [|done].
    destruct (od_mem String.eqb (all_files ix) sibling) eqn:Hmem.
    2:{ done. }
    apply od_mem_keys, all_files_keys in Hmem as [Hin [me Hparse]].
    destruct Hno as [?|[?|[?|Hp]]]; try done; try congruence.
    by rewrite bool_decide_eq_true_2.
Qed.

(** ** The lookup tables and the metadata store, further *)

(** X8. The three lookup tables of [collect_language_pairs].
    [all_files] holds, once each and in the order of discovery, the
    discovered files that [parse_markdown_file] reads, with what they are
    read as.  [post_id_to_file] maps a post id to the last discovered
    eligible file that carries it as a true [wp-post-id]: of two documents
    with the same id the later one wins.  [group_id_to_files] lists, for a
    group id, the eligible files of that group in the order of discovery,
    and holds no empty list. *)
Theorem build_index_tables `{Frontmatter} w tree publish_folder :
  let markdown_files := get_markdown_files tree publish_folder None in
  let ix := build_index w markdown_files in
  (∀ f, od_get String.eqb (all_files ix) f =
        if bool_decide (f ∈ markdown_files) then parse_markdown_file w f else None) ∧
  NoDup (map fst (all_files ix)) ∧
  map fst (all_files ix) `sublist_of` markdown_files ∧
  (∀ post_id, od_get py_eqb (post_id_to_file ix) post_id =
              last (List.filter (has_post_id w post_id) markdown_files)) ∧
  (∀ g, default [] (od_get py_eqb (group_id_to_files ix) g) =
        List.filter (in_group w g) markdown_files) ∧
  (∀ g group_files, od_get py_eqb (group_id_to_files ix) g = Some group_files →
                    group_files ≠ []).
Proof.
  intros l ix. split; [apply all_files_get|]. split; [apply all_files_NoDup|].
  split; [apply all_files_sublist|]. split; [apply post_id_to_file_spec|].
  split; [apply group_files_spec|].
  unfold ix. clear ix. induction l as [|f l IH] using rev_ind; [done|].
  rewrite build_index_snoc. intros g group_files.
  destruct (parse_markdown_file w f) as [m|] eqn:Hparse.
  - rewrite (index_file_eligible w _ f m Hparse). simpl.
    destruct (truthy (group_id m)); [|apply IH].
    rewrite od_get_py_set. destruct (py_eqb (group_id m) g); [|apply IH].
    intros [= <-] [_ Hnil]%app_eq_nil. discriminate Hnil.
  - rewrite index_file_skipped by done. apply IH.
Qed.

Section save_further.
Context `{Frontmatter}.


End save_further.


(** X10. What a successful save changes in what the document is read
    as.  Let [save_metadata_to_file] return [True] for [key] and [v] on a
    document read as [m], and let the text now on disk parse to the
    updated front matter.  If [key] is [publish] and [v] is false the
    document is no longer read; otherwise it is read with [key] set to
    [v] in its front matter and everything else as before: the content
    and every field that [key] does not name.  Every other file is read
    as it was. *)
Theorem save_metadata_to_file_keeps_rest `{Frontmatter}
    d w f key v m original_content p text :
  parse_markdown_file w f = Some m →
  let res := save_metadata_to_file d (files w) f key v in
  let w' := {| files := res.1; dirs := dirs w |} in
  res.2 = Returned true →
  files w !! f = Some original_content →
  fm_loads original_content = Some p →
  res.1 !! f = Some text →
  fm_loads text = Some (with_key p key v) →
  (key = "publish" → truthy v = false → parse_markdown_file w' f = None) ∧
  (key ≠ "publish" ∨ truthy v = true →
   ∃ m', parse_markdown_file w' f = Some m' ∧
         raw_metadata m' = <[key := v]> (raw_metadata m) ∧
         content m' = content m ∧
         (key ≠ "title" → title m' = title m) ∧
         (key ≠ "publish" → publish m' = publish m) ∧
         (key ≠ "language" → language m' = language m) ∧
         (key ≠ "wp-post-id" → wp_post_id m' = wp_post_id m) ∧
         (key ≠ "mirror_post_id" → mirror_post_id m' = mirror_post_id m) ∧
         (key ≠ "group-id" → group_id m' = group_id m)) ∧
  (∀ g, g ≠ f → parse_markdown_file w' g = parse_markdown_file w g).
Proof.
  intros Hparse res w' Hres Ho Hl Htext Hcodec.
  pose proof (save_metadata_to_file_end d (files w) f key v) as Hend.
  fold res in Hend.
  assert (∀ g, g ≠ f → res.1 !! g = files w !! g) as Hother.
  { destruct Hend as [| |oc p0 nc stored]; simpl in Hres; try done.
    intros g Hg. simpl. by rewrite lookup_insert_ne. }
  unfold parse_markdown_file in Hparse. rewrite Ho, Hl in Hparse.
  split; [|split].
  - intros -> Hv. unfold parse_markdown_file, w'. simpl. rewrite Htext, Hcodec. simpl.
    rewrite lookup_insert_eq. rewrite bool_decide_eq_false_2 by done.
    unfold py_get. rewrite lookup_insert_eq. simpl. by rewrite Hv.
  - intros Hkey. unfold parse_markdown_file, w'. simpl. rewrite Htext, Hcodec. simpl.
    destruct (bool_decide (post_metadata p !! "publish" = None)) eqn:Hpub; [done|].
    apply bool_decide_eq_false in Hpub.
    destruct (negb (truthy (py_get (post_metadata p) "publish"))) eqn:Htruthy; [done|].
    injection Hparse as <-. simpl.
    destruct (decide (key = "publish")) as [->|Hne].
    + destruct Hkey as [?|Hv]; [done|].
      rewrite lookup_insert_eq. rewrite bool_decide_eq_false_2 by done.
      unfold py_get. rewrite lookup_insert_eq. simpl. rewrite Hv. simpl.
      eexists. split; [done|]. simpl.
      rewrite !lookup_insert_ne by done. done.
    + rewrite lookup_insert_ne by done. rewrite bool_decide_eq_false_2 by done.
      unfold py_get in *. rewrite (lookup_insert_ne _ key "publish") by done.
      rewrite Htruthy. eexists. split; [done|]. simpl.
      split; [done|]. split; [done|].
      repeat split; intros ?; by rewrite lookup_insert_ne.
  - intros g Hg. unfold parse_markdown_file, w'. simpl. by rewrite Hother.
Qed.

(** ** The publisher's other operations *)

Lemma created_id_true (made : option response) id :
  id = match made with
       | Some r =>
           if ok_status r then
             match body r with
             | Some (JObject o) => default PNone (o !! "id")
             | _ => PNone
             end
           else PNone
       | None => PNone
       end →
  truthy id = true →
  ∃ r o, made = Some r ∧
         (status_code r = 200%Z ∨ status_code r = 201%Z) ∧
         body r = Some (JObject o) ∧ o !! "id" = Some id.
Proof.
  intros ->. destruct made as [r|]; [|done].
  destruct (ok_status r) eqn:Hok; [|done].
  destruct (body r) as [[o|]|] eqn:Hbody; try done.
  destruct (o !! "id") as [i|] eqn:Hi; [|done]. simpl. intros _.
  exists r, o. apply ok_status_iff in Hok. done.
Qed.

(** X11. [get_or_create_category] on a string never lets an exception
    escape and touches neither store nor counters.  A blank name costs no
    request and yields [None].  Otherwise the search is sent first, and
    the request that creates a category is sent only when the search was
    answered and found nothing; a search that found a category yields
    the id of the first one found, and a search that was not answered
    yields [None] without a second request.  A true id after a creation
    is the [id] of an answer with status 200 or 201. *)
Theorem get_or_create_category_searches_first `{Environment} name st :
  let found := server (trace st) (category_search name) in
  let searched := trace st ++ [Sent (category_search name) found] in
  let made := server searched (category_create name) in
  ∃ id evs,
    get_or_create_category (PStr name) st =
      (Returned id, {| store := store st; trace := trace st ++ evs;
                       counters := counters st |}) ∧
    (blank name = true → evs = [] ∧ id = PNone) ∧
    (blank name = false →
     (found_nothing found ∧
      evs = [Sent (category_search name) found; Sent (category_create name) made] ∧
      (truthy id = true →
       ∃ r o, made = Some r ∧
              (status_code r = 200%Z ∨ status_code r = 201%Z) ∧
              body r = Some (JObject o) ∧ o !! "id" = Some id))
     ∨
     (¬ found_nothing found ∧
      evs = [Sent (category_search name) found] ∧
      (∀ r o items, found = Some r → body r = Some (JArray (o :: items)) →
                    id = default PNone (o !! "id")) ∧
      (found = None → id = PNone))).
Proof.
  intros found searched made. unfold get_or_create_category.
  destruct (truthy (PStr name)) eqn:Ht; simpl.
  2:{ exists PNone, []. rewrite app_nil_r, ret_run, <- run_eta.
      split; [done|]. split; [done|]. intros Hblank. exfalso.
      simpl in Ht. apply negb_false_iff, String.eqb_eq in Ht. by subst name. }
  fold (blank name). destruct (blank name) eqn:Hblank.
  { exists PNone, []. rewrite app_nil_r, ret_run, <- run_eta. by split. }
  rewrite bind_run. unfold http at 1. fold (category_search name). fold found.
  fold (category_create name).
  assert (∀ (Hnothing : found_nothing found),
    ∃ id evs,
      (created ← http (category_create name);
       mret (match created with
             | Some r =>
                 if ok_status r then
                   match body r with
                   | Some (JObject o) => default PNone (o !! "id")
                   | _ => PNone
                   end
                 else PNone
             | None => PNone
             end))
        {| store := store st; trace := trace st ++ [Sent (category_search name) found];
           counters := counters st |} =
      (Returned id, {| store := store st; trace := trace st ++ evs;
                       counters := counters st |}) ∧
      (false = true → evs = [] ∧ id = PNone) ∧
      (false = false →
       (found_nothing found ∧
        evs = [Sent (category_search name) found; Sent (category_create name) made] ∧
        (truthy id = true →
         ∃ r o, made = Some r ∧
                (status_code r = 200%Z ∨ status_code r = 201%Z) ∧
                body r = Some (JObject o) ∧ o !! "id" = Some id))
       ∨
       (¬ found_nothing found ∧
        evs = [Sent (category_search name) found] ∧
        (∀ r o items, found = Some r → body r = Some (JArray (o :: items)) →
                      id = default PNone (o !! "id")) ∧
        (found = None → id = PNone)))) as Hcreate.
  { intros Hnothing. rewrite bind_run. unfold http. rewrite ret_run.
    cbn [trace store counters]. fold searched. fold made.
    eexists _, [Sent (category_search name) found; Sent (category_create name) made].
    split; [unfold searched; by rewrite <- app_assoc|]. split; [done|]. intros _. left.
    split; [done|]. split; [done|]. by apply created_id_true. }
  assert (∀ id, (¬ found_nothing found) →
    (∀ r o items, found = Some r → body r = Some (JArray (o :: items)) →
                  id = default PNone (o !! "id")) →
    (found = None → id = PNone) →
    ∃ id' evs,
      (mret id : Run pyval)
        {| store := store st; trace := trace st ++ [Sent (category_search name) found];
           counters := counters st |} =
      (Returned id', {| store := store st; trace := trace st ++ evs;
                        counters := counters st |}) ∧
      (false = true → evs = [] ∧ id' = PNone) ∧
      (false = false →
       (found_nothing found ∧
        evs = [Sent (category_search name) found; Sent (category_create name) made] ∧
        (truthy id' = true →
         ∃ r o, made = Some r ∧
                (status_code r = 200%Z ∨ status_code r = 201%Z) ∧
                body r = Some (JObject o) ∧ o !! "id" = Some id'))
       ∨
       (¬ found_nothing found ∧
        evs = [Sent (category_search name) found] ∧
        (∀ r o items, found = Some r → body r = Some (JArray (o :: items)) →
                      id' = default PNone (o !! "id")) ∧
        (found = None → id' = PNone)))) as Hfound.
  { intros id Hno Hid Hnone. exists id, [Sent (category_search name) found].
    split; [done|]. split; [done|]. intros _. by right. }
  destruct found as [r|] eqn:Hf.
  2:{ apply Hfound; [|done|done]. by intros (r & ? & _). }
  case_bool_decide as Hstatus.
  2:{ apply Hcreate. exists r. split; [done|]. by left. }
  destruct (body r) as [[o|[|o items]]|] eqn:Hbody.
  - case_bool_decide as Ho.
    + apply Hcreate. exists r. split; [done|]. right. right. by subst o.
    + apply Hfound; [|intros ??? [= <-]; congruence|done].
      intros (r' & [= <-] & [?|[?|?]]); [done|congruence|]. congruence.
  - apply Hcreate. exists r. split; [done|]. right. by left.
  - apply Hfound; [| |done].
    + intros (r' & [= <-] & [?|[?|?]]); [done|congruence|congruence].
    + intros r' o' items' [= <-]. rewrite Hbody. by intros [= <- <-].
  - apply Hfound; [|intros ??? [= <-]; congruence|done].
    intros (r' & [= <-] & [?|[?|?]]); [done|congruence|congruence].
Qed.

(** X12. [link_translations] sends one request, to [link-translations]
    with the two ids, never lets an exception escape and touches nothing
    else.  It reports success exactly when the request was answered with
    status 200 or 201 and a JSON object whose [success] is true; any
    other status, a body that is no object, a false or missing [success]
    and a request that was not answered are all failures. *)
Theorem link_translations_success_iff `{Environment} ko_post_id en_post_id st :
  let req := link_request ko_post_id en_post_id in
  let answer := server (trace st) req in
  ∃ linked,
    link_translations ko_post_id en_post_id st =
      (Returned linked, {| store := store st; trace := trace st ++ [Sent req answer];
                           counters := counters st |}) ∧
    (linked = true ↔
     ∃ r data, answer = Some r ∧
               (status_code r = 200%Z ∨ status_code r = 201%Z) ∧
               body r = Some (JObject data) ∧
               truthy (py_get data "success") = true).
Proof.
  intros req answer. unfold link_translations. rewrite bind_run. unfold http.
  fold (link_request ko_post_id en_post_id). fold req. fold answer.
  rewrite ret_run. eexists. split; [done|].
  destruct answer as [r|].
  2:{ split; [done|]. by intros (r & data & [=] & _). }
  destruct (ok_status r) eqn:Hok.
  2:{ split; [done|]. intros (r' & data & [= <-] & Hst%ok_status_iff & _). congruence. }
  apply ok_status_iff in Hok.
  destruct (body r) as [[data|items]|] eqn:Hbody.
  - split.
    + intros Ht. by exists r, data.
    + intros (r' & data' & [= <-] & _ & Hb & Ht). rewrite Hbody in Hb. by simplify_eq.
  - split; [done|]. intros (r' & data' & [= <-] & _ & Hb & _). congruence.
  - split; [done|]. intros (r' & data' & [= <-] & _ & Hb & _). congruence.
Qed.

(** X13. [set_featured_image] never lets an exception escape and
    touches neither store nor counters.  When [file_path] is not a file
    that can be opened it sends nothing.  Otherwise it uploads the file
    to [media] and, only if that was answered with status 200 or 201 and
    a JSON object, attaches the [id] of that object to the post in a
    second request.  It reports success exactly when both requests were
    answered with status 200 or 201. *)
Theorem set_featured_image_success_iff `{Environment} post_id file_path st :
  let uploaded := server (trace st) (media_upload file_path) in
  let sent := trace st ++ [Sent (media_upload file_path) uploaded] in
  ∃ shown evs,
    set_featured_image post_id file_path st =
      (Returned shown, {| store := store st; trace := trace st ++ evs;
                          counters := counters st |}) ∧
    (files (store st) !! file_path = None → evs = [] ∧ shown = false) ∧
    (is_Some (files (store st) !! file_path) →
     evs = [Sent (media_upload file_path) uploaded] ∧ shown = false ∧
     (¬ ∃ r media, uploaded = Some r ∧
                   (status_code r = 200%Z ∨ status_code r = 201%Z) ∧
                   body r = Some (JObject media))
     ∨
     ∃ r media,
       uploaded = Some r ∧
       (status_code r = 200%Z ∨ status_code r = 201%Z) ∧
       body r = Some (JObject media) ∧
       let attach := media_attach post_id (py_get media "id") in
       evs = [Sent (media_upload file_path) uploaded; Sent attach (server sent attach)] ∧
       (shown = true ↔
        ∃ r', server sent attach = Some r' ∧
              (status_code r' = 200%Z ∨ status_code r' = 201%Z))).
Proof.
  intros uploaded sent. subst sent. unfold set_featured_image, path_exists.
  destruct (files (store st) !! file_path) as [image|] eqn:Hfile.
  2:{ exists false, []. rewrite app_nil_r, <- run_eta.
      split; [by destruct (negb _)|]. split; [done|]. by intros [? [=]]. }
  rewrite (bool_decide_eq_true_2 (is_Some (Some image))) by eauto.
  rewrite orb_true_r. cbn [negb].
  rewrite bind_run. unfold http at 1. fold (media_upload file_path). fold uploaded.
  destruct uploaded as [r|] eqn:Hup.
  2:{ exists false, [Sent (media_upload file_path) None]. rewrite ret_run.
      split; [done|]. split; [done|]. intros _. left.
      split; [done|]. split; [done|]. by intros (r & media & [=] & _). }
  destruct (ok_status r) eqn:Hok; cbn [negb].
  2:{ exists false, [Sent (media_upload file_path) (Some r)]. rewrite ret_run.
      split; [done|]. split; [done|]. intros _. left.
      split; [done|]. split; [done|].
      intros (r' & media & [= <-] & Hst%ok_status_iff & _). congruence. }
  apply ok_status_iff in Hok.
  destruct (body r) as [[media|items]|] eqn:Hbody.
  - rewrite bind_run. unfold http. rewrite ret_run. cbn [trace store counters].
    fold (media_attach post_id (py_get media "id")).
    eexists _, [Sent (media_upload file_path) (Some r); Sent _ _].
    split; [by rewrite <- app_assoc|]. split; [done|]. intros _. right.
    exists r, media. split; [done|]. split; [done|]. split; [done|]. split; [done|].
    match goal with |- context [server ?tr (media_attach ?a ?b)] =>
      destruct (server tr (media_attach a b)) as [r'|] end; simpl.
    + rewrite ok_status_iff. split; [by exists r'|]. by intros (? & [= <-] & ?).
    + split; [done|]. by intros (? & [=] & _).
  - exists false, [Sent (media_upload file_path) (Some r)]. rewrite ret_run.
    split; [done|]. split; [done|]. intros _. left.
    split; [done|]. split; [done|].
    intros (r' & media & [= <-] & _ & Hb). congruence.
  - exists false, [Sent (media_upload file_path) (Some r)]. rewrite ret_run.
    split; [done|]. split; [done|]. intros _. left.
    split; [done|]. split; [done|].
    intros (r' & media & [= <-] & _ & Hb). congruence.
Qed.

(** ** The cover image *)

Lemma find_app_first {A} (q : A → bool) (l1 l2 : list A) :
  List.find q (l1 ++ l2) =
  match List.find q l1 with Some x => Some x | None => List.find q l2 end.
Proof. induction l1 as [|x l1 IH]; [done|]. simpl. by destruct (q x). Qed.

Lemma find_cover_image_first w file_path :
  find_cover_image w file_path = List.find (path_exists w) (cover_candidates file_path).
Proof.
  unfold find_cover_image, cover_candidates. rewrite find_app_first.
  destruct (List.find _ _); [done|].
  by destruct (String.eqb _ _).
Qed.

Lemma find_first_split {A} (q : A → bool) (l : list A) x :
  List.find q l = Some x →
  ∃ before after, l = before ++ x :: after ∧ q x = true ∧
                  ∀ y, y ∈ before → q y = false.
Proof.
  induction l as [|y l IH]; [done|]. simpl. destruct (q y) eqn:Hy.
  - intros [= ->]. exists [], l. split; [done|]. split; [done|].
    intros ? Hin. by apply elem_of_nil in Hin.
  - intros (before & after & -> & Hx & Hb)%IH. exists (y :: before), after.
    split; [done|]. split; [done|]. intros z [->|Hz]%elem_of_cons; auto.
Qed.

(** X14. [find_cover_image] returns the first path that exists among
    [cover.jpg], [cover.jpeg], [cover.png], [cover.gif] and [cover.webp]
    in the folder of the document and then, unless that folder is its own
    parent, the same names in the parent folder: a cover next to the
    document is preferred to one in the parent, and within a folder the
    extensions are tried in that order.  It returns [None] exactly when
    none of these paths exists. *)
Theorem find_cover_image_first_existing w file_path :
  let current_folder := Path.dirname file_path in
  let parent_folder := Path.dirname current_folder in
  let covers folder :=
    map (λ ext, Path.join folder ("cover" +:+ ext))
        [".jpg"; ".jpeg"; ".png"; ".gif"; ".webp"] in
  let candidates :=
    covers current_folder ++
    (if bool_decide (parent_folder = current_folder) then [] else covers parent_folder) in
  match find_cover_image w file_path with
  | Some cover_path =>
      path_exists w cover_path = true ∧
      ∃ before after,
        candidates = before ++ cover_path :: after ∧
        ∀ other, other ∈ before → path_exists w other = false
  | None => ∀ other, other ∈ candidates → path_exists w other = false
  end.
Proof.
  intros current_folder parent_folder covers candidates.
  assert (candidates = cover_candidates file_path) as ->.
  { unfold candidates, cover_candidates. fold current_folder parent_folder.
    case_bool_decide as Heq.
    - by rewrite Heq, String.eqb_refl.
    - apply String.eqb_neq in Heq. by rewrite Heq. }
  rewrite find_cover_image_first.
  destruct (List.find _ _) as [cover_path|] eqn:Hfind.
  - apply find_first_split in Hfind as (before & after & Hsplit & Hthere & Hbefore).
    split; [done|]. by exists before, after.
  - intros other Hother%list_elem_of_In. by eapply find_none in Hfind.
Qed.

(** ** Wiki links *)

Example convert_wiki_links_ex :
  convert_wiki_links "see [[Other note|this]] and [[Note]]." =
  "see " +:+ wiki_anchor "Other note" "this" +:+ " and "
  +:+ wiki_anchor "Note" "Note" +:+ ".".
Proof. vm_compute. reflexivity. Qed.

(** The other way round the first link is swallowed by the second. *)
Example convert_wiki_links_swallows_ex :
  convert_wiki_links "see [[Note]] and [[Other note|this]]." =
  "see " +:+ wiki_anchor "Note]] and [[Other note" "this" +:+ ".".
Proof. vm_compute. reflexivity. Qed.

Section wiki_facts.
Import Path Wiki.

Lemma drop_while_all {A} (f : A → bool) l r :
  forallb f l = true →
  match r with [] => True | x :: _ => f x = false end →
  drop_while f (l ++ r) = r.
Proof.
  intros Hl Hr. induction l as [|x l IH]; simpl in *.
  - destruct r as [|y r]; [done|]. simpl. by rewrite Hr.
  - apply andb_true_iff in Hl as [-> Hl]. auto.
Qed.

Variable attempt : list ascii → option (list ascii * nat).
Hypothesis attempt_open : ∀ s, attempt s ≠ None → starts_with (chars "[[") s = true.

Lemma re_sub_clean a X :
  forallb not_open a = true →
  re_sub attempt 0 (a ++ X) = a ++ re_sub attempt 0 X.
Proof.
  induction a as [|c a IH]; [done|]. simpl.
  intros [Hc Ha]%andb_true_iff.
  destruct (attempt (c :: a ++ X)) as [[rep n]|] eqn:Hatt.
  - assert (starts_with (chars "[[") (c :: a ++ X) = true) as Hopen
      by (apply attempt_open; congruence).
    simpl in Hopen. apply andb_true_iff in Hopen as [Hopen _].
    unfold not_open in Hc. rewrite Ascii.eqb_sym in Hopen. by rewrite Hopen in Hc.
  - by rewrite IH.
Qed.

Lemma re_sub_skip a X : re_sub attempt (length a) (a ++ X) = re_sub attempt 0 X.
Proof. induction a as [|c a IH]; [done|]. simpl. exact IH. Qed.

Lemma re_sub_match m X rep :
  m ≠ [] → attempt (m ++ X) = Some (rep, length m) →
  re_sub attempt 0 (m ++ X) = rep ++ re_sub attempt 0 X.
Proof.
  destruct m as [|c m]; [done|]. intros _ Hatt.
  change ((c :: m) ++ X) with (c :: (m ++ X)) in *. cbn [re_sub]. rewrite Hatt.
  replace (length (c :: m) - 1) with (length m) by (simpl; lia).
  by rewrite re_sub_skip.
Qed.

Lemma re_sub_none s :
  has_sub (chars "[[") s = false → re_sub attempt 0 s = s.
Proof.
  induction s as [|c s IH]; [done|].
  intros Hsub. change (has_sub (chars "[[") (c :: s))
    with (starts_with (chars "[[") (c :: s) || has_sub (chars "[[") s) in Hsub.
  apply orb_false_iff in Hsub as [Hhere Hlater].
  cbn [re_sub]. destruct (attempt (c :: s)) as [[rep n]|] eqn:Hatt.
  - rewrite attempt_open in Hhere by congruence. done.
  - by rewrite IH.
Qed.
End wiki_facts.
Section wiki_passes.
Import Path Wiki.

Lemma match_piped_open s :
  match_piped s ≠ None → starts_with (chars "[[") s = true.
Proof. unfold match_piped. by destruct (starts_with _ s). Qed.

Lemma match_plain_open s :
  match_plain s ≠ None → starts_with (chars "[[") s = true.
Proof. unfold match_plain. by destruct (starts_with _ s). Qed.

Lemma match_piped_here t l X :
  t ≠ [] → forallb not_pipe t = true → l ≠ [] → forallb not_close l = true →
  match_piped (chars "[[" ++ t ++ chars "|" ++ l ++ chars "]]" ++ X) =
  Some (anchor t l, length (chars "[[" ++ t ++ chars "|" ++ l ++ chars "]]")).
Proof.
  intros Ht Hpipe Hl Hclose. unfold match_piped.
  change (chars "[[" ++ t ++ chars "|" ++ l ++ chars "]]" ++ X)
    with ("["%char :: "["%char :: (t ++ "|"%char :: (l ++ "]"%char :: "]"%char :: X))).
  cbn [starts_with chars list_ascii_of_string drop]. rewrite ?drop_0, !Ascii.eqb_refl.
  cbn [andb]. rewrite take_while_all, drop_while_all by done.
  rewrite bool_decide_eq_false_2 by done.
  cbn [starts_with chars list_ascii_of_string drop]. rewrite ?drop_0, !Ascii.eqb_refl.
  cbn [andb]. rewrite take_while_all, drop_while_all by done.
  rewrite bool_decide_eq_false_2 by done.
  cbn [starts_with chars list_ascii_of_string]. rewrite !Ascii.eqb_refl. cbn [andb].
  do 2 f_equal. rewrite !length_app. simpl. lia.
Qed.

Lemma match_plain_here t X :
  t ≠ [] → forallb not_close t = true →
  match_plain (chars "[[" ++ t ++ chars "]]" ++ X) =
  Some (anchor t t, length (chars "[[" ++ t ++ chars "]]")).
Proof.
  intros Ht Hclose. unfold match_plain.
  change (chars "[[" ++ t ++ chars "]]" ++ X)
    with ("["%char :: "["%char :: (t ++ "]"%char :: "]"%char :: X)).
  cbn [starts_with chars list_ascii_of_string drop]. rewrite ?drop_0, !Ascii.eqb_refl.
  cbn [andb]. rewrite take_while_all, drop_while_all by done.
  rewrite bool_decide_eq_false_2 by done.
  cbn [starts_with chars list_ascii_of_string]. rewrite !Ascii.eqb_refl. cbn [andb].
  do 2 f_equal. rewrite !length_app. simpl. lia.
Qed.

Lemma forallb_drop {A} (f : A → bool) n l :
  forallb f l = true → forallb f (drop n l) = true.
Proof.
  revert n. induction l as [|x l IH]; intros [|n]; simpl; try done.
  intros [_ Hl]%andb_true_iff. auto.
Qed.

Lemma match_piped_no_pipe s : forallb not_pipe s = true → match_piped s = None.
Proof.
  intros Hs. unfold match_piped. destruct (starts_with _ s); [|done].
  pose proof (forallb_drop not_pipe 2 s Hs) as Hd.
  rewrite <- (app_nil_r (drop 2 s)).
  rewrite take_while_all, drop_while_all by done.
  by case_bool_decide.
Qed.

Lemma match_plain_no_close s : forallb not_close s = true → match_plain s = None.
Proof.
  intros Hs. unfold match_plain. destruct (starts_with _ s); [|done].
  pose proof (forallb_drop not_close 2 s Hs) as Hd.
  rewrite <- (app_nil_r (drop 2 s)).
  rewrite take_while_all, drop_while_all by done.
  by case_bool_decide.
Qed.

Lemma re_sub_piped_no_pipe s :
  forallb not_pipe s = true → re_sub match_piped 0 s = s.
Proof.
  induction s as [|c s IH]; [done|]. intros Hs. cbn [re_sub].
  rewrite match_piped_no_pipe by done.
  simpl in Hs. apply andb_true_iff in Hs as [_ Hs]. by rewrite IH.
Qed.

Lemma re_sub_plain_no_close s :
  forallb not_close s = true → re_sub match_plain 0 s = s.
Proof.
  induction s as [|c s IH]; [done|]. intros Hs. cbn [re_sub].
  rewrite match_plain_no_close by done.
  simpl in Hs. apply andb_true_iff in Hs as [_ Hs]. by rewrite IH.
Qed.

Lemma anchor_clean t l :
  forallb not_open t = true → forallb not_open l = true →
  forallb not_open (anchor t l) = true.
Proof.
  intros Ht Hl. unfold anchor. rewrite !forallb_app, Ht, Hl. done.
Qed.

Lemma lacks_open s : lacks "[" s = true → forallb not_open (chars s) = true.
Proof. done. Qed.
Lemma lacks_close s : lacks "]" s = true → forallb not_close (chars s) = true.
Proof. done. Qed.
Lemma lacks_pipe s : lacks "|" s = true → forallb not_pipe (chars s) = true.
Proof. done. Qed.

Lemma no_markup_lacks s :
  no_markup s = true → lacks "[" s = true ∧ lacks "]" s = true ∧ lacks "|" s = true.
Proof. unfold no_markup. by intros [[??]%andb_true_iff ?]%andb_true_iff. Qed.

Lemma chars_nonempty s : s ≠ "" → chars s ≠ [].
Proof. by destruct s. Qed.

Lemma convert_clean_piped pre t l X :
  forallb not_open pre = true →
  t ≠ [] → forallb not_pipe t = true → forallb not_open t = true →
  l ≠ [] → forallb not_close l = true → forallb not_open l = true →
  convert (pre ++ chars "[[" ++ t ++ chars "|" ++ l ++ chars "]]" ++ X) =
  pre ++ anchor t l ++ convert X.
Proof.
  intros Hpre Ht Htp Hto Hl Hlc Hlo. unfold convert.
  rewrite (re_sub_clean match_piped match_piped_open pre) by done.
  assert (re_sub match_piped 0 (chars "[[" ++ t ++ chars "|" ++ l ++ chars "]]" ++ X) =
          anchor t l ++ re_sub match_piped 0 X) as ->.
  { replace (chars "[[" ++ t ++ chars "|" ++ l ++ chars "]]" ++ X)
      with ((chars "[[" ++ t ++ chars "|" ++ l ++ chars "]]") ++ X)
      by (by rewrite <- !app_assoc).
    apply (re_sub_match match_piped); [done|].
    rewrite <- !app_assoc. by apply match_piped_here. }
  rewrite !(app_assoc pre (anchor t l)).
  apply (re_sub_clean match_plain match_plain_open).
  rewrite forallb_app, Hpre. by apply anchor_clean.
Qed.
End wiki_passes.
Lemma str_app l1 l2 : Path.str (l1 ++ l2) = Path.str l1 +:+ Path.str l2.
Proof. apply chars_inj. by rewrite chars_app, !chars_str. Qed.

(** X15. [convert_wiki_links] leaves a text without [[[] as it is. *)
Theorem convert_wiki_links_without_links html_content :
  Path.contains "[[" html_content = false →
  convert_wiki_links html_content = html_content.
Proof.
  intros Hnone. unfold convert_wiki_links, Wiki.convert.
  rewrite (re_sub_none Wiki.match_piped match_piped_open) by done.
  rewrite (re_sub_none Wiki.match_plain match_plain_open) by done.
  apply str_chars.
Qed.

(** X16. A link with display text becomes one anchor, and the text
    before and after it is converted on its own:
    [pre [[target|label]] post] becomes [pre <a href="#target">label</a>]
    followed by the conversion of [post], provided that [pre], [target]
    and [label] hold no [[], that [target] is not empty and holds no [|],
    and that [label] is not empty and holds no []]. *)
Theorem convert_wiki_links_piped pre target label post :
  lacks "[" pre = true →
  target ≠ "" → lacks "|" target = true → lacks "[" target = true →
  label ≠ "" → lacks "]" label = true → lacks "[" label = true →
  convert_wiki_links (pre +:+ "[[" +:+ target +:+ "|" +:+ label +:+ "]]" +:+ post) =
  pre +:+ wiki_anchor target label +:+ convert_wiki_links post.
Proof.
  intros Hpre Ht Htp Hto Hl Hlc Hlo. unfold convert_wiki_links, wiki_anchor.
  rewrite !chars_app.
  rewrite convert_clean_piped by (done || by apply chars_nonempty).
  by rewrite !str_app, str_chars.
Qed.

(** X17. A link without display text becomes an anchor that shows its
    target, as long as no [|] follows it in the text:
    [pre [[target]] post] becomes [pre <a href="#target">target</a>]
    followed by the conversion of [post], provided that [pre] and
    [target] hold no [[], that [target] is not empty and holds neither []]
    nor [|], and that [post] holds no [|]. *)
Theorem convert_wiki_links_plain pre target post :
  lacks "[" pre = true →
  target ≠ "" → lacks "]" target = true → lacks "[" target = true →
  lacks "|" target = true → lacks "|" post = true →
  convert_wiki_links (pre +:+ "[[" +:+ target +:+ "]]" +:+ post) =
  pre +:+ wiki_anchor target target +:+ convert_wiki_links post.
Proof.
  intros Hpre Ht Htc Hto Htp Hpost. unfold convert_wiki_links, wiki_anchor, Wiki.convert.
  rewrite !chars_app.
  rewrite (re_sub_clean Wiki.match_piped match_piped_open) by done.
  rewrite (re_sub_piped_no_pipe (Path.chars "[[" ++ _)).
  2:{ rewrite !forallb_app. rewrite (lacks_pipe target), (lacks_pipe post) by done. done. }
  rewrite (re_sub_piped_no_pipe (Path.chars post)) by done.
  rewrite (re_sub_clean Wiki.match_plain match_plain_open) by done.
  replace (Path.chars "[[" ++ Path.chars target ++ Path.chars "]]" ++ Path.chars post)
    with ((Path.chars "[[" ++ Path.chars target ++ Path.chars "]]") ++ Path.chars post)
    by (by rewrite <- !app_assoc).
  rewrite (re_sub_match Wiki.match_plain _ _
             (Wiki.anchor (Path.chars target) (Path.chars target))).
  - by rewrite !str_app, str_chars.
  - done.
  - rewrite <- !app_assoc. apply match_plain_here; [by apply chars_nonempty|done].
Qed.

(** X18. A link without display text that is followed by a link with
    display text is swallowed by it: the first pattern takes everything
    from the first [[[] up to the [|] as the target.  For texts [pre],
    [first], [between], [second], [label] and [post] without [[], []] and
    [|], [label] not empty,
    [pre [[first]] between [[second|label]] post] becomes one anchor
    whose target is [first]] between [[second]. *)
Theorem convert_wiki_links_swallows pre first between second label post :
  lacks "[" pre = true →
  no_markup first = true → no_markup between = true → no_markup second = true →
  no_markup label = true → label ≠ "" → no_markup post = true →
  convert_wiki_links
    (pre +:+ "[[" +:+ first +:+ "]]" +:+ between +:+
     "[[" +:+ second +:+ "|" +:+ label +:+ "]]" +:+ post) =
  pre +:+ wiki_anchor (first +:+ "]]" +:+ between +:+ "[[" +:+ second) label +:+ post.
Proof.
  intros Hpre (Hfo & Hfc & Hfp)%no_markup_lacks (Hbo & Hbc & Hbp)%no_markup_lacks
    (Hso & Hsc & Hsp)%no_markup_lacks (Hlo & Hlc & Hlp)%no_markup_lacks Hl
    (Hpo & Hpc & Hpp)%no_markup_lacks.
  unfold convert_wiki_links, wiki_anchor, Wiki.convert.
  rewrite !chars_app.
  rewrite (re_sub_clean Wiki.match_piped match_piped_open) by done.
  set (target := Path.chars first ++ Path.chars "]]" ++ Path.chars between ++
                 Path.chars "[[" ++ Path.chars second).
  replace (Path.chars "[[" ++ Path.chars first ++ Path.chars "]]" ++ Path.chars between ++
           Path.chars "[[" ++ Path.chars second ++ Path.chars "|" ++ Path.chars label ++
           Path.chars "]]" ++ Path.chars post)
    with ((Path.chars "[[" ++ target ++ Path.chars "|" ++ Path.chars label ++
           Path.chars "]]") ++ Path.chars post)
    by (unfold target; by rewrite <- !app_assoc).
  rewrite (re_sub_match Wiki.match_piped _ _ (Wiki.anchor target (Path.chars label))).
  2:{ done. }
  2:{ rewrite <- !app_assoc. apply match_piped_here; [|
        |by apply chars_nonempty|done].
      - unfold target. by destruct (Path.chars first).
      - unfold target. rewrite !forallb_app.
        rewrite (lacks_pipe first), (lacks_pipe between), (lacks_pipe second) by done.
        done. }
  rewrite (re_sub_piped_no_pipe (Path.chars post)) by done.
  unfold Wiki.anchor, target. rewrite <- !app_assoc.
  pose (head := Path.chars "<a href=" ++ [Wiki.quote] ++ Path.chars "#" ++
                Path.chars first ++ Path.chars "]]" ++ Path.chars between).
  pose (tail := Path.chars "[[" ++ Path.chars second ++ [Wiki.quote] ++ Path.chars ">" ++
                Path.chars label ++ Path.chars "</a>" ++ Path.chars post).
  assert (Path.chars pre ++ Path.chars "<a href=" ++ [Wiki.quote] ++ Path.chars "#" ++
          Path.chars first ++ Path.chars "]]" ++ Path.chars between ++
          Path.chars "[[" ++ Path.chars second ++ [Wiki.quote] ++ Path.chars ">" ++
          Path.chars label ++ Path.chars "</a>" ++ Path.chars post
          = (Path.chars pre ++ head) ++ tail) as ->
    by (unfold head, tail; by rewrite <- !app_assoc).
  rewrite (re_sub_clean Wiki.match_plain match_plain_open).
  2:{ unfold head. rewrite !forallb_app.
      rewrite (lacks_open pre), (lacks_open first), (lacks_open between) by done. done. }
  rewrite (re_sub_plain_no_close tail).
  2:{ unfold tail. rewrite !forallb_app.
      rewrite (lacks_close second), (lacks_close label), (lacks_close post) by done. done. }
  apply chars_inj. repeat (rewrite chars_app || rewrite chars_str).
  unfold head, tail. by rewrite <- !app_assoc.
Qed.

(** ** The ids that are linked *)

Lemma links_follow_saves_nil ps : links_follow_saves ps [].
Proof. intros ev Hev. by apply elem_of_nil in Hev. Qed.

Lemma links_follow_saves_app p ps evs1 evs2 :
  links_follow_saves [p] evs1 → links_follow_saves ps evs2 → links_follow_saves (p :: ps) (evs1 ++ evs2).
Proof.
  intros H1 H2 ev [Hev|Hev]%elem_of_app Hlink.
  - destruct (H1 ev Hev Hlink) as (q & e & a & b & answer & -> & ->%list_elem_of_singleton
                                   & He & Ha & Hb).
    exists p, e, a, b, answer. rewrite saved_in_app, !elem_of_app.
    split; [done|]. split; [left|]. auto.
  - destruct (H2 ev Hev Hlink) as (q & e & a & b & answer & -> & Hq & He & Ha & Hb).
    exists q, e, a, b, answer. rewrite saved_in_app, !elem_of_app.
    split; [done|]. split; [by right|]. auto.
Qed.

Lemma filter_is_link_elem ev evs :
  ev ∈ evs → is_link ev = true → ev ∈ List.filter is_link evs.
Proof. intros Hev Hlink. apply list_elem_of_In, filter_In. by rewrite <- list_elem_of_In. Qed.

Section linked_ids.
Context `{Frontmatter} `{Environment}.

Lemma process_pair_links p st st' :
  process_pair p st = (Returned (), st') →
  ∃ evs, trace st' = trace st ++ evs ∧ links_follow_saves [p] evs.
Proof.
  unfold process_pair. rewrite bind_run.
  destruct (publish_ko p st) as [[ko|] st1] eqn:Hko; [|done].
  apply publish_ko_end in Hko as (evs1 & Htr1 & Hl1 & Hko).
  assert (links_follow_saves [p] evs1) as Hnone.
  { intros ev Hev Hlink. pose proof (filter_is_link_elem ev evs1 Hev Hlink) as Hin.
    rewrite Hl1 in Hin. by apply elem_of_nil in Hin. }
  destruct Hko as [(-> & Hc1 & Hs1)|(ko_post_id & shown & -> & Hc1 & Hs1)].
  { rewrite ret_run. intros [= <-]. by exists evs1. }
  destruct (en_file p) as [e|] eqn:He.
  2:{ rewrite ret_run. intros [= <-]. by exists evs1. }
  destruct (path_truthy (Some e)) eqn:Ht.
  2:{ rewrite ret_run. intros [= <-]. by exists evs1. }
  intros Hen. apply publish_en_end in Hen as (evs2 & Htr2 & Hen).
  exists (evs1 ++ evs2). split; [by rewrite Htr2, Htr1, app_assoc|].
  intros ev Hev Hlink. pose proof (filter_is_link_elem ev _ Hev Hlink) as Hin.
  rewrite List.filter_app, Hl1 in Hin. simpl in Hin.
  destruct Hen as [(Hc2 & Hs2 & Hl2)|(en_post_id & shown2 & linked & Hc2 & Hs2 & answer & Hl2)].
  { rewrite Hl2 in Hin. by apply elem_of_nil in Hin. }
  rewrite Hl2 in Hin. apply list_elem_of_singleton in Hin as ->.
  exists p, e, ko_post_id, en_post_id, answer.
  rewrite saved_in_app, Hs1, Hs2.
  split; [done|]. split; [left|]. split; [done|]. split; [left|]. right. left.
Qed.

Lemma process_loop_links ps : ∀ st st',
  process_loop ps st = (Returned (), st') →
  ∃ evs, trace st' = trace st ++ evs ∧ links_follow_saves ps evs.
Proof.
  induction ps as [|p ps IH]; intros st st'.
  - simpl. rewrite ret_run. intros [= <-]. exists []. rewrite app_nil_r.
    split; [done|apply links_follow_saves_nil].
  - cbn [process_loop]. rewrite bind_run.
    destruct (process_pair p st) as [[[]|] st1] eqn:Hp; [|done].
    apply process_pair_links in Hp as (evs1 & Htr1 & Ht1).
    intros (evs2 & Htr2 & Ht2)%IH. exists (evs1 ++ evs2).
    split; [by rewrite Htr2, Htr1, app_assoc|]. by apply links_follow_saves_app.
Qed.
End linked_ids.

Lemma saved_in_elem evs file_path key value :
  (file_path, key, value) ∈ saved_in evs →
  ∃ result, Saved file_path key value result ∈ evs.
Proof.
  induction evs as [|ev evs IH]; [by intros ?%elem_of_nil|].
  destruct ev as [|f k v result]; simpl.
  - intros [result Hin]%IH. exists result. by right.
  - intros [Hhere|Hlater]%elem_of_cons.
    + injection Hhere as -> -> ->. exists result. left.
    + destruct (IH Hlater) as [result' Hin]. exists result'. by right.
Qed.

(** X19. [process_pairs] asks Polylang to link only ids that it has
    handed to [save_metadata_to_file]: when it returns, every request to
    [link-translations] among the events of the run carries, for one of
    the pairs that has an English file, the id with which
    [save_metadata_to_file] was called for the key [wp-post-id] of the
    pair's Korean file and the id with which it was called for the key
    [wp-post-id] of its English file, both during this run.  What the two
    calls returned is open: [process_pairs] does not look at it before
    it asks for the link. *)
Theorem process_pairs_links_ids_passed_to_save `{Frontmatter} `{Environment} ps st c st' :
  process_pairs ps st = (Returned c, st') →
  ∃ evs,
    trace st' = trace st ++ evs ∧
    ∀ ev, ev ∈ evs → is_link ev = true →
      ∃ p e ko_post_id en_post_id answer ko_saved en_saved,
        ev = Sent {| req_method := POST; req_url := LinkTranslations;
                     req_body := LinkData ko_post_id en_post_id |} answer ∧
        p ∈ ps ∧ en_file p = Some e ∧
        Saved (ko_file p) "wp-post-id" ko_post_id ko_saved ∈ evs ∧
        Saved e "wp-post-id" en_post_id en_saved ∈ evs.
Proof.
  unfold process_pairs. rewrite bind_run.
  set (st0 := {| store := store st; trace := trace st; counters := _ |}).
  destruct (process_loop ps st0) as [[[]|] st1] eqn:Hloop; [|done].
  unfold read_counters. intros [= _ <-].
  apply process_loop_links in Hloop as (evs & Htr & Hlinks).
  exists evs. split; [done|]. intros ev Hev Hlink.
  destruct (Hlinks ev Hev Hlink)
    as (p & e & ko_post_id & en_post_id & answer & -> & Hp & He
        & [ko_saved Hko]%saved_in_elem & [en_saved Hen]%saved_in_elem).
  by exists p, e, ko_post_id, en_post_id, answer, ko_saved, en_saved.
Qed.

(** ** The language manager *)

Lemma od_get_py_congr {V} (d : list (pyval * V)) k k' :
  py_eqb k k' = true → od_get py_eqb d k = od_get py_eqb d k'.
Proof.
  intros Hk. induction d as [|[k0 v0] d IH]; [done|]. simpl.
  rewrite (keq_congr_r py_eqb py_eqb_sym py_eqb_trans k0 k k' Hk). by rewrite IH.
Qed.

Lemma od_mem_get {K V} (keq : K → K → bool) (d : list (K * V)) k :
  od_mem keq d k = true ↔ is_Some (od_get keq d k).
Proof. unfold od_mem. apply bool_decide_eq_true. Qed.

Lemma registered_id_register self file_path language post_id language' file_path' :
  registered_id (register_post self file_path language post_id) language' file_path' =
  if py_eqb language language' && String.eqb file_path file_path'
  then post_id else registered_id self language' file_path'.
Proof.
  unfold registered_id, register_post.
  set (self1 := if od_mem py_eqb self language then self else od_set py_eqb self language []).
  assert (default [] (od_get py_eqb self1 language) =
          default [] (od_get py_eqb self language)) as Hinner.
  { unfold self1. destruct (od_mem py_eqb self language) eqn:Hmem; [done|].
    rewrite od_get_py_set, py_eqb_refl. simpl.
    destruct (od_get py_eqb self language) eqn:Hget; [|done].
    assert (od_mem py_eqb self language = true) by (apply od_mem_get; eauto). congruence. }
  assert (∀ l, py_eqb language l = false →
               od_get py_eqb self1 l = od_get py_eqb self l) as Hother.
  { intros l Hl. unfold self1. destruct (od_mem py_eqb self language); [done|].
    by rewrite od_get_py_set, Hl. }
  rewrite od_get_py_set. destruct (py_eqb language language') eqn:Hl; simpl.
  - rewrite od_get_str_set, Hinner. rewrite (od_get_py_congr self _ _ Hl).
    by destruct (String.eqb file_path file_path').
  - by rewrite Hother.
Qed.

Lemma registered_snoc calls call :
  registered (calls ++ [call]) =
  register_post (registered calls) call.1.1 call.1.2 call.2.
Proof. unfold registered. by rewrite fold_left_app. Qed.

Lemma register_post_keeps self file_path language post_id l :
  is_Some (od_get py_eqb self l) →
  is_Some (od_get py_eqb (register_post self file_path language post_id) l).
Proof.
  intros Hl. unfold register_post. rewrite od_get_py_set.
  destruct (py_eqb language l); [eauto|].
  destruct (od_mem py_eqb self language); [done|].
  rewrite od_get_py_set. by destruct (py_eqb language l).
Qed.

Lemma registered_languages calls :
  is_Some (od_get py_eqb (registered calls) (PStr "ko")) ∧
  is_Some (od_get py_eqb (registered calls) (PStr "en")).
Proof.
  induction calls as [|call calls [IHko IHen]] using rev_ind.
  - split; by eexists.
  - rewrite registered_snoc. split; by apply register_post_keeps.
Qed.

(** X20. Registrations on a new [LanguageManager] do not disturb each
    other: after any sequence of [register_post] calls, the id found for
    a file under a language is the id of the last call that named this
    file and a language equal to it ([None] when there was none), and
    the dictionaries of ['ko'] and ['en'] are always there. *)
Theorem register_post_last_wins calls language file_path :
  registered_id (registered calls) language file_path =
  match last (List.filter (λ call, py_eqb call.1.2 language &&
                                   String.eqb call.1.1 file_path) calls) with
  | Some call => call.2
  | None => PNone
  end ∧
  is_Some (od_get py_eqb (registered calls) (PStr "ko")) ∧
  is_Some (od_get py_eqb (registered calls) (PStr "en")).
Proof.
  split; [|apply registered_languages].
  induction calls as [|[[f l] id] calls IH] using rev_ind.
  { unfold registered_id, registered, new_language_manager. simpl.
    destruct language as [| | |t]; try done.
    by destruct (String.eqb "ko" t), (String.eqb "en" t). }
  rewrite registered_snoc, registered_id_register, List.filter_app. simpl.
  destruct (py_eqb l language && String.eqb f file_path).
  - by rewrite last_snoc.
  - by rewrite app_nil_r.
Qed.

Section link_mirror.
Context `{Frontmatter}.


End link_mirror.


(** ** Mirror files *)

Section mirror_paths.
Import Path.

Lemma drop_while_head {A} (f : A → bool) l :
  match drop_while f l with [] => True | c :: _ => f c = false end.
Proof.
  induction l as [|x l IH]; [done|]. simpl. destruct (f x) eqn:E; [done|]. by simpl.
Qed.

Lemma not_endswith_slash d :
  d ≠ "" → endswith "/" d = false →
  ∃ c l, rev (chars d) = c :: l ∧ is_sep c = false.
Proof.
  intros Hd He. unfold endswith in He. simpl in He.
  destruct (rev (chars d)) as [|c l] eqn:Hrev.
  - destruct d; [done|]. simpl in Hrev. by destruct (rev _).
  - exists c, l. split; [done|]. simpl in He. rewrite andb_true_r in He.
    unfold is_sep. by rewrite Ascii.eqb_sym.
Qed.

Lemma dirname_settled f : settled (dirname f) = true.
Proof.
  unfold settled, dirname.
  destruct (forallb is_sep (head_part (chars f))) eqn:E.
  - by rewrite chars_str, E.
  - apply orb_true_iff. right. apply negb_true_iff.
    unfold endswith, rstrip_sep. rewrite chars_str, rev_involutive.
    pose proof (drop_while_head is_sep (rev (head_part (chars f)))) as Hhead.
    destruct (drop_while is_sep _) as [|c l]; [done|]. simpl.
    unfold is_sep in Hhead. by rewrite Ascii.eqb_sym, Hhead.
Qed.

Lemma head_part_behind x n :
  forallb (λ c, negb (is_sep c)) n = true →
  match rev x with [] => True | c :: _ => is_sep c = true end →
  head_part (x ++ n) = x.
Proof.
  intros Hn Hx. unfold head_part. rewrite rev_app_distr.
  rewrite drop_while_all.
  - apply rev_involutive.
  - by rewrite forallb_rev.
  - destruct (rev x); [done|]. by rewrite Hx.
Qed.

Lemma dirname_join d n :
  settled d = true → plain_name n = true → dirname (join d n) = d.
Proof.
  intros Hd Hn. unfold join. rewrite (plain_not_abs _ Hn).
  destruct (String.eqb_spec d "") as [->|Hne]; simpl.
  { pose proof (head_part_behind [] (chars n) Hn I) as Hhead. simpl in Hhead.
    unfold dirname. change ("" +:+ n) with n. by rewrite Hhead. }
  destruct (endswith "/" d) eqn:He.
  - unfold settled in Hd. rewrite He, orb_false_r in Hd.
    unfold dirname. rewrite chars_app.
    rewrite (head_part_behind (chars d) (chars n)); [by rewrite Hd, str_chars|done|].
    unfold endswith in He. simpl in He.
    destruct (rev (chars d)) as [|c l]; [done|]. simpl in He.
    rewrite andb_true_r in He. unfold is_sep. by rewrite Ascii.eqb_sym.
  - destruct (not_endswith_slash d Hne He) as (c & l & Hrev & Hc).
    unfold dirname. rewrite !chars_app. simpl.
    replace (chars d ++ "/"%char :: chars n) with ((chars d ++ ["/"%char]) ++ chars n)
      by (by rewrite <- app_assoc).
    rewrite (head_part_behind (chars d ++ ["/"%char]) (chars n));
      [|done|by rewrite rev_app_distr].
    rewrite forallb_app. simpl.
    assert (forallb is_sep (chars d) = false) as ->.
    { rewrite <- forallb_rev, Hrev. simpl. by rewrite Hc. }
    simpl. unfold rstrip_sep. rewrite rev_app_distr. simpl. rewrite Hrev. simpl.
    rewrite Hc. rewrite <- Hrev. by rewrite rev_involutive, str_chars.
Qed.

Lemma join_en_chars d :
  d ≠ "" → settled d = true → ∃ y, chars (join d "en") = y ++ chars "/en".
Proof.
  intros Hne Hd. unfold join. change (startswith "/" "en") with false. cbv iota.
  apply String.eqb_neq in Hne as Hne'. rewrite Hne'. cbn [orb].
  destruct (endswith "/" d) eqn:He.
  - unfold endswith in He. cbn [chars list_ascii_of_string rev app] in He.
    destruct (rev (chars d)) as [|c l] eqn:Hrev; [done|].
    cbn [starts_with] in He. rewrite andb_true_r in He.
    apply Ascii.eqb_eq in He as <-.
    exists (rev l). rewrite chars_app.
    rewrite <- (rev_involutive (chars d)), Hrev. cbn [rev].
    by rewrite <- app_assoc.
  - exists (chars d). by rewrite !chars_app.
Qed.

Lemma join_en d :
  d ≠ "" → settled d = true →
  endswith "/en" (join d "en") = true ∧ settled (join d "en") = true.
Proof.
  intros Hne Hd. destruct (join_en_chars d Hne Hd) as [y Hy].
  unfold settled, endswith. rewrite Hy, rev_app_distr. split; [done|].
  by rewrite orb_true_r.
Qed.
End mirror_paths.

(** X22. [find_mirror_file] goes there and back: if it finds the
    English mirror [e] of a file [f] that exists, that is given as its
    directory joined with its name and that has a directory part, then
    it finds [f] as the Korean mirror of [e].  The mirror is the file of
    the same name in the folder [en] next to [f]. *)
Theorem find_mirror_file_round_trip w f e :
  find_mirror_file w f (PStr "en") = Some e →
  path_exists w f = true →
  Path.join (Path.dirname f) (Path.basename f) = f →
  Path.dirname f ≠ "" →
  e = Path.join (Path.join (Path.dirname f) "en") (Path.basename f) ∧
  path_exists w e = true ∧
  find_mirror_file w e (PStr "ko") = Some f.
Proof.
  unfold find_mirror_file at 1. cbn [py_eqb]. rewrite String.eqb_refl.
  destruct (path_exists w _) eqn:Hexists; [|done].
  intros [= <-] Hf Hjoin Hdir.
  split; [done|]. split; [done|].
  pose proof (dirname_settled f) as Hsettled.
  destruct (join_en (Path.dirname f) Hdir Hsettled) as [Hends Hen].
  pose proof (basename_plain f) as Hplain.
  unfold find_mirror_file. cbn [py_eqb].
  change (String.eqb "ko" "en") with false. cbv iota.
  rewrite basename_join by done.
  rewrite (dirname_join (Path.join (Path.dirname f) "en")) by done.
  rewrite Hends. rewrite (dirname_join (Path.dirname f) "en") by done.
  by rewrite Hjoin, Hf.
Qed.

(** ** The command line *)

Lemma required_Some v s : required v = Some s ↔ v = Some s ∧ s ≠ "".
Proof.
  destruct v as [s'|]; simpl; [|by split; [|intros [? _]]].
  destruct (String.eqb_spec s' "") as [->|Hne]; split.
  - done.
  - by intros [[= <-] ?].
  - by intros [= <-].
  - by intros [[= <-] _].
Qed.

Lemma load_config_Some h w config_file cfg :
  load_config h w config_file = Some cfg ↔
  path_exists w config_file = true ∧
  environ h !! "WORDPRESS_URL" = Some (WORDPRESS_URL cfg) ∧ WORDPRESS_URL cfg ≠ "" ∧
  environ h !! "WORDPRESS_USERNAME" = Some (WORDPRESS_USERNAME cfg) ∧
  WORDPRESS_USERNAME cfg ≠ "" ∧
  environ h !! "WORDPRESS_PASSWORD" = Some (WORDPRESS_PASSWORD cfg) ∧
  WORDPRESS_PASSWORD cfg ≠ "" ∧
  LOG_FILE cfg = default "logs/obsidian_to_wp.log" (environ h !! "LOG_FILE").
Proof.
  unfold load_config. split.
  - destruct (path_exists w config_file); [|done]. simpl.
    destruct (required (environ h !! "WORDPRESS_URL")) as [url|] eqn:Hurl; [|done].
    destruct (required (environ h !! "WORDPRESS_USERNAME")) as [user|] eqn:Huser; [|done].
    destruct (required (environ h !! "WORDPRESS_PASSWORD")) as [pass|] eqn:Hpass; [|done].
    intros [= <-]. simpl.
    apply required_Some in Hurl as [-> ?], Huser as [-> ?], Hpass as [-> ?]. done.
  - intros (-> & Hurl & Hu & Huser & Hn & Hpass & Hp & Hlog). simpl.
    rewrite (proj2 (required_Some _ _) (conj Hurl Hu)).
    rewrite (proj2 (required_Some _ _) (conj Huser Hn)).
    rewrite (proj2 (required_Some _ _) (conj Hpass Hp)).
    rewrite <- Hlog. by destruct cfg.
Qed.

(** The checks are what [main] tests, step by step. *)
Lemma local_checks_tests h w args f cfg :
  local_checks h w args f cfg ↔
  folder args = Some f ∧ String.eqb f "" = false ∧
  bool_decide (expanduser h f ∈ dirs w) = true ∧
  load_config h w (config_path args) = Some cfg ∧
  log_opens h (LOG_FILE cfg) = true.
Proof.
  unfold local_checks. rewrite load_config_Some, String.eqb_neq, bool_decide_eq_true.
  tauto.
Qed.

Lemma setup_logging_others log_file w g :
  g ≠ log_file → files (setup_logging log_file w) !! g = files w !! g.
Proof.
  intros Hg. unfold setup_logging. simpl.
  destruct (files w !! log_file); [done|]. by rewrite lookup_insert_ne.
Qed.

Section command_line_facts.
Context `{Frontmatter} `{Environment}.

(** Whatever happens in it, [process_pairs] only adds to the events. *)
Lemma process_pairs_extends ps : adds (λ _, true) (process_pairs ps).
Proof.
  assert (lets_through (λ _, true)) as HP by done.
  assert (∀ p, adds (λ _, true) (process_pair p)) as Hpair.
  { intros p. unfold process_pair. apply adds_bind.
    - intros st. unfold publish_ko.
      destruct (parse_markdown_file _ _) as [ko_metadata|];
        [|exists []; by rewrite app_nil_r].
      revert st. apply adds_bind; [by apply adds_publish_post|].
      intros r. destruct (negb (success r)).
      { apply adds_bind; [apply adds_with_counters|]. intros. apply adds_ret. }
      apply adds_bind; [apply adds_with_counters|]. intros _.
      apply adds_bind; [by apply adds_save_step|]. intros _.
      apply adds_bind; [by apply adds_cover_step|]. intros _. apply adds_ret.
    - intros [ko_post_id|]; [|apply adds_ret].
      destruct (en_file p) as [e|] eqn:He; [|apply adds_ret].
      destruct (path_truthy (Some e)) eqn:Ht; [|apply adds_ret].
      intros st. unfold publish_en.
      destruct (parse_markdown_file _ _) as [en_metadata|];
        [|exists []; by rewrite app_nil_r].
      revert st. apply adds_bind; [by apply adds_publish_post|].
      intros r. destruct (negb (success r)); [apply adds_with_counters|].
      apply adds_bind; [apply adds_with_counters|]. intros _.
      apply adds_bind; [by apply adds_save_step|]. intros _.
      apply adds_bind; [by apply adds_cover_step|]. intros _.
      apply adds_bind; [by apply adds_link_translations|].
      intros [|]; apply adds_with_counters. }
  assert (adds (λ _, true) (process_loop ps)) as Hloop.
  { induction ps as [|p ps IH]; [apply adds_ret|].
    cbn [process_loop]. apply adds_bind; [apply Hpair|]. intros _. apply IH. }
  intros st. unfold process_pairs.
  set (st0 := {| store := store st; trace := trace st; counters := _ |}).
  assert (adds (λ _, true) (_ ← process_loop ps; read_counters)) as Hadds.
  { apply adds_bind; [done|]. intros _ st1. exists []. by rewrite app_nil_r. }
  apply (Hadds st0).
Qed.
End command_line_facts.

(** X23. [main] publishes nothing before every check has passed.  The
    first thing it sends is the connection probe ([GET posts?per_page=1]),
    and it sends it only after the local checks: a folder was given and
    is a directory, the configuration file exists and sets
    [WORDPRESS_URL], [WORDPRESS_USERNAME] and [WORDPRESS_PASSWORD] to
    non-empty values, and the log file could be opened.  If the run has
    sent anything but the two probes, or has called
    [save_metadata_to_file], then moreover the connection probe was
    answered with status 200 and [collect_language_pairs] has returned at
    least one pair.  When [main] ends with [sys.exit(1)], it has sent
    nothing, or the connection probe alone (not answered with 200);
    nothing was saved and every file but the log file is as it was.
    Conversely, when the local checks pass and the connection probe is
    answered with 200, [main] sends the Polylang probe and, whatever its
    answer, goes on to [process_pairs] on the pairs collected, ending
    normally when that returns (or when there is no pair). *)
Theorem main_checks_first `{Frontmatter} `{Environment} h tree args st :
  let res := main h tree args st in
  let answer := server (trace st) connection_probe in
  ∃ evs,
    trace res.2 = trace st ++ evs ∧
    (evs ≠ [] →
     ∃ f cfg rest, local_checks h (store st) args f cfg ∧
                   evs = Sent connection_probe answer :: rest) ∧
    ((∃ ev, ev ∈ evs ∧ is_probe ev = false) →
     answered_200 answer = true ∧
     ∃ f cfg, local_checks h (store st) args f cfg ∧
              collect_language_pairs (setup_logging (LOG_FILE cfg) (store st)) tree
                (expanduser h f) ≠ []) ∧
    (res.1 = Exited 1 →
     (evs = [] ∨ evs = [Sent connection_probe answer] ∧ answered_200 answer = false) ∧
     dirs (store res.2) = dirs (store st) ∧
     ∀ g, g ≠ default "logs/obsidian_to_wp.log" (environ h !! "LOG_FILE") →
          files (store res.2) !! g = files (store st) !! g) ∧
    (∀ f cfg,
       local_checks h (store st) args f cfg → answered_200 answer = true →
       let sent := trace st ++ [Sent connection_probe answer] in
       let st2 := {| store := setup_logging (LOG_FILE cfg) (store st);
                     trace := sent ++ [Sent polylang_probe (server sent polylang_probe)];
                     counters := counters st |} in
       let pairs := collect_language_pairs (store st2) tree (expanduser h f) in
       res = match pairs with
             | [] => (Finished, st2)
             | _ :: _ =>
                 match process_pairs pairs st2 with
                 | (Returned _, st3) => (Finished, st3)
                 | (Raised, st3) => (Crashed, st3)
                 end
             end).
Proof.
  intros res answer.
  assert (∀ e, res = (e, st) →
               (∀ f cfg, ¬ local_checks h (store st) args f cfg) →
               ∃ evs,
                 trace res.2 = trace st ++ evs ∧
                 (evs ≠ [] →
                  ∃ f cfg rest, local_checks h (store st) args f cfg ∧
                                evs = Sent connection_probe answer :: rest) ∧
                 ((∃ ev, ev ∈ evs ∧ is_probe ev = false) →
                  answered_200 answer = true ∧
                  ∃ f cfg, local_checks h (store st) args f cfg ∧
                           collect_language_pairs
                             (setup_logging (LOG_FILE cfg) (store st)) tree
                             (expanduser h f) ≠ []) ∧
                 (res.1 = Exited 1 →
                  (evs = [] ∨
                   evs = [Sent connection_probe answer] ∧ answered_200 answer = false) ∧
                  dirs (store res.2) = dirs (store st) ∧
                  ∀ g, g ≠ default "logs/obsidian_to_wp.log" (environ h !! "LOG_FILE") →
                       files (store res.2) !! g = files (store st) !! g) ∧
                 (∀ f cfg,
                    local_checks h (store st) args f cfg → answered_200 answer = true →
                    let sent := trace st ++ [Sent connection_probe answer] in
                    let st2 := {| store := setup_logging (LOG_FILE cfg) (store st);
                                  trace := sent ++
                                    [Sent polylang_probe (server sent polylang_probe)];
                                  counters := counters st |} in
                    let pairs :=
                      collect_language_pairs (store st2) tree (expanduser h f) in
                    res = match pairs with
                          | [] => (Finished, st2)
                          | _ :: _ =>
                              match process_pairs pairs st2 with
                              | (Returned _, st3) => (Finished, st3)
                              | (Raised, st3) => (Crashed, st3)
                              end
                          end)) as Hearly.
  { intros e Hres Hno. exists []. rewrite Hres, app_nil_r. simpl.
    split; [done|]. split; [done|].
    split; [by intros (ev & ?%elem_of_nil & _)|].
    split; [intros _; split; [by left|done]|].
    intros f cfg Hc. destruct (Hno f cfg Hc). }
  unfold main in res.
  destruct (folder args) as [f|] eqn:Hfolder.
  2:{ eapply Hearly; [done|]. intros f cfg (Hf & _)%local_checks_tests.
      rewrite Hfolder in Hf. discriminate Hf. }
  destruct (String.eqb f "") eqn:Hne.
  { eapply Hearly; [done|]. intros f' cfg (Hf & He & _)%local_checks_tests.
    rewrite Hfolder in Hf. injection Hf as <-. rewrite Hne in He. discriminate He. }
  destruct (bool_decide (expanduser h f ∈ dirs (store st))) eqn:Hdir; cbn [negb] in res.
  2:{ eapply Hearly; [done|]. intros f' cfg (Hf & _ & Hd & _)%local_checks_tests.
      rewrite Hfolder in Hf. injection Hf as <-. rewrite Hdir in Hd. discriminate Hd. }
  destruct (load_config h (store st) (config_path args)) as [cfg|] eqn:Hcfg.
  2:{ eapply Hearly; [done|].
      intros f' cfg (_ & _ & _ & Hc & _)%local_checks_tests.
      rewrite Hcfg in Hc. discriminate Hc. }
  destruct (log_opens h (LOG_FILE cfg)) eqn:Hlog; cbn [negb] in res.
  2:{ eapply Hearly; [done|].
      intros f' cfg' (_ & _ & _ & Hc & Hl)%local_checks_tests.
      rewrite Hcfg in Hc. injection Hc as <-. rewrite Hlog in Hl. discriminate Hl. }
  clear Hearly.
  assert (local_checks h (store st) args f cfg) as Hchecks
    by (by apply local_checks_tests).
  assert (∀ f' cfg', local_checks h (store st) args f' cfg' → f' = f ∧ cfg' = cfg)
    as Hsame.
  { intros f' cfg' (Hf & _ & _ & Hc & _)%local_checks_tests.
    rewrite Hfolder in Hf. rewrite Hcfg in Hc.
    injection Hf as <-. injection Hc as <-. done. }
  apply load_config_Some in Hcfg as Hvalues.
  destruct Hvalues as (_ & _ & _ & _ & _ & _ & _ & Hfile).
  set (sent := trace st ++ [Sent connection_probe answer]).
  set (st1 := {| store := setup_logging (LOG_FILE cfg) (store st);
                 trace := sent; counters := counters st |}).
  set (st2 := {| store := setup_logging (LOG_FILE cfg) (store st);
                 trace := sent ++ [Sent polylang_probe (server sent polylang_probe)];
                 counters := counters st |}).
  remember (collect_language_pairs (setup_logging (LOG_FILE cfg) (store st)) tree
              (expanduser h f)) as pairs eqn:Hpairs.
  assert (res = if answered_200 answer then
                  match pairs with
                  | [] => (Finished, st2)
                  | _ :: _ =>
                      match process_pairs pairs st2 with
                      | (Returned _, st3) => (Finished, st3)
                      | (Raised, st3) => (Crashed, st3)
                      end
                  end
                else (Exited 1, st1)) as Hres.
  { subst res. unfold test_connection. rewrite bind_run. unfold http at 1.
    cbn [trace store counters]. fold answer. fold sent. fold st1. rewrite ret_run.
    destruct (answered_200 answer); [|done].
    unfold publish_folder, test_polylang_endpoint.
    rewrite !bind_run. unfold http at 1. cbn [trace store counters st1].
    fold st2. rewrite ret_run. cbn [store st2]. rewrite <- Hpairs.
    destruct pairs as [|p ps]; [done|]. rewrite bind_run.
    destruct (process_pairs (p :: ps) st2) as [[c|] st3]; [by rewrite ret_run|done]. }
  clearbody res. subst res.
  assert (∀ f' cfg' (ending : ending * run),
            ending = match pairs with
                     | [] => (Finished, st2)
                     | _ :: _ =>
                         match process_pairs pairs st2 with
                         | (Returned _, st3) => (Finished, st3)
                         | (Raised, st3) => (Crashed, st3)
                         end
                     end →
            local_checks h (store st) args f' cfg' →
            let sent := trace st ++ [Sent connection_probe answer] in
            let st2 := {| store := setup_logging (LOG_FILE cfg') (store st);
                          trace := sent ++
                            [Sent polylang_probe (server sent polylang_probe)];
                          counters := counters st |} in
            let pairs := collect_language_pairs (store st2) tree (expanduser h f') in
            ending = match pairs with
                     | [] => (Finished, st2)
                     | _ :: _ =>
                         match process_pairs pairs st2 with
                         | (Returned _, st3) => (Finished, st3)
                         | (Raised, st3) => (Crashed, st3)
                         end
                     end) as Hgoes.
  { intros f' cfg' ending -> [-> ->]%Hsame. cbn zeta. cbn [store].
    fold sent. fold st2. by rewrite <- Hpairs. }
  destruct (answered_200 answer) eqn:Hanswer.
  2:{ exists [Sent connection_probe answer].
      split; [done|]. split; [intros _; by exists f, cfg, []|].
      split.
      { intros (ev & ->%list_elem_of_singleton & Hprobe). done. }
      split.
      { intros _. split; [by right|]. split; [done|].
        intros g Hg. cbn [snd store st1]. apply setup_logging_others. by rewrite Hfile. }
      intros f' cfg' _ ?. done. }
  destruct pairs as [|p ps].
  { exists [Sent connection_probe answer;
            Sent polylang_probe (server sent polylang_probe)].
    split; [cbn [snd trace st2]; unfold sent; by rewrite <- app_assoc|].
    split; [intros _; by eexists f, cfg, [_]|].
    split.
    { intros (ev & Hev & Hprobe). apply elem_of_cons in Hev as [->|Hev]; [done|].
      by apply list_elem_of_singleton in Hev as ->. }
    split; [done|].
    intros f' cfg' Hc _. by apply Hgoes. }
  destruct (process_pairs_extends (p :: ps) st2) as (evs & Hevs & _).
  exists (Sent connection_probe answer ::
          Sent polylang_probe (server sent polylang_probe) :: evs).
  set (res := match process_pairs (p :: ps) st2 with
              | (Returned _, st3) => (Finished, st3)
              | (Raised, st3) => (Crashed, st3)
              end) in *.
  assert (trace res.2 = trace (process_pairs (p :: ps) st2).2 ∧ res.1 ≠ Exited 1)
    as [Htrace Hend].
  { unfold res. by destruct (process_pairs (p :: ps) st2) as [[c|] st3]. }
  split.
  { rewrite Htrace, Hevs. unfold st2, sent. cbn [trace]. by rewrite <- !app_assoc. }
  split; [intros _; by eexists f, cfg, (_ :: _)|].
  split.
  { intros _. split; [done|]. exists f, cfg. split; [done|]. by rewrite <- Hpairs. }
  split; [done|].
  intros f' cfg' Hc _. by apply Hgoes.
Qed.

(* ================================================================== *)
(** * Worked examples                                                  *)
(* ================================================================== *)

Ltac decided := apply (bool_decide_unpack _); vm_compute; exact I.

(** ** Discovery *)

Example get_markdown_files_vault :
  get_markdown_files Toy.vault_tree "/vault" None =
  ["/vault/v/a.md"; "/vault/v/c.md"; "/vault/v/english/a.md"; "/vault/w/en/b.md"].
Proof. vm_compute. reflexivity. Qed.

Lemma get_markdown_files_spec_witness :
  plain_files Toy.vault_tree = true ∧
  "/vault/v/english/a.md" ∈ get_markdown_files Toy.vault_tree "/vault" None ∧
  Path.endswith ".md" (Path.basename "/vault/v/english/a.md") = true ∧
  Path.startswith "." (Path.basename "/vault/v/english/a.md") = false.
Proof.
  assert (plain_files Toy.vault_tree = true) as Hplain by (vm_compute; reflexivity).
  assert ("/vault/v/english/a.md" ∈ get_markdown_files Toy.vault_tree "/vault" None) as Hin
    by decided.
  split; [exact Hplain|]. split; [exact Hin|].
  destruct (get_markdown_files_spec Toy.vault_tree "/vault" None) as (_ & _ & Hbase & _).
  exact (Hbase Hplain _ Hin).
Defined.

(** ** The metadata store *)



(** A sound disk: the id is written into the front matter. *)
Example save_metadata_to_file_writes :
  let res := @save_metadata_to_file Toy.frontmatter Toy.sound_disk
               (files Toy.vault) "/vault/v/a.md" "wp-post-id" (PInt 101) in
  res.2 = Returned true ∧
  res.1 !! "/vault/v/a.md" = Some (Toy.doc ["wp-post-id=101"; "group-id=g"; "publish=true"] "A") ∧
  res.1 !! temp_path "/vault/v/a.md" "k3x9" = None.
Proof. vm_compute. done. Qed.

(** A disk that loses text: the second check refuses the move. *)
Example save_metadata_to_file_lossy :
  @save_metadata_to_file Toy.frontmatter Toy.lossy_disk
    (files Toy.comment_vault) "/vault/a.md" "title"
    (PStr "a title long enough to make up for the comment that is dropped, so that the first check lets the text through")
  = (files Toy.comment_vault, Returned false).
Proof. vm_compute. reflexivity. Qed.

(** The comment of more than a hundred characters is dropped: the first
    check refuses the new text. *)
Lemma save_metadata_to_file_length_checks_witness :
  let original_content := Toy.doc [Toy.long_comment; "publish=true"] "A" in
  let p := {| post_metadata := {["publish" := PBool true]}; post_content := "A" |} in
  let new_content := Toy.doc ["wp-post-id=101"; "publish=true"] "A" in
  read_raises Toy.sound_disk = false ∧
  files Toy.comment_vault !! "/vault/a.md" = Some original_content ∧
  Toy.loads original_content = Some p ∧
  Toy.dumps (with_key p "wp-post-id" (PInt 101)) = Some new_content ∧
  (Z.of_nat (String.length new_content)
     < Z.of_nat (String.length original_content) - 100)%Z ∧
  @save_metadata_to_file Toy.frontmatter Toy.sound_disk
    (files Toy.comment_vault) "/vault/a.md" "wp-post-id" (PInt 101)
  = (files Toy.comment_vault, Returned false).
Proof.
  intros original_content p new_content.
  assert (read_raises Toy.sound_disk = false) as H1 by reflexivity.
  assert (files Toy.comment_vault !! "/vault/a.md" = Some original_content) as H2
    by (vm_compute; reflexivity).
  assert (Toy.loads original_content = Some p) as H3 by (vm_compute; reflexivity).
  assert (Toy.dumps (with_key p "wp-post-id" (PInt 101)) = Some new_content) as H4
    by (vm_compute; reflexivity).
  assert (Z.of_nat (String.length new_content)
            < Z.of_nat (String.length original_content) - 100)%Z as H5
    by (apply Z.ltb_lt; vm_compute; reflexivity).
  repeat (split; [assumption|]).
  destruct (@save_metadata_to_file_length_checks Toy.frontmatter Toy.sound_disk
              (files Toy.comment_vault) "/vault/a.md" "wp-post-id" (PInt 101)
              original_content p new_content H1 H2 H3 H4) as [Hfirst _].
  exact (Hfirst H5).
Defined.

(** ** The pairing resolver *)

Example collect_language_pairs_vault :
  @collect_language_pairs Toy.frontmatter Toy.vault Toy.vault_tree "/vault"
  = [Toy.vault_pair].
Proof. vm_compute. reflexivity. Qed.

Lemma collect_language_pairs_partition_witness :
  @mirror_free Toy.frontmatter Toy.vault
    (get_markdown_files Toy.vault_tree "/vault" None) = true ∧
  NoDup (docs_of (@collect_language_pairs Toy.frontmatter Toy.vault Toy.vault_tree "/vault")).
Proof.
  assert (@mirror_free Toy.frontmatter Toy.vault
            (get_markdown_files Toy.vault_tree "/vault" None) = true) as Hfree
    by (vm_compute; reflexivity).
  split; [exact Hfree|].
  destruct (@collect_language_pairs_partition Toy.frontmatter Toy.vault
              Toy.vault_tree "/vault") as (_ & _ & _ & _ & Hnd).
  exact (Hnd Hfree).
Defined.

(** The English sibling [/vault/v/english/a.md] is eligible and is bound
    by no pair: the pairs do not cover the eligible documents. *)
Lemma collect_language_pairs_leaves_out :
  let markdown_files := get_markdown_files Toy.vault_tree "/vault" None in
  let ps := @collect_language_pairs Toy.frontmatter Toy.vault Toy.vault_tree "/vault" in
  @eligible Toy.frontmatter Toy.vault markdown_files "/vault/v/english/a.md" ∧
  ("/vault/v/english/a.md" ∉ docs_of ps).
Proof.
  split.
  - split; [decided|]. vm_compute. eauto.
  - apply (bool_decide_eq_false_1 _). vm_compute. reflexivity.
Qed.

(** Strategy 2 takes [k1.md], already the Korean file of a pair, as the
    English file of [k2.md]: one document in two pairs. *)
Example collect_language_pairs_binds_twice :
  docs_of (@collect_language_pairs Toy.frontmatter Toy.mirror_vault Toy.mirror_tree "/vault")
  = ["/vault/k1.md"; "/vault/k2.md"; "/vault/k1.md"].
Proof. vm_compute. reflexivity. Qed.

Lemma unpublished_never_paired_witness :
  let f := "/vault/v/c.md" in
  let text := Toy.doc ["publish=false"] "C" in
  let p := {| post_metadata := {["publish" := PBool false]}; post_content := "C" |} in
  files Toy.vault !! f = Some text ∧
  Toy.loads text = Some p ∧
  truthy (py_get (post_metadata p) "publish") = false ∧
  @parse_markdown_file Toy.frontmatter Toy.vault f = None ∧
  f ∈ get_markdown_files Toy.vault_tree "/vault" None ∧
  ∀ q, q ∈ @collect_language_pairs Toy.frontmatter Toy.vault Toy.vault_tree "/vault" →
       ko_file q ≠ f ∧ en_file q ≠ Some f.
Proof.
  intros f text p.
  assert (files Toy.vault !! f = Some text) as H1 by (vm_compute; reflexivity).
  assert (Toy.loads text = Some p) as H2 by (vm_compute; reflexivity).
  assert (truthy (py_get (post_metadata p) "publish") = false) as H3
    by (vm_compute; reflexivity).
  destruct (@unpublished_never_paired Toy.frontmatter Toy.vault Toy.vault_tree "/vault" f)
    as [Hparse Hout].
  pose proof (Hparse text p H1 H2 (or_intror H3)) as Hnone.
  repeat (split; [assumption|]).
  split; [decided|].
  destruct (Hout Hnone) as (_ & _ & _ & Hpairs). exact Hpairs.
Defined.

(** [a.md] has the English sibling [/vault/v/english/a.md] and the group
    member [/vault/w/en/b.md]: the group member is taken. *)
Lemma group_id_match_wins_witness :
  let markdown_files := get_markdown_files Toy.vault_tree "/vault" None in
  let ix := @build_index Toy.frontmatter Toy.vault markdown_files in
  let k := "/vault/v/a.md" in
  let m := Toy.vault_a in
  let c := "/vault/w/en/b.md" in
  ∃ after,
    all_files ix = [] ++ (k, m) :: after ∧
    (k ∉ processed_files no_pairs) ∧ is_english k = false ∧
    truthy (group_id m) = true ∧ c ∈ markdown_files ∧
    (@in_group Toy.frontmatter Toy.vault (group_id m) c &&
     (negb (String.eqb c k) && is_english c &&
      negb (bool_decide (c ∈ processed_files no_pairs)))) = true ∧
    folder_match Toy.vault ix (processed_files no_pairs) k
      = Some "/vault/v/english/a.md" ∧
    ∃ p, p ∈ @collect_language_pairs Toy.frontmatter Toy.vault Toy.vault_tree "/vault" ∧
         ko_file p = k ∧ en_file p = Some c.
Proof.
  intros l ix k m c.
  assert (∃ after, all_files ix = [] ++ (k, m) :: after) as [after Hall]
    by (eexists; vm_compute; reflexivity).
  exists after.
  assert (truthy (group_id m) = true) as Hg by reflexivity.
  assert ((@in_group Toy.frontmatter Toy.vault (group_id m) c &&
     (negb (String.eqb c k) && is_english c &&
      negb (bool_decide (c ∈ processed_files no_pairs)))) = true) as Hc
    by (vm_compute; reflexivity).
  assert (k ∉ processed_files no_pairs) as Hk
    by (apply (bool_decide_eq_false_1 _); vm_compute; reflexivity).
  assert (is_english k = false) as Hen by reflexivity.
  assert (c ∈ l) as Hcl by decided.
  repeat (split; [assumption|]).
  split; [vm_compute; reflexivity|].
  destruct (@group_id_match_wins Toy.frontmatter Toy.vault Toy.vault_tree "/vault"
              [] k m after c Hall Hk Hen Hg Hcl Hc)
    as (p & first & Hp & Hko & Hfirst & _ & Hfind).
  exists p. split; [done|]. split; [done|].
  rewrite Hfirst. vm_compute in Hfind. injection Hfind as <-. reflexivity.
Defined.

(** [k2.md] names the post of [k1.md] as its mirror: [k1.md] becomes its
    English file although it lies in no English folder and is processed
    already. *)
Lemma mirror_match_unchecked_witness :
  let markdown_files := get_markdown_files Toy.mirror_tree "/vault" None in
  let ix := @build_index Toy.frontmatter Toy.mirror_vault markdown_files in
  let before := [("/vault/k1.md", Toy.mirror_k1)] in
  let k := "/vault/k2.md" in
  let m := Toy.mirror_k2 in
  let e := "/vault/k1.md" in
  let processed := processed_files (pair_all Toy.mirror_vault ix before no_pairs) in
  all_files ix = before ++ (k, m) :: [] ∧
  (k ∉ processed) ∧ is_english k = false ∧
  group_match ix processed k m = None ∧
  truthy (mirror_post_id m) = true ∧
  od_get py_eqb (post_id_to_file ix) (mirror_post_id m) = Some e ∧
  e ≠ "" ∧
  e ∈ processed ∧ is_english e = false ∧
  ∃ p, p ∈ @collect_language_pairs Toy.frontmatter Toy.mirror_vault Toy.mirror_tree "/vault" ∧
       ko_file p = k ∧ en_file p = Some e.
Proof.
  intros l ix before k m e processed.
  assert (all_files ix = before ++ (k, m) :: []) as Hall by (vm_compute; reflexivity).
  assert (k ∉ processed) as Hk
    by (apply (bool_decide_eq_false_1 _); vm_compute; reflexivity).
  assert (is_english k = false) as Hen by reflexivity.
  assert (group_match ix processed k m = None) as Hgm by (vm_compute; reflexivity).
  assert (truthy (mirror_post_id m) = true) as Hm by reflexivity.
  assert (od_get py_eqb (post_id_to_file ix) (mirror_post_id m) = Some e) as Hpost
    by (vm_compute; reflexivity).
  assert (e ≠ "") as Hne by done.
  repeat (split; [assumption|]).
  split; [decided|]. split; [reflexivity|].
  destruct (@mirror_match_unchecked Toy.frontmatter Toy.mirror_vault Toy.mirror_tree
              "/vault" before k m [] e Hall Hk Hen Hgm Hm Hpost Hne)
    as (p & Hp & Hko & He & _).
  by exists p.
Defined.

(** ** The publisher *)

Lemma publish_post_success_iff_witness :
  let res := @publish_post Toy.sound (PStr "a") "A" "ko" (Some "/vault/v/a.md")
               PNone PNone (Toy.start Toy.vault) in
  ∃ r st', res = (Returned r, st') ∧ success r = true ∧ result_post_id r = PInt 101.
Proof.
  intros res.
  assert (∃ r st', res = (Returned r, st') ∧ success r = true ∧
                   result_post_id r = PInt 101) as (r & st' & Hres & Hok & Hid)
    by (eexists _, _; split; [vm_compute; reflexivity|split; reflexivity]).
  exists r, st'. split; [done|].
  destruct (@publish_post_success_iff Toy.sound (PStr "a") "A" "ko"
              (Some "/vault/v/a.md") PNone PNone (Toy.start Toy.vault) r st' Hres)
    as (before & categories & answer & after & _ & _ & Hiff & _).
  split; [|done]. apply Hiff. apply Hiff in Hok. exact Hok.
Defined.

(** A request answered with 204, a 2xx status: failure is reported. *)
Lemma publish_post_rejects_204 :
  let st := Toy.start Toy.vault in
  let req := post_request PNone
               (PostData (PStr "a") "A" "ko" (Some "/vault/v/a.md") None) in
  (∃ resp, @server (Toy.always 204) (trace st) req = Some resp ∧
           (200 ≤ status_code resp < 300)%Z) ∧
  ∃ st', @publish_post (Toy.always 204) (PStr "a") "A" "ko" (Some "/vault/v/a.md")
           PNone PNone st
         = (Returned {| success := false; result_post_id := PNone |}, st').
Proof.
  intros st req. split.
  - eexists. split; [reflexivity|]. simpl. lia.
  - eexists. vm_compute. reflexivity.
Qed.

(** A request answered with 301, a 3xx status: failure is reported. *)
Example publish_post_rejects_301 :
  let st := Toy.start Toy.vault in
  let req := post_request (PInt 7)
               (PostData (PStr "a") "A" "ko" (Some "/vault/v/a.md") None) in
  (∃ resp, @server (Toy.always 301) (trace st) req = Some resp ∧
           (300 ≤ status_code resp < 400)%Z) ∧
  ∃ st', @publish_post (Toy.always 301) (PStr "a") "A" "ko" (Some "/vault/v/a.md")
           (PInt 7) PNone st
         = (Returned {| success := false; result_post_id := PInt 7 |}, st').
Proof.
  intros st req. split.
  - eexists. split; [reflexivity|]. simpl. lia.
  - eexists. vm_compute. reflexivity.
Qed.

(** ** The reconciler *)

(** Every request is answered with 500: the Korean publish fails, the
    store stays as it was and the loop goes on with the next pair.  And
    with a gateway that refuses the English posts only: the English
    publish fails, nothing is saved for the English file and the loop
    goes on with the next pair. *)
Lemma failed_publish_saves_nothing_witness :
  let p := Toy.vault_pair in
  let e := "/vault/w/en/b.md" in
  let st := Toy.start Toy.vault in
  (∃ r st1,
     @parse_markdown_file Toy.frontmatter (store st) (ko_file p) = Some Toy.vault_a ∧
     @publish_post (Toy.always 500) (title Toy.vault_a) (content Toy.vault_a) "ko"
       (Some (ko_file p)) (ko_existing_id p)
       (py_get (raw_metadata Toy.vault_a) "ko-category") st = (Returned r, st1) ∧
     success r = false ∧
     store st1 = store st ∧
     @process_loop Toy.frontmatter (Toy.always 500) [p; Toy.lone_pair] st
       = @process_loop Toy.frontmatter (Toy.always 500) [Toy.lone_pair]
           (after_failure st1)) ∧
  (∃ ko_post_id st0 en_metadata r st1,
     @publish_ko Toy.frontmatter Toy.english_refused p st
       = (Returned (Some ko_post_id), st0) ∧
     en_file p = Some e ∧ e ≠ "" ∧
     @parse_markdown_file Toy.frontmatter (store st0) e = Some en_metadata ∧
     @publish_post Toy.english_refused (title en_metadata) (content en_metadata) "en"
       (Some e) (en_existing_id p)
       (py_get (raw_metadata en_metadata) "en-category") st0 = (Returned r, st1) ∧
     success r = false ∧
     store st1 = store st0 ∧
     @process_loop Toy.frontmatter Toy.english_refused [p; Toy.lone_pair] st
       = @process_loop Toy.frontmatter Toy.english_refused [Toy.lone_pair]
           (after_failure st1)).
Proof.
  intros p e st. split.
  - assert (@parse_markdown_file Toy.frontmatter (store st) (ko_file p) = Some Toy.vault_a)
      as Hparse by (vm_compute; reflexivity).
    assert (∃ r st1,
      @publish_post (Toy.always 500) (title Toy.vault_a) (content Toy.vault_a) "ko"
        (Some (ko_file p)) (ko_existing_id p)
        (py_get (raw_metadata Toy.vault_a) "ko-category") st = (Returned r, st1) ∧
      success r = false) as (r & st1 & Hpub & Hfail)
      by (eexists _, _; split; [vm_compute; reflexivity|reflexivity]).
    exists r, st1. repeat (split; [assumption|]).
    destruct (@failed_publish_saves_nothing Toy.frontmatter (Toy.always 500) p
                [Toy.lone_pair] st) as [Hko _].
    destruct (Hko Toy.vault_a r st1 Hparse Hpub Hfail) as (Hstore & _ & _ & Hloop).
    split; [exact Hstore|exact Hloop].
  - assert (∃ ko_post_id st0,
      @publish_ko Toy.frontmatter Toy.english_refused p st
        = (Returned (Some ko_post_id), st0)) as (ko_post_id & st0 & Hko)
      by (eexists _, _; vm_compute; reflexivity).
    assert (∃ en_metadata,
      @parse_markdown_file Toy.frontmatter (store st0) e = Some en_metadata ∧
      ∃ r st1,
      @publish_post Toy.english_refused (title en_metadata) (content en_metadata) "en"
        (Some e) (en_existing_id p)
        (py_get (raw_metadata en_metadata) "en-category") st0 = (Returned r, st1) ∧
      success r = false) as (en_metadata & Hparse & r & st1 & Hpub & Hfail).
    { vm_compute in Hko. injection Hko as _ <-.
      eexists. split; [vm_compute; reflexivity|].
      eexists _, _. split; [vm_compute; reflexivity|reflexivity]. }
    assert (en_file p = Some e) as He by reflexivity.
    assert (e ≠ "") as Hne by done.
    exists ko_post_id, st0, en_metadata, r, st1.
    repeat (split; [assumption|]).
    destruct (@failed_publish_saves_nothing Toy.frontmatter Toy.english_refused p
                [Toy.lone_pair] st) as [_ Hen].
    destruct (Hen e ko_post_id st0 en_metadata r st1 Hko He Hne Hparse Hpub Hfail)
      as (Hstore & _ & _ & Hloop).
    split; [exact Hstore|exact Hloop].
Defined.

(** The English post is refused: the Korean id has been saved, nothing is
    saved for the English file, no link is asked for, [failed] is 1. *)
Example failed_english_publish :
  let res := @process_pair Toy.frontmatter Toy.english_refused Toy.vault_pair
               (Toy.start Toy.vault) in
  res.1 = Returned () ∧
  map (λ ev, match ev with
             | Saved f _ _ _ => Some f
             | Sent _ _ => None
             end) (trace res.2)
    = [None; None; Some "/vault/v/a.md"; None] ∧
  failed (counters res.2) = 1 ∧
  files (store res.2) !! "/vault/w/en/b.md" = files Toy.vault !! "/vault/w/en/b.md".
Proof. vm_compute. done. Qed.

(** A first run on the vault saves both ids; the second run finds them
    and asks for no new post. *)
Lemma persisted_ids_are_updated_witness :
  let st1 := Toy.first_run Toy.vault Toy.vault_tree in
  let ps := @collect_language_pairs Toy.frontmatter (store st1) Toy.vault_tree "/vault" in
  docs_of ps = ["/vault/v/a.md"; "/vault/w/en/b.md"] ∧
  (∀ d m, d ∈ docs_of ps →
          @parse_markdown_file Toy.frontmatter (store st1) d = Some m →
          truthy (wp_post_id m) = true) ∧
  ∃ evs, trace (@process_pairs Toy.frontmatter Toy.sound ps st1).2 = trace st1 ++ evs ∧
         forallb no_create evs = true.
Proof.
  intros st1 ps.
  assert (docs_of ps = ["/vault/v/a.md"; "/vault/w/en/b.md"]) as Hdocs
    by (vm_compute; reflexivity).
  assert (∀ d m, d ∈ docs_of ps →
                 @parse_markdown_file Toy.frontmatter (store st1) d = Some m →
                 truthy (wp_post_id m) = true) as Hids.
  { intros d m Hd Hm.
    assert (forallb (λ d, match @parse_markdown_file Toy.frontmatter (store st1) d with
                          | Some m => truthy (wp_post_id m)
                          | None => true
                          end) (docs_of ps) = true) as Hall by (vm_compute; reflexivity).
    rewrite forallb_forall in Hall. apply list_elem_of_In, Hall in Hd.
    by rewrite Hm in Hd. }
  split; [exact Hdocs|]. split; [exact Hids|].
  destruct (@persisted_ids_are_updated Toy.frontmatter Toy.sound Toy.vault_tree
              "/vault" st1) as (_ & _ & _ & Hrun).
  exact (Hrun Hids).
Defined.

(** The document with the long comment: the first run creates its post,
    the id is not saved (the new text is too short for the check), the
    store is what it was, and the second run asks for a new post again. *)
Lemma second_run_creates_again :
  let st1 := Toy.first_run Toy.comment_vault Toy.comment_tree in
  let st2 := Toy.second_run Toy.comment_vault Toy.comment_tree in
  store st1 = Toy.comment_vault ∧
  (∃ evs, trace st1 = evs ∧ existsb creates_post evs = true) ∧
  ∃ evs, trace st2 = trace st1 ++ evs ∧ existsb creates_post evs = true.
Proof.
  intros st1 st2. split; [vm_compute; reflexivity|]. split.
  - eexists. split; [reflexivity|]. vm_compute. reflexivity.
  - eexists. split; [vm_compute; reflexivity|]. vm_compute. reflexivity.
Qed.

(** ** The reconciler as a whole *)

(** A run over two pairs on a gateway that refuses English posts: two
    Korean posts are created and one failure is counted. *)
Lemma process_pairs_accounts_witness :
  ∃ c st',
    @process_pairs Toy.frontmatter Toy.english_refused
      [Toy.vault_pair; Toy.lone_pair] (Toy.start Toy.vault) = (Returned c, st') ∧
    ko_created c = 2 ∧ failed c = 1 ∧
    (failed c + linked c ≤ total c)%nat.
Proof.
  assert (∃ c st',
    @process_pairs Toy.frontmatter Toy.english_refused
      [Toy.vault_pair; Toy.lone_pair] (Toy.start Toy.vault) = (Returned c, st') ∧
    ko_created c = 2 ∧ failed c = 1) as (c & st' & Hrun & Hko & Hfailed)
    by (eexists _, _; vm_compute; done).
  exists c, st'. split; [exact Hrun|]. split; [exact Hko|]. split; [exact Hfailed|].
  destruct (@process_pairs_accounts Toy.frontmatter Toy.english_refused _ _ _ _ Hrun)
    as (_ & _ & Hone & _).
  exact Hone.
Defined.

Lemma process_pairs_saves_each_post_witness :
  ∃ c st' evs,
    @process_pairs Toy.frontmatter Toy.sound
      [Toy.vault_pair; Toy.lone_pair] (Toy.start Toy.vault) = (Returned c, st') ∧
    trace st' = trace (Toy.start Toy.vault) ++ evs ∧
    length (saved_in evs) = 3 ∧ length (List.filter is_link evs) = 1.
Proof.
  assert (∃ c st',
    @process_pairs Toy.frontmatter Toy.sound
      [Toy.vault_pair; Toy.lone_pair] (Toy.start Toy.vault) = (Returned c, st') ∧
    ko_created c = 2 ∧ ko_updated c = 0 ∧ en_created c = 1 ∧ en_updated c = 0)
    as (c & st' & Hrun & Hc1 & Hc2 & Hc3 & Hc4)
    by (eexists _, _; vm_compute; done).
  destruct (@process_pairs_saves_each_post Toy.frontmatter Toy.sound _ _ _ _ Hrun)
    as (evs & Htr & Hsaved & Hlinks & _).
  exists c, st', evs. split; [exact Hrun|]. split; [exact Htr|].
  rewrite Hsaved, Hlinks, Hc1, Hc2, Hc3, Hc4. split; reflexivity.
Defined.

Lemma process_pairs_rewrites_documents_only_witness :
  ∃ c st',
    @process_pairs Toy.frontmatter Toy.sound
      [Toy.vault_pair] (Toy.start Toy.vault) = (Returned c, st') ∧
    ("/vault/v/english/a.md" ∉ docs_of [Toy.vault_pair]) ∧
    files (store st') !! "/vault/v/english/a.md" =
    files Toy.vault !! "/vault/v/english/a.md".
Proof.
  assert (∃ c st',
    @process_pairs Toy.frontmatter Toy.sound
      [Toy.vault_pair] (Toy.start Toy.vault) = (Returned c, st'))
    as (c & st' & Hrun) by (eexists _, _; vm_compute; done).
  assert ("/vault/v/english/a.md" ∉ docs_of [Toy.vault_pair]) as Hout
    by (apply (bool_decide_eq_false_1 _); vm_compute; reflexivity).
  exists c, st'. split; [exact Hrun|]. split; [exact Hout|].
  destruct (@process_pairs_rewrites_documents_only Toy.frontmatter Toy.sound
              _ _ _ _ Hrun) as [_ Hfiles].
  destruct (Hfiles "/vault/v/english/a.md") as [_ Hsame]. exact (Hsame Hout).
Defined.

(** The Korean file of the second pair is not there: the run stops at
    that pair, after the first pair has been processed. *)
Lemma process_pairs_stops_only_witness :
  ∃ st',
    @process_pairs Toy.frontmatter Toy.sound
      [Toy.lone_pair; Cases.gone_pair] (Toy.start Toy.vault) = (Raised, st') ∧
    ∃ p, p ∈ [Toy.lone_pair; Cases.gone_pair] ∧
      (@unusable Toy.frontmatter (store st') (ko_file p) "ko-category" ∨
       (∃ e, en_file p = Some e ∧ e ≠ "" ∧
             @unusable Toy.frontmatter (store st') e "en-category") ∨
       (∃ f, f ∈ pair_docs p ∧ @save_escapes Toy.sound f st')).
Proof.
  assert (∃ st',
    @process_pairs Toy.frontmatter Toy.sound
      [Toy.lone_pair; Cases.gone_pair] (Toy.start Toy.vault) = (Raised, st'))
    as (st' & Hrun) by (eexists; vm_compute; done).
  exists st'. split; [exact Hrun|].
  exact (@process_pairs_stops_only Toy.frontmatter Toy.sound _ _ _ Hrun).
Defined.

(** ** The last strategy and the metadata store, further *)

(** [a.md] has no group and no mirror id; its sibling in [english] is
    taken, with the post id it carries. *)
Lemma folder_match_last_resort_witness :
  let markdown_files := get_markdown_files Cases.sibling_tree "/vault" None in
  let ix := @build_index Toy.frontmatter Cases.sibling_vault markdown_files in
  let k := "/vault/v/a.md" in
  let sibling := "/vault/v/english/a.md" in
  ∃ after me,
    all_files ix = [] ++ (k, Cases.sibling_a) :: after ∧
    (k ∉ processed_files no_pairs) ∧ is_english k = false ∧
    path_exists Cases.sibling_vault (Path.join (Path.dirname k) "english") = true ∧
    sibling ∈ markdown_files ∧
    @parse_markdown_file Toy.frontmatter Cases.sibling_vault sibling = Some me ∧
    (sibling ∉ processed_files no_pairs) ∧
    wp_post_id me = PInt 9 ∧
    ∃ p, p ∈ @collect_language_pairs Toy.frontmatter Cases.sibling_vault
               Cases.sibling_tree "/vault" ∧
         ko_file p = k ∧ en_file p = Some sibling ∧ en_existing_id p = PInt 9.
Proof.
  intros l ix k sibling.
  assert (∃ after, all_files ix = [] ++ (k, Cases.sibling_a) :: after) as [after Hall]
    by (eexists; vm_compute; reflexivity).
  assert (∃ me, @parse_markdown_file Toy.frontmatter Cases.sibling_vault sibling = Some me ∧
                wp_post_id me = PInt 9) as (me & Hme & Hid)
    by (eexists; vm_compute; done).
  exists after, me.
  assert (k ∉ processed_files no_pairs) as Hk
    by (apply (bool_decide_eq_false_1 _); vm_compute; reflexivity).
  assert (is_english k = false) as Hen by reflexivity.
  assert (path_exists Cases.sibling_vault (Path.join (Path.dirname k) "english") = true)
    as Hdir by (vm_compute; reflexivity).
  assert (sibling ∈ l) as Hin by decided.
  assert (sibling ∉ processed_files no_pairs) as Hfree
    by (apply (bool_decide_eq_false_1 _); vm_compute; reflexivity).
  repeat (split; [assumption|]).
  destruct (@folder_match_last_resort Toy.frontmatter Cases.sibling_vault
              Cases.sibling_tree "/vault" [] k Cases.sibling_a after Hall Hk Hen)
    as (p & Hp & Hko & Hsome & _).
  { intros Hg. discriminate Hg. }
  { intros Hm. discriminate Hm. }
  exists p. split; [exact Hp|]. split; [exact Hko|].
  destruct (Hsome me Hdir Hin Hme Hfree) as [He Hi].
  split; [exact He|]. by rewrite Hi.
Defined.


(** Saving the post id of [a.md] leaves its group id as it was. *)
Lemma save_metadata_to_file_keeps_rest_witness :
  let f := "/vault/v/a.md" in
  let res := @save_metadata_to_file Toy.frontmatter Toy.sound_disk
               (files Toy.vault) f "wp-post-id" (PInt 101) in
  let w' := {| files := res.1; dirs := dirs Toy.vault |} in
  @parse_markdown_file Toy.frontmatter Toy.vault f = Some Toy.vault_a ∧
  res.2 = Returned true ∧
  ∃ m', @parse_markdown_file Toy.frontmatter w' f = Some m' ∧
        group_id m' = PStr "g" ∧ content m' = "A".
Proof.
  intros f res w'.
  assert (@parse_markdown_file Toy.frontmatter Toy.vault f = Some Toy.vault_a) as Hparse
    by (vm_compute; reflexivity).
  assert (res.2 = Returned true) as Hres by (vm_compute; reflexivity).
  set (original_content := Toy.doc ["publish=true"; "group-id=g"] "A").
  set (p := {| post_metadata := list_to_map [("publish", PBool true); ("group-id", PStr "g")];
               post_content := "A" |}).
  set (text := Toy.doc ["wp-post-id=101"; "group-id=g"; "publish=true"] "A").
  assert (files Toy.vault !! f = Some original_content) as Ho
    by (vm_compute; reflexivity).
  assert (Toy.loads original_content = Some p) as Hl by (vm_compute; reflexivity).
  assert (res.1 !! f = Some text) as Htext by (vm_compute; reflexivity).
  assert (Toy.loads text = Some (with_key p "wp-post-id" (PInt 101))) as Hcodec
    by (vm_compute; reflexivity).
  split; [exact Hparse|]. split; [exact Hres|].
  destruct (@save_metadata_to_file_keeps_rest Toy.frontmatter Toy.sound_disk Toy.vault
              f "wp-post-id" (PInt 101) Toy.vault_a original_content p text
              Hparse Hres Ho Hl Htext Hcodec) as (_ & Hkeeps & _).
  destruct Hkeeps as (m' & Hm' & _ & Hcontent & _ & _ & _ & _ & _ & Hgroup);
    [by left|].
  exists m'. split; [exact Hm'|]. split.
  - rewrite Hgroup by done. reflexivity.
  - rewrite Hcontent. reflexivity.
Defined.

(** ** Wiki links *)

Lemma convert_wiki_links_without_links_witness :
  Path.contains "[[" "a [single] bracket | and a pipe" = false ∧
  convert_wiki_links "a [single] bracket | and a pipe" = "a [single] bracket | and a pipe".
Proof.
  assert (Path.contains "[[" "a [single] bracket | and a pipe" = false) as Hnone
    by (vm_compute; reflexivity).
  split; [exact Hnone|]. exact (convert_wiki_links_without_links _ Hnone).
Defined.

Lemma convert_wiki_links_piped_witness :
  convert_wiki_links ("see " +:+ "[[" +:+ "Other note" +:+ "|" +:+ "this" +:+ "]]" +:+ ".") =
  "see " +:+ wiki_anchor "Other note" "this" +:+ convert_wiki_links ".".
Proof.
  apply convert_wiki_links_piped; (reflexivity || discriminate).
Defined.

Lemma convert_wiki_links_plain_witness :
  convert_wiki_links ("see " +:+ "[[" +:+ "Note" +:+ "]]" +:+ ".") =
  "see " +:+ wiki_anchor "Note" "Note" +:+ convert_wiki_links ".".
Proof.
  apply convert_wiki_links_plain; (reflexivity || discriminate).
Defined.

Lemma convert_wiki_links_swallows_witness :
  convert_wiki_links
    ("see " +:+ "[[" +:+ "Note" +:+ "]]" +:+ " and " +:+
     "[[" +:+ "Other note" +:+ "|" +:+ "this" +:+ "]]" +:+ ".") =
  "see " +:+ wiki_anchor ("Note" +:+ "]]" +:+ " and " +:+ "[[" +:+ "Other note") "this"
  +:+ ".".
Proof.
  apply convert_wiki_links_swallows; (reflexivity || discriminate).
Defined.

(** ** The ids that are linked *)

(** On the sound gateway the pair of the vault is linked with the ids
    101 and 102, which are the ids handed to [save_metadata_to_file] for
    its two files. *)
Lemma process_pairs_links_ids_passed_to_save_witness :
  ∃ c st' evs,
    @process_pairs Toy.frontmatter Toy.sound [Toy.vault_pair] (Toy.start Toy.vault)
      = (Returned c, st') ∧
    linked c = 1 ∧
    trace st' = trace (Toy.start Toy.vault) ++ evs ∧
    saved_in (trace st') =
      [("/vault/v/a.md", "wp-post-id", PInt 101);
       ("/vault/w/en/b.md", "wp-post-id", PInt 102)] ∧
    ∀ ev, ev ∈ evs → is_link ev = true →
      ∃ p e ko_post_id en_post_id answer ko_saved en_saved,
        ev = Sent {| req_method := POST; req_url := LinkTranslations;
                     req_body := LinkData ko_post_id en_post_id |} answer ∧
        p ∈ [Toy.vault_pair] ∧ en_file p = Some e ∧
        Saved (ko_file p) "wp-post-id" ko_post_id ko_saved ∈ evs ∧
        Saved e "wp-post-id" en_post_id en_saved ∈ evs.
Proof.
  assert (∃ c st',
    @process_pairs Toy.frontmatter Toy.sound [Toy.vault_pair] (Toy.start Toy.vault)
      = (Returned c, st') ∧ linked c = 1 ∧
    saved_in (trace st') =
      [("/vault/v/a.md", "wp-post-id", PInt 101);
       ("/vault/w/en/b.md", "wp-post-id", PInt 102)])
    as (c & st' & Hrun & Hlinked & Hsaved).
  { eexists _, _. split; [vm_compute; reflexivity|]. split; vm_compute; reflexivity. }
  destruct (@process_pairs_links_ids_passed_to_save Toy.frontmatter Toy.sound _ _ _ _ Hrun)
    as (evs & Htr & Hlinks).
  exists c, st', evs. split; [exact Hrun|]. split; [exact Hlinked|].
  split; [exact Htr|]. split; [exact Hsaved|exact Hlinks].
Defined.

(** The link is asked for whatever the saves returned: both documents
    carry a long comment, both calls of [save_metadata_to_file] return
    [False] and leave the vault as it was, and the two posts are linked
    all the same. *)
Example process_pairs_links_unsaved_ids :
  let res := @process_pairs Toy.frontmatter Toy.sound [Cases.unsaved_pair]
               (Toy.start Cases.unsaved_vault) in
  store res.2 = Cases.unsaved_vault ∧
  List.filter (λ ev, negb (is_send ev)) (trace res.2) =
    [ Saved "/vault/a.md" "wp-post-id" (PInt 101) (Returned false);
      Saved "/vault/en/a.md" "wp-post-id" (PInt 102) (Returned false) ] ∧
  List.filter is_link (trace res.2) =
    [ Sent (link_request (PInt 101) (PInt 102))
           (Toy.answer 200 [("success", PBool true)]) ] ∧
  linked (counters res.2) = 1.
Proof.
  intros res. split; [vm_compute; reflexivity|].
  split; [vm_compute; reflexivity|]. split; vm_compute; reflexivity.
Qed.

(** ** The language manager and the command line *)

(** Both posts are registered and both saves succeed: the two documents
    name each other's post. *)
Example link_mirror_posts_links :
  let res := @link_mirror_posts Toy.frontmatter Toy.sound_disk Toy.sound_disk
               (registered Cases2.two_posts) (files Toy.vault)
               "/vault/v/a.md" "/vault/w/en/b.md" in
  res.2 = Returned true ∧
  res.1 !! "/vault/v/a.md" =
    Some (Toy.doc ["group-id=g"; "mirror_post_id=102"; "publish=true"] "A") ∧
  res.1 !! "/vault/w/en/b.md" =
    Some (Toy.doc ["group-id=g"; "mirror_post_id=101"; "publish=true"] "B en").
Proof. vm_compute. done. Qed.


Lemma find_mirror_file_round_trip_witness :
  let f := "/vault/v/a.md" in
  let e := "/vault/v/en/a.md" in
  find_mirror_file Cases2.en_vault f (PStr "en") = Some e ∧
  path_exists Cases2.en_vault f = true ∧
  Path.join (Path.dirname f) (Path.basename f) = f ∧
  Path.dirname f ≠ "" ∧
  find_mirror_file Cases2.en_vault e (PStr "ko") = Some f.
Proof.
  intros f e.
  assert (find_mirror_file Cases2.en_vault f (PStr "en") = Some e) as H1
    by (vm_compute; reflexivity).
  assert (path_exists Cases2.en_vault f = true) as H2 by (vm_compute; reflexivity).
  assert (Path.join (Path.dirname f) (Path.basename f) = f) as H3
    by (vm_compute; reflexivity).
  assert (Path.dirname f ≠ "") as H4 by (vm_compute; discriminate).
  repeat (split; [assumption|]).
  destruct (find_mirror_file_round_trip Cases2.en_vault f e H1 H2 H3 H4) as (_ & _ & Hback).
  exact Hback.
Defined.

(** A file given by its bare name has no directory part: the way back
    is not found. *)
Example find_mirror_file_bare_name :
  let w := {| files := list_to_map [("a.md", "A"); ("en/a.md", "A en")];
              dirs := {["en"]} |} in
  find_mirror_file w "a.md" (PStr "en") = Some "en/a.md" ∧
  find_mirror_file w "en/a.md" (PStr "ko") = None.
Proof. vm_compute. done. Qed.

(** A category name made of a file separator (code 28), a no-break
    space (code 160) and a space, all of which [str.strip()] removes: no
    request is sent for it. *)
Example get_or_create_category_blank_name :
  let name := String "028" (String "160" " ") in
  blank name = true ∧
  @get_or_create_category Toy.sound (PStr name) (Toy.start Toy.vault)
  = (Returned PNone, Toy.start Toy.vault).
Proof. split; vm_compute; reflexivity. Qed.

(** The site answers the connection test with 500: [main] exits with
    status 1, having sent the probe and nothing else. *)
Example main_connection_refused :
  let res := @main Toy.frontmatter (Toy.always 500) Cases3.ready Toy.vault_tree
               Cases3.command (Toy.start Cases3.configured) in
  res.1 = Exited 1 ∧
  trace res.2 = [Sent connection_probe (Toy.answer 500 [("id", PInt 7)])].
Proof. split; vm_compute; reflexivity. Qed.

(** Everything is in place but the Polylang connector, whose probe is
    answered with 404: the pair of the vault is published all the same. *)
Example main_publishes :
  let res := @main Toy.frontmatter Cases3.site Cases3.ready Toy.vault_tree
               Cases3.command (Toy.start Cases3.configured) in
  res.1 = Finished ∧
  take 2 (trace res.2) = [Sent connection_probe (Toy.answer 200 []);
                          Sent polylang_probe (Toy.answer 404 [])] ∧
  ko_created (counters res.2) = 1 ∧ linked (counters res.2) = 1.
Proof. split; [|split; [|split]]; vm_compute; reflexivity. Qed.

Lemma main_checks_first_witness :
  let st := Toy.start Cases3.configured in
  let res := @main Toy.frontmatter Cases3.site Cases3.ready Toy.vault_tree
               Cases3.command st in
  (∃ ev, ev ∈ trace res.2 ∧ is_probe ev = false) ∧
  answered_200 (@server Cases3.site (trace st) connection_probe) = true.
Proof.
  intros st res.
  assert (∃ ev, ev ∈ trace res.2 ∧ is_probe ev = false) as Hsent.
  { assert (existsb (λ ev, negb (is_probe ev)) (trace res.2) = true) as Hex
      by (vm_compute; reflexivity).
    apply existsb_exists in Hex as (ev & Hin & Hev).
    exists ev. split; [by apply list_elem_of_In|by apply negb_true_iff]. }
  split; [exact Hsent|].
  destruct (@main_checks_first Toy.frontmatter Cases3.site Cases3.ready
              Toy.vault_tree Cases3.command st)
    as (evs & Htrace & _ & Hchecked & _).
  change (trace st ++ evs) with evs in Htrace. fold res in Htrace.
  rewrite Htrace in Hsent. exact (proj1 (Hchecked Hsent)).
Defined.
